(** * Agent orchestrator: the session store, the tmux runtime and `ao start`

    A shallow embedding of
      - packages/core/src/metadata.ts        (flat-file session store),
      - packages/plugins/runtime-tmux/src/index.ts (the tmux runtime),
      - the `ao send` and `ao start` commands of the CLI,
      - packages/cli/src/lib/web-dir.ts            (port scanning),
      - packages/cli/src/lib/git-utils.ts          (default branch),
    with the properties the specification states about them and further
    properties of the code. *)

From Stdlib Require Import NArith List Bool Arith Lia String Ascii Permutation.
From Stdlib Require Import DecimalString.
Import ListNotations.
Open Scope list_scope.

Set Implicit Arguments.

(* ===================================================================== *)
(** ** JavaScript strings

    A JavaScript string is a sequence of UTF-16 code units; [length],
    [indexOf], [slice], [split], [trim], [startsWith] and the regular
    expressions of the sources all work on code units.  File contents are
    kept as text, that is, as the string that reading the file with the
    "utf-8" encoding gives; what the encoding does to a string that is
    not well formed is modelled by [toWellFormed]. *)

Module Js.

Definition str := list N.

Definition lit (s : string) : str :=
  map N_of_ascii (list_ascii_of_string s).

Fixpoint eqb (a b : str) : bool :=
  match a, b with
  | [], [] => true
  | x :: a', y :: b' => N.eqb x y && eqb a' b'
  | _, _ => false
  end.

Definition NL : N := 10.      (* "\n" *)
Definition EQ : N := 61.      (* "="  *)
Definition HASH : N := 35.    (* "#"  *)
Definition DOT : N := 46.     (* "."  *)

(** WhiteSpace and LineTerminator of ECMAScript, which is what
    String.prototype.trim strips. *)
Definition is_ws (c : N) : bool :=
  (N.leb 9 c && N.leb c 13) || N.eqb c 32 || N.eqb c 160 || N.eqb c 5760
  || (N.leb 8192 c && N.leb c 8202) || N.eqb c 8232 || N.eqb c 8233
  || N.eqb c 8239 || N.eqb c 8287 || N.eqb c 12288 || N.eqb c 65279.

(** trimStart *)
Fixpoint ltrim (s : str) : str :=
  match s with
  | [] => []
  | c :: s' => if is_ws c then ltrim s' else s
  end.

(** trimEnd *)
Fixpoint rtrim (s : str) : str :=
  match s with
  | [] => []
  | c :: s' =>
      match rtrim s' with
      | [] => if is_ws c then [] else [c]
      | r => c :: r
      end
  end.

Definition trim (s : str) : str := rtrim (ltrim s).

(** s.indexOf(c) for a one-unit needle; [None] stands for -1. *)
Fixpoint index_of (c : N) (s : str) : option nat :=
  match s with
  | [] => None
  | x :: s' =>
      if N.eqb x c then Some 0
      else match index_of c s' with
           | Some i => Some (S i)
           | None => None
           end
  end.

(** s.split("\n") *)
Fixpoint split_nl (s : str) : list str :=
  match s with
  | [] => [[]]
  | c :: s' =>
      if N.eqb c NL then [] :: split_nl s'
      else match split_nl s' with
           | [] => [[c]]
           | l :: ls => (c :: l) :: ls
           end
  end.

(** xs.join("\n") *)
Fixpoint join_nl (xs : list str) : str :=
  match xs with
  | [] => []
  | [x] => x
  | x :: xs' => x ++ NL :: join_nl xs'
  end.

(** s.startsWith(p) *)
Fixpoint starts_with (p s : str) : bool :=
  match p, s with
  | [], _ => true
  | x :: p', y :: s' => N.eqb x y && starts_with p' s'
  | _ :: _, [] => false
  end.

(** s.endsWith(p) *)
Definition ends_with (p s : str) : bool :=
  starts_with (rev p) (rev s).

(** s.includes(p) *)
Fixpoint includes (p s : str) : bool :=
  starts_with p s ||
  match s with
  | [] => false
  | _ :: s' => includes p s'
  end.

(** *** Strings as UTF-8 text

    A file written with the "utf-8" encoding holds the UTF-8 form of the
    string. A surrogate pair is encoded as one code point; a surrogate
    that has no partner cannot be encoded and is written as U+FFFD, the
    replacement character. Decoding what was written gives the string
    with each lone surrogate replaced, which is what
    String.prototype.toWellFormed returns. *)

Definition is_lead (c : N) : bool := N.leb 55296 c && N.leb c 56319.
Definition is_trail (c : N) : bool := N.leb 56320 c && N.leb c 57343.
Definition is_surrogate (c : N) : bool := is_lead c || is_trail c.

Definition REPLACEMENT : N := 65533.     (* U+FFFD *)

(** s.toWellFormed() *)
Fixpoint toWellFormed (s : str) : str :=
  match s with
  | [] => []
  | c :: rest =>
      if is_lead c then
        match rest with
        | d :: rest' =>
            if is_trail d then c :: d :: toWellFormed rest'
            else REPLACEMENT :: toWellFormed rest
        | [] => [REPLACEMENT]
        end
      else if is_trail c then REPLACEMENT :: toWellFormed rest
      else c :: toWellFormed rest
  end.

(** s.isWellFormed() *)
Definition isWellFormed (s : str) : bool := eqb (toWellFormed s) s.

(** The character class [a-zA-Z0-9_-]. *)
Definition is_id_char (c : N) : bool :=
  (N.leb 97 c && N.leb c 122) || (N.leb 65 c && N.leb c 90)
  || (N.leb 48 c && N.leb c 57) || N.eqb c 95 || N.eqb c 45.

(** /^[a-zA-Z0-9_-]+$/.test(s): without the m flag, $ is the end of input. *)
Definition VALID_SESSION_ID (s : str) : bool :=
  match s with
  | [] => false
  | _ => forallb is_id_char s
  end.

End Js.

(* ===================================================================== *)
(** ** Ordered association lists

    Directory listings and JavaScript objects both map names to values
    and are enumerated in a definite order. [put] overwrites in place or
    appends, which is how an own string-keyed property behaves. *)

Module Assoc.
Section Assoc.
Variable V : Type.

Definition t := list (Js.str * V).

Fixpoint get (k : Js.str) (o : t) : option V :=
  match o with
  | [] => None
  | (k', v) :: o' => if Js.eqb k' k then Some v else get k o'
  end.

Fixpoint put (k : Js.str) (v : V) (o : t) : t :=
  match o with
  | [] => [(k, v)]
  | (k', v') :: o' =>
      if Js.eqb k' k then (k, v) :: o' else (k', v') :: put k v o'
  end.

Fixpoint remove (k : Js.str) (o : t) : t :=
  match o with
  | [] => []
  | (k', v') :: o' =>
      if Js.eqb k' k then remove k o' else (k', v') :: remove k o'
  end.

Definition keys (o : t) : list Js.str := map fst o.

Definition has (k : Js.str) (o : t) : bool :=
  match get k o with Some _ => true | None => false end.
End Assoc.
End Assoc.

(* ===================================================================== *)
(** ** Plain JavaScript objects used as string records *)

Module Obj.

Definition t (V : Type) := Assoc.t V.

Definition PROTO : Js.str := Js.lit "__proto__".

(** [o[k] = v] on an object literal. Assigning a string to "__proto__"
    goes to the accessor of Object.prototype, which ignores values that
    are neither an object nor null, so no own property is created. *)
Definition set {V} (k : Js.str) (v : V) (o : t V) : t V :=
  if Js.eqb k PROTO then o else Assoc.put k v o.

Definition is_digit (c : N) : bool := N.leb 48 c && N.leb c 57.

Fixpoint digits_value (acc : N) (s : Js.str) : N :=
  match s with
  | [] => acc
  | c :: s' => digits_value (acc * 10 + (c - 48)) s'
  end.

(** A key is an array index when it is the canonical decimal form of an
    integer below 2^32 - 1. *)
Definition array_index (k : Js.str) : option N :=
  match k with
  | [] => None
  | c :: rest =>
      if forallb is_digit k
         && (negb (N.eqb c 48) || match rest with [] => true | _ => false end)
      then
        let n := digits_value 0 k in
        if N.ltb n 4294967295 then Some n else None
      else None
  end.

Fixpoint insert_sorted {V} (n : N) (kv : Js.str * V)
    (l : list (N * (Js.str * V))) : list (N * (Js.str * V)) :=
  match l with
  | [] => [(n, kv)]
  | (m, kv') :: l' =>
      if N.leb n m then (n, kv) :: l else (m, kv') :: insert_sorted n kv l'
  end.

Definition index_entries {V} (o : t V) : list (N * (Js.str * V)) :=
  fold_right
    (fun kv acc =>
       match array_index (fst kv) with
       | Some n => insert_sorted n kv acc
       | None => acc
       end) [] o.

Definition string_entries {V} (o : t V) : list (Js.str * V) :=
  filter (fun kv => match array_index (fst kv) with
                    | Some _ => false
                    | None => true
                    end) o.

(** Object.entries(o): array-index keys in ascending order, then the
    other keys in insertion order. *)
Definition entries {V} (o : t V) : list (Js.str * V) :=
  map snd (index_entries o) ++ string_entries o.

(** [const { [k]: _, ...rest } = o]: a fresh object with the own
    properties of [o] other than [k], copied in enumeration order. *)
Definition rest_without {V} (k : Js.str) (o : t V) : t V :=
  Assoc.remove k (entries o).

End Obj.

(* ===================================================================== *)
(** ** Results of fallible calls *)

Inductive error :=
  | Error (message : Js.str)          (* throw new Error(message) *)
  | SystemError (code : string).      (* an error raised by node:fs, node:net or a child process *)

Inductive result (A : Type) :=
  | Ok (a : A)
  | Throw (e : error).
Arguments Ok {A} a.
Arguments Throw {A} e.

Definition rbind {A B} (r : result A) (k : A -> result B) : result B :=
  match r with
  | Ok a => k a
  | Throw e => Throw e
  end.

Notation "'let*' x ':=' r 'in' k" := (rbind r (fun x => k))
  (at level 10, x pattern, r at level 100, k at level 200).

(* ===================================================================== *)
(** ** Session statuses *)

Module Types.

(** Modelled from the spec: packages/core/src/types.ts is not among the
    sources. The closed status enum is the list of section 3 of the
    specification. *)
Definition SESSION_STATUSES : list Js.str :=
  map Js.lit
    [ "spawning"; "working"; "pr_open"; "review_pending"; "ci_failed";
      "changes_requested"; "approved"; "mergeable"; "merged"; "needs_input";
      "stuck"; "errored"; "cleanup"; "killed"; "done"; "terminated" ]%string.

(** Modelled from the spec: TERMINAL_STATUSES of types.ts, the terminal
    subset named in section 3 (merged, killed, done, terminated, cleanup). *)
Definition TERMINAL_STATUSES : list Js.str :=
  map Js.lit [ "merged"; "killed"; "done"; "terminated"; "cleanup" ]%string.

(** TERMINAL_STATUSES.has(status) *)
Definition is_terminal (status : Js.str) : bool :=
  existsb (Js.eqb status) TERMINAL_STATUSES.

End Types.

(* ===================================================================== *)
(** ** packages/core/src/metadata.ts *)

Module Metadata.

(** *** The data directory

    The store is the content of [dataDir]: [None] when the directory does
    not exist, otherwise its entries in readdir order. A top-level entry
    is a file or a directory; inside a directory only files are told from
    everything else. Names are told apart unit by unit, as a
    case-sensitive file system does. *)

Inductive node :=
  | File (content : Js.str)
  | Dir.

Inductive entry :=
  | EFile (content : Js.str)
  | EDir (children : Assoc.t node).

Definition store := option (Assoc.t entry).

(** Paths the module builds with join(dataDir, ...). *)
Inductive path :=
  | Flat (sessionId : Js.str)                 (* {dataDir}/{sessionId} *)
  | InProject (dir sessionId : Js.str).       (* {dataDir}/{dir}/{sessionId} *)

(** existsSync(p) *)
Definition existsSync (st : store) (p : path) : bool :=
  match st, p with
  | None, _ => false
  | Some d, Flat id => Assoc.has id d
  | Some d, InProject dir id =>
      match Assoc.get dir d with
      | Some (EDir ch) => Assoc.has id ch
      | _ => false
      end
  end.

(** existsSync(p) && statSync(p).isFile() *)
Definition isFile (st : store) (p : path) : bool :=
  match st, p with
  | None, _ => false
  | Some d, Flat id =>
      match Assoc.get id d with Some (EFile _) => true | _ => false end
  | Some d, InProject dir id =>
      match Assoc.get dir d with
      | Some (EDir ch) =>
          match Assoc.get id ch with Some (File _) => true | _ => false end
      | _ => false
      end
  end.

(** The content of a file is kept as text. Reading with the "utf-8"
    encoding decodes the bytes of the file, and a decoded string is always
    well formed: bytes that are not UTF-8 are read as U+FFFD. *)
Definition decode (content : Js.str) : Js.str := Js.toWellFormed content.

(** What a file holds after [content] was written to it with the "utf-8"
    encoding, as text. *)
Definition encode (content : Js.str) : Js.str := Js.toWellFormed content.

(** The longest name a directory entry can have (NAME_MAX, 255 bytes on
    the usual file systems). The names the module makes up are session
    IDs and archive names, one byte per unit. Creating an entry with a
    longer name fails with ENAMETOOLONG. The length of the whole path,
    access rights and free space are not modelled: apart from the name
    being too long, a call fails only for what the directory holds. *)
Definition NAME_MAX : nat := 255.

Definition too_long (name : Js.str) : bool := NAME_MAX <? List.length name.
Arguments too_long : simpl never.

(** readFileSync(p, "utf-8") *)
Definition readFileSync (st : store) (p : path) : result Js.str :=
  match st, p with
  | None, _ => Throw (SystemError "ENOENT")
  | Some d, Flat id =>
      match Assoc.get id d with
      | Some (EFile c) => Ok (decode c)
      | Some (EDir _) => Throw (SystemError "EISDIR")
      | None => Throw (SystemError "ENOENT")
      end
  | Some d, InProject dir id =>
      match Assoc.get dir d with
      | Some (EDir ch) =>
          match Assoc.get id ch with
          | Some (File c) => Ok (decode c)
          | Some Dir => Throw (SystemError "EISDIR")
          | None => Throw (SystemError "ENOENT")
          end
      | Some (EFile _) => Throw (SystemError "ENOTDIR")
      | None => Throw (SystemError "ENOENT")
      end
  end.

(** writeFileSync(p, content, "utf-8"): an existing file is overwritten,
    a new one is created unless its name is too long. *)
Definition writeFileSync (st : store) (p : path) (content : Js.str)
  : result store :=
  match st, p with
  | None, _ => Throw (SystemError "ENOENT")
  | Some d, Flat id =>
      match Assoc.get id d with
      | Some (EDir _) => Throw (SystemError "EISDIR")
      | Some (EFile _) => Ok (Some (Assoc.put id (EFile (encode content)) d))
      | None =>
          if too_long id then Throw (SystemError "ENAMETOOLONG")
          else Ok (Some (Assoc.put id (EFile (encode content)) d))
      end
  | Some d, InProject dir id =>
      match Assoc.get dir d with
      | Some (EDir ch) =>
          match Assoc.get id ch with
          | Some Dir => Throw (SystemError "EISDIR")
          | Some (File _) =>
              Ok (Some (Assoc.put dir
                          (EDir (Assoc.put id (File (encode content)) ch)) d))
          | None =>
              if too_long id then Throw (SystemError "ENAMETOOLONG")
              else Ok (Some (Assoc.put dir
                               (EDir (Assoc.put id (File (encode content)) ch))
                               d))
          end
      | Some (EFile _) => Throw (SystemError "ENOTDIR")
      | None => Throw (SystemError "ENOENT")
      end
  end.

(** mkdirSync(dirname(p), { recursive: true }). The directories it is
    asked for are the data directory, "archive", and a project directory
    in which a record was found. *)
Definition mkdirParent (st : store) (p : path) : result store :=
  match p with
  | Flat _ =>
      match st with
      | None => Ok (Some [])
      | Some d => Ok (Some d)
      end
  | InProject dir _ =>
      let d := match st with None => [] | Some d => d end in
      match Assoc.get dir d with
      | Some (EDir _) => Ok (Some d)
      | Some (EFile _) => Throw (SystemError "EEXIST")
      | None => Ok (Some (Assoc.put dir (EDir []) d))
      end
  end.

(** openSync(p, O_WRONLY | O_CREAT | O_EXCL) followed by closeSync, inside
    the try of reserveSessionId: [true] when the file was created. The
    catch clause has no condition, so every failure of openSync gives
    [false]: the name is taken (EEXIST), the name is too long
    (ENAMETOOLONG), the directory is gone (ENOENT). Only the flat path is
    ever opened this way. *)
Definition openExcl (st : store) (sessionId : Js.str) : bool * store :=
  match st with
  | None => (false, None)
  | Some d =>
      if Assoc.has sessionId d then (false, Some d)
      else if too_long sessionId then (false, Some d)
      else (true, Some (Assoc.put sessionId (EFile []) d))
  end.

(** *** The record format *)

Definition parse_line (result : Obj.t Js.str) (line : Js.str)
  : Obj.t Js.str :=
  let trimmed := Js.trim line in
  match trimmed with
  | [] => result
  | _ =>
      if Js.starts_with [Js.HASH] trimmed then result
      else
        match Js.index_of Js.EQ trimmed with
        | None => result
        | Some eqIndex =>
            let key := Js.trim (firstn eqIndex trimmed) in
            let value := Js.trim (skipn (eqIndex + 1) trimmed) in
            match key with
            | [] => result
            | _ => Obj.set key value result
            end
        end
  end.

Definition parseMetadataFile (content : Js.str) : Obj.t Js.str :=
  fold_left parse_line (Js.split_nl content) [].

Definition nonempty (s : Js.str) : bool :=
  match s with [] => false | _ => true end.

Definition entry_line (kv : Js.str * Js.str) : Js.str :=
  fst kv ++ Js.EQ :: snd kv.

Definition serializeMetadata (data : Obj.t Js.str) : Js.str :=
  Js.join_nl
    (map entry_line (filter (fun kv => nonempty (snd kv)) (Obj.entries data)))
  ++ [Js.NL].

(** *** Session identifiers and paths *)

Definition validateSessionId (sessionId : Js.str) : result unit :=
  if Js.VALID_SESSION_ID sessionId then Ok tt
  else Throw (Error (Js.lit "Invalid session ID: " ++ sessionId)).

Definition metadataPath (sessionId : Js.str) : result path :=
  let* _ := validateSessionId sessionId in
  Ok (Flat sessionId).

Definition SESSIONS_SUFFIX : Js.str := Js.lit "-sessions".

Fixpoint find_candidate (st : store) (names : list Js.str)
    (sessionId : Js.str) : option path :=
  match names with
  | [] => None
  | entry :: rest =>
      if negb (Js.ends_with SESSIONS_SUFFIX entry) then
        find_candidate st rest sessionId
      else if isFile st (InProject entry sessionId) then
        Some (InProject entry sessionId)
      else find_candidate st rest sessionId
  end.

Definition readdirSync (st : store) : list Js.str :=
  match st with
  | None => []
  | Some d => Assoc.keys d
  end.

Definition resolveMetadataPath (st : store) (sessionId : Js.str)
  : result (option path) :=
  let* _ := validateSessionId sessionId in
  if isFile st (Flat sessionId) then Ok (Some (Flat sessionId))
  else
    match st with
    | None => Ok None
    | Some _ => Ok (find_candidate st (readdirSync st) sessionId)
    end.

(** *** Records *)

(** SessionMetadata, with the fields metadata.ts reads and writes: three
    required strings and six optional ones. *)
Record SessionMetadata := {
  worktree : Js.str;
  branch : Js.str;
  status : Js.str;
  issue : option Js.str;
  pr : option Js.str;
  summary : option Js.str;
  project : option Js.str;
  createdAt : option Js.str;
  runtimeHandle : option Js.str
}.

(** [a ?? b] *)
Definition nullish (a : option Js.str) (b : Js.str) : Js.str :=
  match a with Some v => v | None => b end.

Definition record_of_raw (raw : Obj.t Js.str) : SessionMetadata :=
  {| worktree := nullish (Assoc.get (Js.lit "worktree") raw) [];
     branch := nullish (Assoc.get (Js.lit "branch") raw) [];
     status := nullish (Assoc.get (Js.lit "status") raw) (Js.lit "unknown");
     issue := Assoc.get (Js.lit "issue") raw;
     pr := Assoc.get (Js.lit "pr") raw;
     summary := Assoc.get (Js.lit "summary") raw;
     project := Assoc.get (Js.lit "project") raw;
     createdAt := Assoc.get (Js.lit "createdAt") raw;
     runtimeHandle := Assoc.get (Js.lit "runtimeHandle") raw |}.

Definition readMetadata (st : store) (sessionId : Js.str)
  : result (option SessionMetadata) :=
  let* path := resolveMetadataPath st sessionId in
  match path with
  | None => Ok None
  | Some p =>
      let* content := readFileSync st p in
      Ok (Some (record_of_raw (parseMetadataFile content)))
  end.

Definition readMetadataRaw (st : store) (sessionId : Js.str)
  : result (option (Obj.t Js.str)) :=
  let* path := resolveMetadataPath st sessionId in
  match path with
  | None => Ok None
  | Some p =>
      let* content := readFileSync st p in
      Ok (Some (parseMetadataFile content))
  end.

(** [if (m.f) data["f"] = m.f]: undefined and the empty string are both
    falsy. *)
Definition set_if_truthy (k : Js.str) (v : option Js.str)
    (data : Obj.t Js.str) : Obj.t Js.str :=
  match v with
  | Some (c :: s) => Obj.set k (c :: s) data
  | _ => data
  end.

Definition data_of_record (metadata : SessionMetadata) : Obj.t Js.str :=
  let data := [ (Js.lit "worktree", worktree metadata);
                (Js.lit "branch", branch metadata);
                (Js.lit "status", status metadata) ] in
  let data := set_if_truthy (Js.lit "issue") (issue metadata) data in
  let data := set_if_truthy (Js.lit "pr") (pr metadata) data in
  let data := set_if_truthy (Js.lit "summary") (summary metadata) data in
  let data := set_if_truthy (Js.lit "project") (project metadata) data in
  let data := set_if_truthy (Js.lit "createdAt") (createdAt metadata) data in
  set_if_truthy (Js.lit "runtimeHandle") (runtimeHandle metadata) data.

Definition writeMetadata (st : store) (sessionId : Js.str)
    (metadata : SessionMetadata) : result store :=
  let* path := metadataPath sessionId in
  let* st1 := mkdirParent st path in
  writeFileSync st1 path (serializeMetadata (data_of_record metadata)).

(** One turn of the merge loop of updateMetadata. *)
Definition merge_entry (existing : Obj.t Js.str)
    (kv : Js.str * option Js.str) : Obj.t Js.str :=
  match snd kv with
  | None => existing
  | Some [] => Obj.rest_without (fst kv) existing
  | Some value => Obj.set (fst kv) value existing
  end.

Definition updateMetadata (st : store) (sessionId : Js.str)
    (updates : Obj.t (option Js.str)) : result store :=
  let* found := resolveMetadataPath st sessionId in
  let* path := match found with
               | Some p => Ok p
               | None => metadataPath sessionId
               end in
  let* existing :=
    if existsSync st path then
      let* content := readFileSync st path in
      Ok (parseMetadataFile content)
    else Ok [] in
  let merged := fold_left merge_entry (Obj.entries updates) existing in
  let* st1 := mkdirParent st path in
  writeFileSync st1 path (serializeMetadata merged).

(** *** Listing *)

Definition ARCHIVE : Js.str := Js.lit "archive".

Definition mem (x : Js.str) (seen : list Js.str) : bool :=
  existsb (Js.eqb x) seen.

(** seen.add(x) on a Set, which keeps insertion order. *)
Definition set_add (x : Js.str) (seen : list Js.str) : list Js.str :=
  if mem x seen then seen else seen ++ [x].

Definition skipped (name : Js.str) : bool :=
  Js.eqb name ARCHIVE || Js.starts_with [Js.DOT] name.

Definition scan_project (ch : Assoc.t node) (seen : list Js.str)
    (entry : Js.str) : list Js.str :=
  if skipped entry then seen
  else if negb (Js.VALID_SESSION_ID entry) then seen
  else match Assoc.get entry ch with
       | Some (File _) => set_add entry seen
       | _ => seen
       end.

Definition scan_entry (d : Assoc.t entry) (seen : list Js.str)
    (name : Js.str) : list Js.str :=
  if skipped name then seen
  else match Assoc.get name d with
       | Some (EFile _) =>
           if Js.VALID_SESSION_ID name then set_add name seen else seen
       | Some (EDir ch) =>
           if Js.ends_with SESSIONS_SUFFIX name
           then fold_left (scan_project ch) (Assoc.keys ch) seen
           else seen
       | None => seen
       end.

Definition listMetadata (st : store) : list Js.str :=
  match st with
  | None => []
  | Some d => fold_left (scan_entry d) (Assoc.keys d) []
  end.

(** *** Reservation *)

Definition reserveSessionId (st : store) (sessionId : Js.str)
  : result (bool * store) :=
  let* path := metadataPath sessionId in
  let* st1 := mkdirParent st path in
  Ok (openExcl st1 sessionId).

(** Callers racing on one identifier. Each caller runs mkdirSync and then
    the exclusive open; the file system serialises the individual calls,
    in an order the schedule gives. *)
Inductive pc :=
  | AtMkdir
  | AtOpen
  | Returned (r : bool).

Definition caller_step (sessionId : Js.str) (st : store) (p : pc)
  : store * pc :=
  match p with
  | AtMkdir =>
      match mkdirParent st (Flat sessionId) with
      | Ok st1 => (st1, AtOpen)
      | Throw _ => (st, AtMkdir)
      end
  | AtOpen =>
      let '(r, st1) := openExcl st sessionId in (st1, Returned r)
  | Returned r => (st, Returned r)
  end.

Fixpoint set_nth {A} (i : nat) (x : A) (l : list A) : list A :=
  match l, i with
  | [], _ => []
  | _ :: l', 0 => x :: l'
  | y :: l', S i' => y :: set_nth i' x l'
  end.

Definition sched_step (sessionId : Js.str) (s : store * list pc) (i : nat)
  : store * list pc :=
  match nth_error (snd s) i with
  | None => s
  | Some p =>
      let '(st1, p1) := caller_step sessionId (fst s) p in
      (st1, set_nth i p1 (snd s))
  end.

Definition run_schedule (sessionId : Js.str) (sched : list nat)
    (s : store * list pc) : store * list pc :=
  fold_left (sched_step sessionId) sched s.

Definition returned (p : pc) : bool :=
  match p with Returned _ => true | _ => false end.

Definition won (p : pc) : bool :=
  match p with Returned true => true | _ => false end.

(** *** Deleting and archiving *)

(** unlinkSync(p) *)
Definition unlinkSync (st : store) (p : path) : result store :=
  match st, p with
  | None, _ => Throw (SystemError "ENOENT")
  | Some d, Flat id =>
      match Assoc.get id d with
      | Some (EFile _) => Ok (Some (Assoc.remove id d))
      | Some (EDir _) => Throw (SystemError "EISDIR")
      | None => Throw (SystemError "ENOENT")
      end
  | Some d, InProject dir id =>
      match Assoc.get dir d with
      | Some (EDir ch) =>
          match Assoc.get id ch with
          | Some (File _) =>
              Ok (Some (Assoc.put dir (EDir (Assoc.remove id ch)) d))
          | Some Dir => Throw (SystemError "EISDIR")
          | None => Throw (SystemError "ENOENT")
          end
      | Some (EFile _) => Throw (SystemError "ENOTDIR")
      | None => Throw (SystemError "ENOENT")
      end
  end.

Definition COLON : N := 58.
Definition HYPHEN : N := 45.
Definition UNDERSCORE : N := 95.

(** s.replace(/[:.]/g, "-") *)
Definition dashed (s : Js.str) : Js.str :=
  map (fun c => if N.eqb c COLON || N.eqb c Js.DOT then HYPHEN else c) s.

(** `${sessionId}_${timestamp}`, where [now] is new Date().toISOString() *)
Definition archiveName (sessionId now : Js.str) : Js.str :=
  sessionId ++ UNDERSCORE :: dashed now.

(** join(archiveDir, `${sessionId}_${timestamp}`) *)
Definition archivePath (sessionId now : Js.str) : path :=
  InProject ARCHIVE (archiveName sessionId now).

(** deleteMetadata(dataDir, sessionId, archive); the directory made by
    mkdirSync(archiveDir, { recursive: true }) is the parent of the archive
    path. *)
Definition deleteMetadata (st : store) (sessionId : Js.str) (archive : bool)
    (now : Js.str) : result store :=
  let* found := resolveMetadataPath st sessionId in
  match found with
  | None => Ok st
  | Some path =>
      let* st1 :=
        if archive then
          let* st0 := mkdirParent st (archivePath sessionId now) in
          let* content := readFileSync st0 path in
          writeFileSync st0 (archivePath sessionId now) content
        else Ok st in
      unlinkSync st1 path
  end.

End Metadata.

(* ===================================================================== *)
(** ** Child processes and timers

    The runtime plugin and the CLI act on the outside world by running
    tmux, sleeping and touching a temporary file. What they do is recorded
    in a trace; what tmux answers is given by the environment, call by
    call, so that any behaviour of the pane can be described. *)

Module Proc.

Inductive event :=
  | ETmux (args : list Js.str)            (* execFile("tmux", args) *)
  | ESleep (ms : N)                       (* await sleep(ms) *)
  | EWriteFile (path content : Js.str)    (* writeFileSync(path, content) *)
  | EUnlink (path : Js.str).              (* unlinkSync(path) *)

Record env := {
  (** stdout of the n-th child process, [None] when execFile rejects *)
  reply : nat -> list Js.str -> option Js.str;
  (** randomUUID() *)
  uuid : Js.str;
  (** tmpdir() *)
  tmpdir : Js.str
}.

Record world := {
  calls : nat;             (* child processes started so far *)
  trace : list event       (* what was done, oldest first *)
}.

Definition M (A : Type) : Type := world -> result A * world.

Definition ret {A} (a : A) : M A := fun w => (Ok a, w).

Definition throw {A} (e : error) : M A := fun w => (Throw e, w).

Definition bind {A B} (m : M A) (k : A -> M B) : M B :=
  fun w =>
    match m w with
    | (Ok a, w1) => k a w1
    | (Throw e, w1) => (Throw e, w1)
    end.

(** try { m } catch { h } *)
Definition catch {A} (m : M A) (h : M A) : M A :=
  fun w =>
    match m w with
    | (Ok a, w1) => (Ok a, w1)
    | (Throw _, w1) => h w1
    end.

(** try { m } finally { f } *)
Definition finally {A} (m : M A) (f : M unit) : M A :=
  fun w =>
    match m w with
    | (r, w1) =>
        match f w1 with
        | (Ok _, w2) => (r, w2)
        | (Throw e, w2) => (Throw e, w2)
        end
    end.

Definition emit (e : event) : M unit :=
  fun w => (Ok tt, {| calls := calls w; trace := trace w ++ [e] |}).

Definition sleep (ms : N) : M unit := emit (ESleep ms).

(** execFileAsync("tmux", args), with stdout as it is. *)
Definition execTmux (E : env) (args : list Js.str) : M Js.str :=
  fun w =>
    let w1 := {| calls := S (calls w); trace := trace w ++ [ETmux args] |} in
    match reply E (calls w) args with
    | Some stdout => (Ok stdout, w1)
    | None => (Throw (SystemError "tmux"), w1)
    end.

End Proc.

Notation "x <- m ;; k" := (Proc.bind m (fun x => k))
  (at level 61, m at next level, right associativity).
Notation "m ;;; k" := (Proc.bind m (fun _ => k))
  (at level 61, right associativity).

(* ===================================================================== *)
(** ** packages/plugins/runtime-tmux/src/index.ts *)

Module Tmux.
Import Proc.

Section Runtime.
Variable E : env.

(** tmux(...args): stdout.trimEnd() *)
Definition tmux (args : list Js.str) : M Js.str :=
  stdout <- execTmux E args ;; ret (Js.rtrim stdout).

Definition PROMPT : N := 10095.         (* U+276F *)
Definition DOLLAR : N := 36.            (* $ *)
Definition PLAY : N := 9205.            (* U+23F5 *)

Definition has_unit (c : N) (s : Js.str) : bool := existsb (N.eqb c) s.

(** The regular expression of isBusy, prompt or dollar, two play signs, or
    the words "bypass permissions", tested anywhere in the line. *)
Definition idle_indicator (lastLine : Js.str) : bool :=
  has_unit PROMPT lastLine || has_unit DOLLAR lastLine
  || Js.includes [PLAY; PLAY] lastLine
  || Js.includes (Js.lit "bypass permissions") lastLine.

Definition nonblank (l : Js.str) : bool :=
  match Js.trim l with [] => false | _ => true end.

(** The body of the try of isBusy, after the pane was captured. *)
Definition busy_of_output (output : Js.str) : bool :=
  let lines := filter nonblank (Js.split_nl output) in
  let lastLine := last lines [] in
  if idle_indicator lastLine then false
  else if Js.includes (Js.lit "esc to interrupt") output then true
  else true.

Definition capture_args (sessionName : Js.str) (lines : Js.str)
  : list Js.str :=
  [Js.lit "capture-pane"; Js.lit "-t"; sessionName; Js.lit "-p";
   Js.lit "-S"; lines].

Definition isBusy (sessionName : Js.str) : M bool :=
  catch
    (output <- tmux (capture_args sessionName (Js.lit "-5")) ;;
     ret (busy_of_output output))
    (ret false).

Definition maxWait : nat := 60.
Definition pollInterval : nat := 2.

(** The for loop of sendMessage, from the value [waited] on. [None] is
    returned when [fuel] runs out, which [maxWait] turns of fuel never
    do. *)
Fixpoint wait_for_idle (fuel : nat) (id : Js.str) (waited : nat)
    (busy : bool) : M (option bool) :=
  if negb (waited <? maxWait) then ret (Some busy)
  else
    match fuel with
    | 0 => ret None
    | S fuel' =>
        busy' <- isBusy id ;;
        if negb busy' then ret (Some busy')
        else
          sleep (N.of_nat pollInterval * 1000) ;;;
          wait_for_idle fuel' id (waited + pollInterval) busy'
    end.

Definition send_keys (id key : Js.str) : list Js.str :=
  [Js.lit "send-keys"; Js.lit "-t"; id; key].

(** join(tmpdir(), `ao-send-${randomUUID()}.txt`) *)
Definition tmpPath : Js.str :=
  tmpdir E ++ Js.lit "/ao-send-" ++ uuid E ++ Js.lit ".txt".

Definition is_long (message : Js.str) : bool :=
  Js.includes [Js.NL] message || (200 <? List.length message).

Definition inject (id message : Js.str) : M unit :=
  if is_long message then
    emit (EWriteFile tmpPath message) ;;;
    finally
      (tmux [Js.lit "load-buffer"; tmpPath] ;;;
       tmux [Js.lit "paste-buffer"; Js.lit "-t"; id] ;;;
       ret tt)
      (emit (EUnlink tmpPath))
  else
    tmux (send_keys id message) ;;; ret tt.

Definition DASH : N := 8212.            (* U+2014 *)

Definition busy_message (id : Js.str) : Js.str :=
  Js.lit "Session " ++ id ++ Js.lit " was still busy after 60s "
  ++ [DASH] ++ Js.lit " message sent but may be lost".

(** The statements of sendMessage that follow the loop. *)
Definition deliver (id message : Js.str) (sentWhileBusy : bool)
  : M (option unit) :=
  tmux (send_keys id (Js.lit "C-u")) ;;;
  sleep 200 ;;;
  inject id message ;;;
  sleep 300 ;;;
  tmux (send_keys id (Js.lit "Enter")) ;;;
  if sentWhileBusy then throw (Error (busy_message id))
  else ret (Some tt).

Definition sendMessage (fuel : nat) (id message : Js.str)
  : M (option unit) :=
  waited <- wait_for_idle fuel id 0 false ;;
  match waited with
  | None => ret None
  | Some busy => deliver id message busy
  end.

End Runtime.
End Tmux.

(* ===================================================================== *)
(** ** The other methods of the tmux runtime *)

Module TmuxRuntime.
Import Proc.

(** String(n) for a natural number below 10^21 *)
Definition digits (n : N) : Js.str :=
  Js.lit (NilZero.string_of_uint (N.to_uint n)).

Record RuntimeCreateConfig := {
  sessionId : Js.str;
  workspacePath : Js.str;
  launchCommand : Js.str;
  environment : option (Obj.t Js.str)
}.

Record RuntimeHandle := {
  id : Js.str;
  runtimeName : Js.str;
  createdAt : N;                        (* data.createdAt *)
  dataWorkspacePath : Js.str            (* data.workspacePath *)
}.

Definition QUOTE : N := 34.

(** `${SAFE_SESSION_ID}`: the source of the regular expression between
    slashes. *)
Definition SAFE_SESSION_ID_TEXT : Js.str := Js.lit "/^[a-zA-Z0-9_-]+$/".

Definition unsafe_message (sessionId : Js.str) : Js.str :=
  Js.lit "Invalid session ID " ++ [QUOTE] ++ sessionId ++ [QUOTE]
  ++ Js.lit ": must match " ++ SAFE_SESSION_ID_TEXT.

(** SAFE_SESSION_ID is the expression that metadata.ts calls
    VALID_SESSION_ID. *)
Definition assertValidSessionId (sessionId : Js.str) : M unit :=
  if Js.VALID_SESSION_ID sessionId then ret tt
  else throw (Error (unsafe_message sessionId)).

(** The loop that pushes "-e" and `${key}=${value}` for each entry of
    config.environment ?? {}. *)
Definition envArgs (environment : option (Obj.t Js.str)) : list Js.str :=
  flat_map (fun kv => [Js.lit "-e"; fst kv ++ Js.EQ :: snd kv])
    (Obj.entries (match environment with Some e => e | None => [] end)).

Definition new_session_args (config : RuntimeCreateConfig) : list Js.str :=
  [Js.lit "new-session"; Js.lit "-d"; Js.lit "-s"; sessionId config;
   Js.lit "-c"; workspacePath config] ++ envArgs (environment config).

Definition launch_args (config : RuntimeCreateConfig) : list Js.str :=
  [Js.lit "send-keys"; Js.lit "-t"; sessionId config; launchCommand config;
   Js.lit "Enter"].

Section Runtime.
Variable E : env.

(** create(config); [now] is what Date.now() gives when the handle is
    built. *)
Definition create (now : N) (config : RuntimeCreateConfig) : M RuntimeHandle :=
  assertValidSessionId (sessionId config) ;;;
  Tmux.tmux E (new_session_args config) ;;;
  Tmux.tmux E (launch_args config) ;;;
  ret {| id := sessionId config;
         runtimeName := Js.lit "tmux";
         createdAt := now;
         dataWorkspacePath := workspacePath config |}.

Definition destroy (handle : RuntimeHandle) : M unit :=
  catch
    (Tmux.tmux E [Js.lit "kill-session"; Js.lit "-t"; id handle] ;;; ret tt)
    (ret tt).

(** getOutput(handle, lines), [lines] a natural number (50 by default) *)
Definition getOutput (handle : RuntimeHandle) (lines : N) : M Js.str :=
  catch
    (Tmux.tmux E (Tmux.capture_args (id handle) (Js.lit "-" ++ digits lines)))
    (ret []).

Definition isAlive (handle : RuntimeHandle) : M bool :=
  catch
    (Tmux.tmux E [Js.lit "has-session"; Js.lit "-t"; id handle] ;;; ret true)
    (ret false).

End Runtime.
End TmuxRuntime.

(* ===================================================================== *)
(** ** The delivery check of `ao send` (packages/cli/src/commands/send.ts) *)

Module Send.
Import Proc.

Inductive activity := Active | Idle | WaitingInput | Blocked | Exited.

Inductive verdict := Processing | Queued | Unconfirmed.

Section Verify.
Variable E : env.
(** agent.detectActivity, which the agent plugin of the session gives. *)
Variable detectActivity : Js.str -> activity.

(** exec("tmux", args): rejects when tmux fails; stdout is trimmed. *)
Definition exec_tmux (args : list Js.str) : M Js.str :=
  stdout <- execTmux E args ;; ret (Js.rtrim stdout).

(** tmux(...args) of lib/shell.ts: null when tmux fails. *)
Definition tmux (args : list Js.str) : M (option Js.str) :=
  catch (stdout <- exec_tmux args ;; ret (Some stdout)) (ret None).

Definition isActive (terminalOutput : Js.str) : bool :=
  match detectActivity terminalOutput with
  | Active => true
  | _ => false
  end.

Definition hasQueuedMessage (terminalOutput : Js.str) : bool :=
  Js.includes (Js.lit "Press up to edit queued messages") terminalOutput.

(** captureOutput(lines): the output, or the empty string for null. *)
Definition captureOutput (target : Js.str) (lines : Js.str) : M Js.str :=
  output <- tmux (Tmux.capture_args target lines) ;;
  ret match output with
      | Some (c :: s) => c :: s
      | _ => []
      end.

(** The loop [for (attempt = 1; attempt <= 3; attempt++)]; [None] when
    [fuel] runs out. *)
Fixpoint verify_loop (fuel : nat) (target : Js.str) (attempt : nat)
  : M (option verdict) :=
  if negb (attempt <=? 3) then ret (Some Unconfirmed)
  else
    match fuel with
    | 0 => ret None
    | S fuel' =>
        sleep 2000 ;;;
        output <- captureOutput target (Js.lit "-10") ;;
        if isActive output then ret (Some Processing)
        else if hasQueuedMessage output then ret (Some Queued)
        else
          (if attempt <? 3 then
             tmux (Tmux.send_keys target (Js.lit "Enter")) ;;;
             sleep 1000
           else ret tt) ;;;
          verify_loop fuel' target (attempt + 1)
    end.

(** From the terminating keystroke to the end of the action. *)
Definition send_and_verify (fuel : nat) (target : Js.str)
  : M (option verdict) :=
  sleep 300 ;;;
  exec_tmux (Tmux.send_keys target (Js.lit "Enter")) ;;;
  verify_loop fuel target 1.

End Verify.

(** detectActivity of the Codex agent plugin. *)
Definition codex_detectActivity (terminalOutput : Js.str) : activity :=
  match Js.trim terminalOutput with
  | [] => Idle
  | _ => Active
  end.

End Send.

(* ===================================================================== *)
(** ** The orchestrator step of `ao start` (packages/cli/src/commands/start.ts) *)

Module Start.

(** What the command reads of a Session. *)
Record Session := {
  id : Js.str;
  status : Js.str;
  runtimeHandle : option Js.str        (* runtimeHandle?.id *)
}.

(** What the command reads of its project and options. [sessionPrefix] is
    a string: loadConfig has filled it in. *)
Record Project := {
  name : Js.str;
  sessionPrefix : Js.str
}.

Record Opts := {
  orchestrator : bool;                 (* false for --no-orchestrator *)
  prompt : option Js.str               (* --prompt <text> *)
}.

(** Calls that reach the session manager and the dashboard process. *)
Inductive call :=
  | Get (sessionId : Js.str)
  | SpawnOrchestrator (projectId systemPrompt : Js.str)
      (initialPrompt : option Js.str)
  | KillDashboard.

(** A value used as a condition. *)
Definition truthy (v : option Js.str) : bool :=
  match v with
  | Some (_ :: _) => true
  | _ => false
  end.

Definition or_empty (v : option Js.str) : Js.str :=
  match v with Some s => s | None => [] end.

Definition QUOTE : N := 34.

(** err instanceof Error ? err.message : String(err) *)
Definition message_of (e : error) : Js.str :=
  match e with
  | Error m => m
  | SystemError code => Js.lit code
  end.

Definition orchestratorId (project : Project) : Js.str :=
  sessionPrefix project ++ Js.lit "-orchestrator".

Definition conflict_message (sessionId : Js.str) (projectArg : option Js.str)
  : Js.str :=
  Js.lit "Orchestrator session " ++ [QUOTE] ++ sessionId ++ [QUOTE]
  ++ Js.lit " is already running." ++ [Js.NL]
  ++ Js.lit "To start with a new prompt, stop the existing session first:"
  ++ [Js.NL]
  ++ Js.lit "  ao stop " ++ or_empty projectArg ++ [Js.NL]
  ++ Js.lit "  ao start " ++ or_empty projectArg
  ++ Js.lit " --prompt " ++ [QUOTE] ++ Js.lit "..." ++ [QUOTE].

Section Command.

(** The session manager is not among the sources: its state and its two
    operations are parameters, and so is the prompt generator. *)
Variable SM : Type.
Variable sm_get : SM -> Js.str -> result (option Session) * SM.
Variable sm_spawnOrchestrator :
  SM -> Js.str -> Js.str -> option Js.str -> result Session * SM.
Variable generateOrchestratorPrompt : Js.str -> option Js.str -> Js.str.

(** existing !== null && !TERMINAL_STATUSES.has(existing.status) *)
Definition live (existing : option Session) : bool :=
  match existing with
  | Some s => negb (Types.is_terminal (status s))
  | None => false
  end.

Definition target_of (s : Session) (fallback : Js.str) : Js.str :=
  match runtimeHandle s with
  | Some (c :: r) => c :: r
  | _ => fallback
  end.

(** What the step leaves in the variables of the action: [exists] (a
    keyword here, hence the underscore) and the tmux target for the attach
    hint. *)
Record outcome := {
  exists_ : bool;
  tmuxTarget : Js.str
}.

(** "Create orchestrator session (unless --no-orchestrator or already
    exists)": the block of the action that starts at [let tmuxTarget]. It
    gives the outcome or the error thrown, the session manager afterwards
    and the calls made. An error leaves the try of the action, which
    prints it and exits with status 1. *)
Definition startOrchestrator (sm : SM) (projectArg : option Js.str)
    (projectId : Js.str) (project : Project) (opts : Opts)
    (dashboardProcess : bool) : result outcome * SM * list call :=
  let sessionId := orchestratorId project in
  if negb (orchestrator opts) then
    (Ok {| exists_ := false; tmuxTarget := sessionId |}, sm, [])
  else
    match sm_get sm sessionId with
    | (Throw e, sm1) => (Throw e, sm1, [Get sessionId])
    | (Ok existing, sm1) =>
        let exists' := live existing in
        if exists' && truthy (prompt opts) then
          (Throw (Error (conflict_message sessionId projectArg)),
           sm1, [Get sessionId])
        else if exists' then
          (Ok {| exists_ := true;
                 tmuxTarget := match existing with
                               | Some s => target_of s sessionId
                               | None => sessionId
                               end |},
           sm1, [Get sessionId])
        else
          let systemPrompt :=
            generateOrchestratorPrompt projectId (prompt opts) in
          let initialPrompt :=
            if truthy (prompt opts)
            then Some (Js.lit "Start building. Follow your system prompt.")
            else None in
          let spawn := SpawnOrchestrator projectId systemPrompt initialPrompt in
          match sm_spawnOrchestrator sm1 projectId systemPrompt initialPrompt with
          | (Ok session, sm2) =>
              (Ok {| exists_ := false;
                     tmuxTarget := target_of session sessionId |},
               sm2, [Get sessionId; spawn])
          | (Throw err, sm2) =>
              let log := [Get sessionId; spawn]
                         ++ (if dashboardProcess then [KillDashboard] else []) in
              (Throw (Error (Js.lit "Failed to setup orchestrator: "
                             ++ message_of err)), sm2, log)
          end
    end.

(** The status the process ends with when the step is all that can go
    wrong: the catch of the action calls process.exit(1). *)
Definition exit_status (r : result outcome) : nat :=
  match r with
  | Ok _ => 0
  | Throw _ => 1
  end.

End Command.
End Start.

(* ===================================================================== *)
(** ** resolveProject of `ao start` and `ao stop` *)

Module Projects.

(** The names Object.prototype defines: a lookup by one of them on a
    plain object that has no such own property gives a function or an
    object, never undefined. *)
Definition OBJECT_PROTOTYPE : list Js.str :=
  map Js.lit
    [ "constructor"; "__defineGetter__"; "__defineSetter__"; "hasOwnProperty";
      "__lookupGetter__"; "__lookupSetter__"; "isPrototypeOf";
      "propertyIsEnumerable"; "toString"; "valueOf"; "__proto__";
      "toLocaleString" ]%string.

(** The value of config.projects[name]. *)
Inductive project_value :=
  | Configured (project : Start.Project)     (* an entry of the configuration *)
  | Builtin                                  (* a member of Object.prototype *)
  | Missing.                                 (* undefined *)

Definition lookup (projects : Obj.t Start.Project) (name : Js.str)
  : project_value :=
  match Assoc.get name projects with
  | Some project => Configured project
  | None =>
      if existsb (Js.eqb name) OBJECT_PROTOTYPE then Builtin else Missing
  end.

(** xs.join(sep) *)
Fixpoint join (sep : Js.str) (xs : list Js.str) : Js.str :=
  match xs with
  | [] => []
  | [x] => x
  | x :: xs' => x ++ sep ++ join sep xs'
  end.

Definition NO_PROJECTS : Js.str :=
  Js.lit "No projects configured. Add a project to agent-orchestrator.yaml.".

Definition not_found_message (projectArg : Js.str) (projectIds : list Js.str)
  : Js.str :=
  Js.lit "Project " ++ [Start.QUOTE] ++ projectArg ++ [Start.QUOTE]
  ++ Js.lit " not found. Available projects:" ++ [Js.NL] ++ Js.lit "  "
  ++ join (Js.lit ", ") projectIds.

Definition several_message (projectIds : list Js.str) : Js.str :=
  Js.lit "Multiple projects configured. Specify which one to start:"
  ++ [Js.NL] ++ Js.lit "  "
  ++ join (Js.NL :: Js.lit "  ")
       (map (fun id => Js.lit "ao start " ++ id) projectIds).

(** resolveProject(config, projectArg), as a function of config.projects *)
Definition resolveProject (projects : Obj.t Start.Project)
    (projectArg : option Js.str) : result (Js.str * project_value) :=
  let projectIds := Assoc.keys (Obj.entries projects) in
  match projectIds with
  | [] => Throw (Error NO_PROJECTS)
  | first :: others =>
      if Start.truthy projectArg then
        let arg := Start.or_empty projectArg in
        match lookup projects arg with
        | Missing => Throw (Error (not_found_message arg projectIds))
        | project => Ok (arg, project)
        end
      else
        match others with
        | [] => Ok (first, lookup projects first)
        | _ => Throw (Error (several_message projectIds))
        end
  end.

End Projects.

(* ===================================================================== *)
(** ** packages/cli/src/lib/web-dir.ts: looking for free ports *)

Module WebDir.

(** The values of a loop counter that runs from 0 to n - 1. *)
Definition counter (n : nat) : list N := map N.of_nat (seq 0 n).

Definition EN_DASH : N := 8211.             (* U+2013 *)

Definition no_port_message (preferred : N) : Js.str :=
  Js.lit "No available port in range " ++ TmuxRuntime.digits preferred
  ++ [EN_DASH] ++ TmuxRuntime.digits (preferred + 10)%N ++ Js.lit ". "
  ++ Js.lit "Free a port or set a different port in agent-orchestrator.yaml.".

Definition MAX_ATTEMPTS : nat := 50.

Definition MAX_PORT : N := 65535.

Section Ports.
(** Whether a server can listen on the port, for a port up to 65535. A
    scan asks about each port once. *)
Variable isPortAvailable : N -> bool.

(** await isPortAvailable(port): server.listen(port) throws a RangeError
    (ERR_SOCKET_BAD_PORT) for a port above 65535; thrown in the executor
    of the promise, it rejects the promise, and the await throws it. *)
Definition probe (port : N) : result bool :=
  if (port <=? MAX_PORT)%N then Ok (isPortAvailable port)
  else Throw (SystemError "ERR_SOCKET_BAD_PORT").

(** The turns of the loop of findAvailableDashboardPort for the offsets
    given; [None] when the loop runs to its end. *)
Fixpoint scan (preferred : N) (offsets : list N) : result (option N) :=
  match offsets with
  | [] => Ok None
  | offset :: rest =>
      let port := (preferred + offset)%N in
      let* free := probe port in
      if free then Ok (Some port) else scan preferred rest
  end.

(** for (offset = 0; offset <= 10; offset++), leaving the loop at the
    first free port *)
Definition findAvailableDashboardPort (preferred : N) : result N :=
  let* found := scan preferred (counter 11) in
  match found with
  | Some port => Ok port
  | None => Throw (Error (no_port_message preferred))
  end.

(** for (i = 0; i < MAX_ATTEMPTS; i++), leaving the loop at the first
    pair of free ports. The one call in the file passes the base 14800,
    so that no port asked about is above 14899 and the oracle is asked
    directly. *)
Definition findAvailablePortPair (base : N) : N * N :=
  match find (fun i => isPortAvailable (base + i * 2)%N
                       && isPortAvailable (base + i * 2 + 1)%N)
          (counter MAX_ATTEMPTS)
  with
  | Some i => ((base + i * 2)%N, (base + i * 2 + 1)%N)
  | None => (base, (base + 1)%N)
  end.

End Ports.
End WebDir.

(* ===================================================================== *)
(** ** packages/cli/src/lib/git-utils.ts *)

Module GitUtils.

Definition ORIGIN : Js.str := Js.lit "refs/remotes/origin/".

(** ref.replace(/^refs\/remotes\/origin\//, empty): the prefix is dropped. *)
Definition strip_origin (ref : Js.str) : Js.str :=
  if Js.starts_with ORIGIN ref then skipn (List.length ORIGIN) ref else ref.

Definition symbolic_ref_args (projectPath : Js.str) : list Js.str :=
  [Js.lit "-C"; projectPath; Js.lit "symbolic-ref";
   Js.lit "refs/remotes/origin/HEAD"].

Definition rev_parse_args (projectPath : Js.str) : list Js.str :=
  [Js.lit "-C"; projectPath; Js.lit "rev-parse"; Js.lit "--abbrev-ref";
   Js.lit "HEAD"].

Section Git.
(** execFileAsync("git", args): stdout, or [None] when the call rejects *)
Variable git : list Js.str -> option Js.str.

Definition from_remote_head (projectPath : Js.str) : option Js.str :=
  match git (symbolic_ref_args projectPath) with
  | Some stdout =>
      let ref := Js.trim stdout in
      let branch := strip_origin ref in
      if Metadata.nonempty branch && negb (Js.eqb branch ref)
      then Some branch else None
  | None => None
  end.

Definition from_current_branch (projectPath : Js.str) : option Js.str :=
  match git (rev_parse_args projectPath) with
  | Some stdout =>
      let branch := Js.trim stdout in
      if Metadata.nonempty branch && negb (Js.eqb branch (Js.lit "HEAD"))
      then Some branch else None
  | None => None
  end.

Definition detectDefaultBranch (projectPath : Js.str) : Js.str :=
  match from_remote_head projectPath with
  | Some branch => branch
  | None =>
      match from_current_branch projectPath with
      | Some branch => branch
      | None => Js.lit "main"
      end
  end.

End Git.
End GitUtils.

(* ===================================================================== *)
(** ** The action of `ao send` (packages/cli/src/commands/send.ts) *)

Module SendCmd.
Import Proc.

Record Opts := {
  file : option Js.str;          (* --file <path> *)
  wait : bool;                   (* false for --no-wait *)
  timeoutMs : N                  (* the timeout of line 95, in milliseconds *)
}.

(** How the action ends: one of the three exits with status 1, or the
    message that the delivery check prints. *)
Inductive ending :=
  | NoSuchSession                (* "Session '...' does not exist" *)
  | NoMessage                    (* "No message provided" *)
  | CannotReadFile               (* "Cannot read file: ..." *)
  | Checked (v : Send.verdict).

Section Action.
Variable E : env.
(** agent.detectActivity of the agent resolveAgentForSession gives *)
Variable detectActivity : Js.str -> Send.activity.
(** Date.now() when [n] events have happened *)
Variable now : nat -> N.
(** readFileSync(path, "utf-8"): the content, or [None] when it throws *)
Variable readFile : Js.str -> option Js.str.

Definition date_now : M N :=
  fun w => (Ok (now (List.length (trace w))), w).

(** The while loop of the action; [None] when [fuel] runs out. *)
Fixpoint wait_while_active (fuel : nat) (target : Js.str)
    (start timeout : N) : M (option unit) :=
  match fuel with
  | 0 => ret None
  | S fuel' =>
      output <- Send.captureOutput E target (Js.lit "-5") ;;
      if Send.isActive detectActivity output then
        t <- date_now ;;
        if N.ltb timeout (t - start) then ret (Some tt)
        else
          sleep 5000 ;;;
          wait_while_active fuel' target start timeout
      else ret (Some tt)
  end.

(** join(tmpdir(), `ao-send-${Date.now()}.txt`) *)
Definition tmpFile (t : N) : Js.str :=
  tmpdir E ++ Js.lit "/ao-send-" ++ TmuxRuntime.digits t ++ Js.lit ".txt".

(** Writing the text to a temporary file and pasting it. *)
Definition paste (target content : Js.str) : M unit :=
  t <- date_now ;;
  emit (EWriteFile (tmpFile t) content) ;;;
  finally
    (Send.exec_tmux E [Js.lit "load-buffer"; tmpFile t] ;;;
     Send.exec_tmux E [Js.lit "paste-buffer"; Js.lit "-t"; target] ;;;
     ret tt)
    (emit (EUnlink (tmpFile t))).

Definition has_session_args (target : Js.str) : list Js.str :=
  [Js.lit "has-session"; Js.lit "-t"; target].

Definition literal_args (target msg : Js.str) : list Js.str :=
  [Js.lit "send-keys"; Js.lit "-t"; target; Js.lit "-l"; msg].

(** "Send the message": [false] when the file cannot be read. *)
Definition inject (target : Js.str) (opts : Opts) (msg : option Js.str)
  : M bool :=
  match file opts with
  | Some (c :: path) =>
      match readFile (c :: path) with
      | None => ret false
      | Some content => paste target content ;;; ret true
      end
  | _ =>
      match msg with
      | Some (c :: m) =>
          (if Tmux.is_long (c :: m) then paste target (c :: m)
           else Send.exec_tmux E (literal_args target (c :: m)) ;;; ret tt) ;;;
          ret true
      | _ => ret true
      end
  end.

(** The action, from the tmux target on; [None] when [fuel] runs out. *)
Definition action (fuel : nat) (tmuxTarget : Js.str)
    (messageParts : list Js.str) (opts : Opts) : M (option ending) :=
  exists' <- Send.tmux E (has_session_args tmuxTarget) ;;
  match exists' with
  | None => ret (Some NoSuchSession)
  | Some _ =>
      let msg := if Start.truthy (file opts) then None
                 else Some (Projects.join (Js.lit " ") messageParts) in
      if negb (Start.truthy (file opts)) && negb (Start.truthy msg)
      then ret (Some NoMessage)
      else
        waited <- (if wait opts then
                     start <- date_now ;;
                     wait_while_active fuel tmuxTarget start (timeoutMs opts)
                   else ret (Some tt)) ;;
        match waited with
        | None => ret None
        | Some _ =>
            Send.exec_tmux E (Tmux.send_keys tmuxTarget (Js.lit "C-u")) ;;;
            sleep 200 ;;;
            sent <- inject tmuxTarget opts msg ;;
            if sent then
              v <- Send.send_and_verify E detectActivity fuel tmuxTarget ;;
              ret (option_map Checked v)
            else ret (Some CannotReadFile)
        end
  end.

End Action.
End SendCmd.

(* ===================================================================== *)
(** ** One reconciliation tick *)

Module Lifecycle.

(** Modelled from the spec: the Lifecycle Manager (lifecycle-manager.ts)
    is not among the sources. A tick, in the words of section 4.3: filter
    out terminal sessions first; for each remaining session gather the
    signals, compute the candidate status by the precedence rules, compare
    it with the last tracked status and, if it changed, persist the new
    status, then dispatch the reaction of the transition. The signals and
    the precedence rules are parameters. *)

Record Session := {
  id : Js.str;
  status : Js.str
}.

Inductive action :=
  | Poll (sessionId : Js.str)
  | Persist (sessionId status : Js.str)
  | React (sessionId from to : Js.str).

Definition action_id (a : action) : Js.str :=
  match a with
  | Poll i => i
  | Persist i _ => i
  | React i _ _ => i
  end.

Section Tick.
Variable Signals : Type.
(** Signals gathered for a session at a tick. *)
Variable gather : nat -> Js.str -> Signals.
Variable determineStatus : Signals -> Js.str -> Js.str.

Definition tick_session (now : nat) (s : Session) : Session * list action :=
  if Types.is_terminal (status s) then (s, [])
  else
    let candidate := determineStatus (gather now (id s)) (status s) in
    if Js.eqb candidate (status s) then (s, [Poll (id s)])
    else
      ({| id := id s; status := candidate |},
       [Poll (id s); Persist (id s) candidate;
        React (id s) (status s) candidate]).

Definition tick (now : nat) (sessions : list Session)
  : list Session * list action :=
  let rs := map (tick_session now) sessions in
  (map fst rs, List.concat (map snd rs)).

(** [n] ticks in a row, the first at time [now]. *)
Fixpoint ticks (n now : nat) (sessions : list Session)
  : list Session * list action :=
  match n with
  | 0 => (sessions, [])
  | S n' =>
      let '(sessions1, log1) := tick now sessions in
      let '(sessions2, log2) := ticks n' (S now) sessions1 in
      (sessions2, log1 ++ log2)
  end.

End Tick.
End Lifecycle.

(* ===================================================================== *)
(** ** A session manager with one slot *)

Module OneSlot.

(** Modelled from the spec: the Session Manager (session-manager.ts) is
    not among the sources. This one keeps at most one session, enough to
    run `ao start`: [get] returns the session kept under the ID asked for,
    and [spawnOrchestrator] stores a session with the fixed ID
    "{prefix}-orchestrator" and status "spawning" ("persist metadata with
    status=spawning"), its runtime handle named after the ID. The project
    ID stands for the session prefix. *)

Definition SM := option Start.Session.

Definition get (sm : SM) (sessionId : Js.str)
  : result (option Start.Session) * SM :=
  (Ok match sm with
      | Some s => if Js.eqb (Start.id s) sessionId then Some s else None
      | None => None
      end, sm).

Definition spawnOrchestrator (sm : SM) (projectId systemPrompt : Js.str)
    (initialPrompt : option Js.str) : result Start.Session * SM :=
  let s := {| Start.id := projectId ++ Js.lit "-orchestrator";
              Start.status := Js.lit "spawning";
              Start.runtimeHandle := Some (projectId ++ Js.lit "-orchestrator") |}
  in (Ok s, Some s).

Definition prompt_text (projectId : Js.str) (prompt : option Js.str) : Js.str :=
  Js.lit "orchestrator of " ++ projectId.

Definition app : Start.Project :=
  {| Start.name := Js.lit "app"; Start.sessionPrefix := Js.lit "app" |}.

Definition no_prompt : Start.Opts :=
  {| Start.orchestrator := true; Start.prompt := None |}.

Definition with_prompt : Start.Opts :=
  {| Start.orchestrator := true;
     Start.prompt := Some (Js.lit "build a todo app") |}.

Definition running : Start.Session :=
  {| Start.id := Js.lit "app-orchestrator";
     Start.status := Js.lit "working";
     Start.runtimeHandle := Some (Js.lit "a1b2c3-app-orchestrator") |}.

Definition killed : Start.Session :=
  {| Start.id := Js.lit "app-orchestrator";
     Start.status := Js.lit "killed";
     Start.runtimeHandle := None |}.

Definition start (sm : SM) (opts : Start.Opts)
  : result Start.outcome * SM * list Start.call :=
  Start.startOrchestrator get spawnOrchestrator prompt_text sm None
    (Js.lit "app") app opts false.

(** Two tracked sessions, one of them merged, and precedence rules that
    always answer "ci_failed". *)
Definition fleet : list Lifecycle.Session :=
  [ {| Lifecycle.id := Js.lit "app-1"; Lifecycle.status := Js.lit "merged" |};
    {| Lifecycle.id := Js.lit "app-2"; Lifecycle.status := Js.lit "working" |} ].

Definition no_signals (now : nat) (sessionId : Js.str) : unit := tt.

Definition always_failing (sig : unit) (current : Js.str) : Js.str :=
  Js.lit "ci_failed".

(** A store whose only record is a killed orchestrator. *)
Definition killed_store : Metadata.store :=
  Some [ (Js.lit "app-orchestrator",
          Metadata.EFile (Js.lit "status=killed" ++ [Js.NL])) ].

End OneSlot.

(* ===================================================================== *)
(** ** Measures on traces *)

Module TraceStmt.
Import Proc.

(** A look at the pane. *)
Definition is_poll (e : event) : bool :=
  match e with
  | ETmux (cmd :: _) => Js.eqb cmd (Js.lit "capture-pane")
  | _ => false
  end.

Definition polls (evs : list event) : nat := List.length (filter is_poll evs).

(** Milliseconds slept. *)
Definition slept (evs : list event) : N :=
  fold_right (fun e acc => match e with ESleep ms => (ms + acc)%N | _ => acc end)
    0%N evs.

(** The terminating keystroke for [id]. *)
Definition is_enter (id : Js.str) (e : event) : bool :=
  match e with
  | ETmux [a; b; c; d] =>
      Js.eqb a (Js.lit "send-keys") && Js.eqb b (Js.lit "-t")
      && Js.eqb c id && Js.eqb d (Js.lit "Enter")
  | _ => false
  end.

Definition enters (id : Js.str) (evs : list event) : nat :=
  List.length (filter (is_enter id) evs).

(** Child processes started. *)
Definition tmux_count (evs : list event) : nat :=
  List.length (filter (fun e => match e with ETmux _ => true | _ => false end)
                 evs).

(** Started in [w], [m] does [evs] and ends with [r]. *)
Definition runs {A} (m : M A) (w : world) (evs : list event)
    (r : result A) : Prop :=
  m w = (r, {| calls := calls w + tmux_count evs; trace := trace w ++ evs |}).

(** The world after [evs]. *)
Definition after (w : world) (evs : list event) : world :=
  {| calls := calls w + tmux_count evs; trace := trace w ++ evs |}.

(** What [m] does and how it ends when it starts as the [c]-th child
    process is due. *)
Definition events_of {A} (m : M A) (c : nat) : list event :=
  trace (snd (m {| calls := c; trace := [] |})).

Definition result_of {A} (m : M A) (c : nat) : result A :=
  fst (m {| calls := c; trace := [] |}).

(** [m] only appends to the trace, and counts its child processes. *)
Definition framed {A} (m : M A) : Prop :=
  forall w, runs m w (events_of m (calls w)) (result_of m (calls w)).

(** The commands as tmux is given them, word by word: the look at the
    last five lines of the pane of [id], and the keys sent to it. *)
Definition look (id : Js.str) : list Js.str :=
  [ Js.lit "capture-pane"; Js.lit "-t"; id; Js.lit "-p"; Js.lit "-S";
    Js.lit "-5" ].

Definition key_args (id key : Js.str) : list Js.str :=
  [ Js.lit "send-keys"; Js.lit "-t"; id; key ].

(** The temporary file of a send: ao-send-, the random UUID and .txt, in
    the directory for temporary files. *)
Definition temp_file (E : env) : Js.str :=
  tmpdir E ++ Js.lit "/ao-send-" ++ uuid E ++ Js.lit ".txt".

(** The message holds a newline or is longer than 200 units. *)
Definition pasted (message : Js.str) : bool :=
  existsb (N.eqb Js.NL) message || (200 <? List.length message).

(** The pane reads as busy at the look that is the [k]-th call. *)
Definition busy_at (E : env) (id : Js.str) (k : nat) : Prop :=
  exists stdout,
    reply E k (look id) = Some stdout
    /\ Tmux.busy_of_output (Js.rtrim stdout) = true.

(** [m] rounds of looking at the pane and sleeping two seconds. *)
Fixpoint wait_trace (id : Js.str) (m : nat) : list event :=
  match m with
  | 0 => []
  | S m' => ETmux (look id) :: ESleep 2000 :: wait_trace id m'
  end.

(** The message reaches the pane through a paste buffer, loaded from the
    temporary file, which is removed afterwards, or as keys. *)
Definition inject_trace (E : env) (id message : Js.str) : list event :=
  if pasted message then
    [ EWriteFile (temp_file E) message;
      ETmux [Js.lit "load-buffer"; temp_file E];
      ETmux [Js.lit "paste-buffer"; Js.lit "-t"; id];
      EUnlink (temp_file E) ]
  else [ ETmux (key_args id message) ].

(** Clearing the input line, injecting the message, pressing Enter. *)
Definition deliver_trace (E : env) (id message : Js.str) : list event :=
  [ ETmux (key_args id (Js.lit "C-u")); ESleep 200 ]
  ++ inject_trace E id message
  ++ [ ESleep 300; ETmux (key_args id (Js.lit "Enter")) ].

(** The error of a send that found the pane busy to the end. *)
Definition still_busy (id : Js.str) : error :=
  Error (Js.lit "Session " ++ id ++ Js.lit " was still busy after 60s "
         ++ [8212%N] ++ Js.lit " message sent but may be lost").

(** The pane reads as busy at each of the [m] looks that follow [w]. *)
Definition busy_for (E : env) (id : Js.str) (w : world) (m : nat) : Prop :=
  forall i, i < m -> busy_at E id (calls w + i).

(** tmux answers every call from the [n]-th on. *)
Definition tmux_works_from (E : env) (n : nat) : Prop :=
  forall k args, n <= k -> reply E k args <> None.

(** A pane at a shell prompt, one that shows a spinner, and one that
    shows nothing. *)
Definition idle_env : env :=
  {| reply := fun _ _ => Some (Js.lit "$ ");
     uuid := Js.lit "0000"; tmpdir := Js.lit "/tmp" |}.

Definition busy_env : env :=
  {| reply := fun _ _ => Some (Js.lit "Thinking (esc to interrupt)");
     uuid := Js.lit "0000"; tmpdir := Js.lit "/tmp" |}.

Definition blank_env : env :=
  {| reply := fun _ _ => Some [];
     uuid := Js.lit "0000"; tmpdir := Js.lit "/tmp" |}.

Definition start_world : world := {| calls := 0; trace := [] |}.

End TraceStmt.

(* ===================================================================== *)
(** ** Predicates the statements use *)

Module Stmt.
Import Metadata.

Definition has_unit (c : N) (s : Js.str) : bool := existsb (N.eqb c) s.

(** A key that a line of the file can carry unchanged: not empty, no
    white space at either end, no = and no newline, not starting with #,
    and not the name the object model refuses. *)
Definition clean_key (k : Js.str) : bool :=
  nonempty k && Js.eqb (Js.trim k) k
  && negb (has_unit Js.EQ k) && negb (has_unit Js.NL k)
  && negb (Js.starts_with [Js.HASH] k) && negb (Js.eqb k Obj.PROTO).

(** A value that a line of the file can carry unchanged: no white space
    at either end and no newline. *)
Definition clean_value (v : Js.str) : bool :=
  Js.eqb (Js.trim v) v && negb (has_unit Js.NL v).

Definition clean_opt (v : option Js.str) : bool :=
  match v with
  | Some s => clean_value s
  | None => true
  end.

Definition clean_record (R : SessionMetadata) : bool :=
  clean_value (worktree R) && clean_value (branch R) && clean_value (status R)
  && clean_opt (issue R) && clean_opt (pr R) && clean_opt (summary R)
  && clean_opt (project R) && clean_opt (createdAt R)
  && clean_opt (runtimeHandle R).

(** A record of which every value is a well-formed string, so that the
    "utf-8" encoding stores it unchanged. *)
Definition well_formed_opt (v : option Js.str) : bool :=
  match v with
  | Some s => Js.isWellFormed s
  | None => true
  end.

Definition well_formed_record (R : SessionMetadata) : bool :=
  Js.isWellFormed (worktree R) && Js.isWellFormed (branch R)
  && Js.isWellFormed (status R)
  && well_formed_opt (issue R) && well_formed_opt (pr R)
  && well_formed_opt (summary R) && well_formed_opt (project R)
  && well_formed_opt (createdAt R) && well_formed_opt (runtimeHandle R).

(** An optional field as it comes back: absent when it was absent or
    empty. *)
Definition omit_empty (v : option Js.str) : option Js.str :=
  match v with
  | Some (c :: s) => Some (c :: s)
  | _ => None
  end.

(** What readMetadata gives after writeMetadata stored [R]. *)
Definition read_back (R : SessionMetadata) : SessionMetadata :=
  {| worktree := worktree R;
     branch := branch R;
     status := match status R with
               | [] => Js.lit "unknown"
               | s => s
               end;
     issue := omit_empty (issue R);
     pr := omit_empty (pr R);
     summary := omit_empty (summary R);
     project := omit_empty (project R);
     createdAt := omit_empty (createdAt R);
     runtimeHandle := omit_empty (runtimeHandle R) |}.

(** The fields of a record as a caller sees them: the three required
    ones are always there, the others may be undefined. *)
Definition fields (R : SessionMetadata) : list (option Js.str) :=
  [ Some (worktree R); Some (branch R); Some (status R);
    issue R; pr R; summary R; project R; createdAt R; runtimeHandle R ].

Definition opt_eqb (a b : option Js.str) : bool :=
  match a, b with
  | Some x, Some y => Js.eqb x y
  | None, None => true
  | _, _ => false
  end.

(** The round trip as the specification words it: a non-empty field
    comes back equal, an empty or missing one comes back absent. *)
Definition field_as_stated (w r : option Js.str) : bool :=
  match w with
  | Some (c :: s) => opt_eqb r (Some (c :: s))
  | _ => opt_eqb r None
  end.

Definition roundtrip_as_stated (R R' : SessionMetadata) : bool :=
  forallb (fun wr => field_as_stated (fst wr) (snd wr))
    (combine (fields R) (fields R')).

(** Nothing but a file may sit at the flat path when it is written. *)
Definition flat_writable (st : store) (sessionId : Js.str) : bool :=
  match st with
  | None => true
  | Some d =>
      match Assoc.get sessionId d with
      | Some (EDir _) => false
      | _ => true
      end
  end.

Definition clean_entry (kv : Js.str * Js.str) : Prop :=
  clean_key (fst kv) = true /\ clean_value (snd kv) = true.

Definition well_formed_entry (kv : Js.str * Js.str) : Prop :=
  Js.isWellFormed (fst kv) = true /\ Js.isWellFormed (snd kv) = true.

(** The entries of the data directory, none when it does not exist. *)
Definition dir_of (st : store) : Assoc.t entry :=
  match st with
  | None => []
  | Some d => d
  end.

(** The number of callers that got [true]. *)
Definition wins (pcs : list pc) : nat := List.length (filter won pcs).

(** What stays true while callers race for [id], when the flat path was
    free at the start. *)
Definition race_inv (id : Js.str) (s : store * list pc) : Prop :=
  wins (snd s) = (if existsSync (fst s) (Flat id) then 1 else 0) /\
  (forall p, In p (snd s) -> p <> AtMkdir -> fst s <> None) /\
  (forall r, In (Returned r) (snd s) -> existsSync (fst s) (Flat id) = true).

(** What stays true while callers race for an ID that the file system
    refuses. *)
Definition lost_inv (id : Js.str) (s : store * list pc) : Prop :=
  wins (snd s) = 0 /\ existsSync (fst s) (Flat id) = false.

(** The record of [id] is a flat file, or a file in some directory whose
    name ends with "-sessions". *)
Definition stored_flat (st : store) (id : Js.str) : Prop :=
  isFile st (Flat id) = true.

Definition stored_in_project (st : store) (id : Js.str) : Prop :=
  exists dir,
    Js.ends_with SESSIONS_SUFFIX dir = true /\
    isFile st (InProject dir id) = true.

(** The same, in a directory whose name does not start with a dot. *)
Definition stored_in_visible_project (st : store) (id : Js.str) : Prop :=
  exists dir,
    Js.starts_with [Js.DOT] dir = false /\
    Js.ends_with SESSIONS_SUFFIX dir = true /\
    isFile st (InProject dir id) = true.

(** A file named [x], with a listable name, in the directory [ch]. *)
Definition listed_in (ch : Assoc.t node) (x : Js.str) : Prop :=
  skipped x = false /\ Js.VALID_SESSION_ID x = true /\
  exists c, Assoc.get x ch = Some (File c).

(** What the entry [name] of the data directory contributes to the
    listing. *)
Definition contributes (d : Assoc.t entry) (name x : Js.str) : Prop :=
  skipped name = false /\
  ((exists c, Assoc.get name d = Some (EFile c))
     /\ Js.VALID_SESSION_ID name = true /\ x = name
   \/ exists ch, Assoc.get name d = Some (EDir ch)
        /\ Js.ends_with SESSIONS_SUFFIX name = true
        /\ In x (Assoc.keys ch) /\ listed_in ch x).

(** An update that a line of the file can carry: a key with a non-empty
    new value is clean and so is the value. *)
Definition clean_update (kv : Js.str * option Js.str) : bool :=
  match snd kv with
  | Some (c :: s) => clean_key (fst kv) && clean_value (c :: s)
  | _ => true
  end.

Definition clean_updates (updates : Obj.t (option Js.str)) : bool :=
  forallb clean_update updates.

(** An update that the "utf-8" encoding stores unchanged: a key with a
    non-empty new value is a well-formed string and so is the value. *)
Definition well_formed_update (kv : Js.str * option Js.str) : bool :=
  match snd kv with
  | Some (c :: s) => Js.isWellFormed (fst kv) && Js.isWellFormed (c :: s)
  | _ => true
  end.

Definition well_formed_updates (updates : Obj.t (option Js.str)) : bool :=
  forallb well_formed_update updates.

(** The field [k] after an update of the record [raw]: the new value, or
    nothing when it was set to the empty string; a field the update does
    not name keeps its value unless that value was empty. *)
Definition merged_field (updates : Obj.t (option Js.str))
    (raw : Obj.t Js.str) (k : Js.str) : option Js.str :=
  match Assoc.get k updates with
  | Some (Some (c :: s)) => Some (c :: s)
  | Some (Some []) => None
  | _ => omit_empty (Assoc.get k raw)
  end.

(** The same as the specification words it: a field the update does not
    name is left as it was. *)
Definition merged_field_as_stated (updates : Obj.t (option Js.str))
    (raw : Obj.t Js.str) (k : Js.str) : option Js.str :=
  match Assoc.get k updates with
  | Some (Some (c :: s)) => Some (c :: s)
  | Some (Some []) => None
  | _ => Assoc.get k raw
  end.

(** *** Sample inputs *)

Definition sample_record : SessionMetadata :=
  {| worktree := Js.lit "/home/dev/.worktrees/app/app-1";
     branch := Js.lit "feat/INT-1234";
     status := Js.lit "working";
     issue := Some (Js.lit "INT-1234");
     pr := None;
     summary := Some [];
     project := Some (Js.lit "app");
     createdAt := None;
     runtimeHandle := None |}.

(** A record with an empty branch and a two-line summary. *)
Definition awkward_record : SessionMetadata :=
  {| worktree := Js.lit "/w";
     branch := [];
     status := Js.lit "working";
     issue := None;
     pr := None;
     summary := Some (Js.lit "line one" ++ Js.NL :: Js.lit "line two");
     project := None;
     createdAt := None;
     runtimeHandle := None |}.

(** A record whose summary is a surrogate without its partner. *)
Definition torn_record : SessionMetadata :=
  {| worktree := Js.lit "/w";
     branch := Js.lit "main";
     status := Js.lit "working";
     issue := None;
     pr := None;
     summary := Some [55296%N];
     project := None;
     createdAt := None;
     runtimeHandle := None |}.

(** A valid session ID of 256 characters. *)
Definition long_id : Js.str := repeat 97%N 256.

Definition empty_record : SessionMetadata :=
  {| worktree := []; branch := []; status := Js.lit "unknown";
     issue := None; pr := None; summary := None; project := None;
     createdAt := None; runtimeHandle := None |}.

(** A data directory that holds the session "app-7" only in the
    project-scoped layout, and a directory where a flat file could be. *)
Definition project_only_store : store :=
  Some [ (Js.lit "app-sessions",
          EDir [ (Js.lit "app-7",
                  File (Js.lit "status=working" ++ [Js.NL])) ]);
         (Js.lit "app-9", EDir []) ].

(** A data directory with a flat record, a record in a hidden project
    directory, and a record named "archive" in a project directory. *)
Definition mixed_store : store :=
  Some [ (Js.lit "app-1", EFile (Js.lit "status=working" ++ [Js.NL]));
         (Js.lit ".old-sessions",
          EDir [ (Js.lit "app-2", File (Js.lit "status=done" ++ [Js.NL])) ]);
         (Js.lit "app-sessions",
          EDir [ (Js.lit "app-1", File (Js.lit "status=stuck" ++ [Js.NL]));
                 (Js.lit "app-3", File (Js.lit "status=working" ++ [Js.NL]));
                 (Js.lit "archive", File (Js.lit "status=killed" ++ [Js.NL])) ]) ].

(** A flat record with an empty field, and two updates of it. *)
Definition working_store : store :=
  Some [ (Js.lit "app-1",
          EFile (Js.lit "branch=main" ++ Js.NL :: Js.lit "status=working"
                 ++ Js.NL :: Js.lit "note=" ++ [Js.NL])) ].

Definition plain_update : Obj.t (option Js.str) :=
  [ (Js.lit "status", Some (Js.lit "pr_open"));
    (Js.lit "branch", Some []);
    (Js.lit "pr", Some (Js.lit "https://github.com/org/repo/pull/42")) ].

Definition two_line_update : Obj.t (option Js.str) :=
  [ (Js.lit "summary",
     Some (Js.lit "fix login" ++ Js.NL :: Js.lit "status=merged")) ].

End Stmt.

(* ===================================================================== *)
(** ** Predicates on the store used by the statements about deletion *)

Module StoreStmt.
Import Metadata Stmt.

(** A path at which resolveMetadataPath looks for the record of [id]. *)
Definition layout_path (id : Js.str) (q : path) : Prop :=
  q = Flat id \/
  exists dir, Js.ends_with SESSIONS_SUFFIX dir = true /\ q = InProject dir id.

(** The archive directory can take a file called [name]: "archive" is not
    a file of the data directory, and [name] is not a directory in it and,
    where it has to be created, has no more than the 255 characters the
    file system takes. *)
Definition archive_free (st : store) (name : Js.str) : bool :=
  match Assoc.get ARCHIVE (dir_of st) with
  | Some (EFile _) => false
  | Some (EDir ch) =>
      match Assoc.get name ch with
      | Some Dir => false
      | Some (File _) => true
      | None => List.length name <=? 255
      end
  | None => List.length name <=? 255
  end.

(** The message of the error validateSessionId throws. *)
Definition invalid_id (id : Js.str) : error :=
  Error (Js.lit "Invalid session ID: " ++ id).

Definition SLASH : N := 47.
Definition BACKSLASH : N := 92.

(** A record in the flat layout and another in a project directory. *)
Definition doubled_store : store :=
  Some [ (Js.lit "app-1", EFile (Js.lit "status=working" ++ [Js.NL]));
         (Js.lit "app-sessions",
          EDir [ (Js.lit "app-1", File (Js.lit "status=stuck" ++ [Js.NL])) ]) ].

Definition stamp : Js.str := Js.lit "2026-01-02T03:04:05.678Z".

(** The content of the file at [q], when a file is there. *)
Definition file_at (st : store) (q : path) : option Js.str :=
  match readFileSync st q with
  | Ok c => Some c
  | Throw _ => None
  end.

End StoreStmt.

(* ===================================================================== *)
(** ** Predicates on enumerations and traces used by further statements *)

Module ObjStmt.

(** Tagged entries in ascending order of their index, each tag being the
    index of its key. *)
Inductive indexed {V : Type} : list (N * (Js.str * V)) -> Prop :=
  | indexed_nil : indexed []
  | indexed_cons n kv l :
      Obj.array_index (fst kv) = Some n ->
      (forall m kv', In (m, kv') l -> (n <= m)%N) ->
      indexed l -> indexed ((n, kv) :: l).

End ObjStmt.

Module RuntimeStmt.
Import Proc.

(** The temporary files that exist after an event, given those that
    existed before it. *)
Definition file_step (files : list Js.str) (e : event) : list Js.str :=
  match e with
  | EWriteFile p _ => p :: files
  | EUnlink p => filter (fun q => negb (Js.eqb q p)) files
  | _ => files
  end.

(** The temporary files a trace leaves behind. *)
Definition files_left (evs : list event) : list Js.str :=
  fold_left file_step evs [].

Definition touches_files (e : event) : bool :=
  match e with
  | EWriteFile _ _ | EUnlink _ => true
  | _ => false
  end.

(** tmux fails whatever it is asked, as when no server runs. *)
Definition dead_env : env :=
  {| reply := fun _ _ => None; uuid := Js.lit "0000"; tmpdir := Js.lit "/tmp" |}.

(** tmux refuses to paste. *)
Definition no_paste_env : env :=
  {| reply := fun _ args =>
       match args with
       | cmd :: _ => if Js.eqb cmd (Js.lit "paste-buffer") then None
                     else Some (Js.lit "$ ")
       | [] => Some []
       end;
     uuid := Js.lit "0000"; tmpdir := Js.lit "/tmp" |}.

Definition two_lines : Js.str := Js.lit "first" ++ Js.NL :: Js.lit "second".

Definition sample_config : TmuxRuntime.RuntimeCreateConfig :=
  {| TmuxRuntime.sessionId := Js.lit "app-1";
     TmuxRuntime.workspacePath := Js.lit "/home/dev/.worktrees/app/app-1";
     TmuxRuntime.launchCommand := Js.lit "codex --approval-mode full-auto";
     TmuxRuntime.environment :=
       Some [ (Js.lit "AO_SESSION_ID", Js.lit "app-1");
              (Js.lit "AO_PROJECT_ID", Js.lit "app") ] |}.

Definition unsafe_config : TmuxRuntime.RuntimeCreateConfig :=
  {| TmuxRuntime.sessionId := Js.lit "app 1; rm -rf ~";
     TmuxRuntime.workspacePath := Js.lit "/tmp";
     TmuxRuntime.launchCommand := Js.lit "codex";
     TmuxRuntime.environment := None |}.

End RuntimeStmt.

Module SendStmt.
Import Proc.

(** The pane of [target] shows text whenever it is captured. *)
Definition shows_text (E : env) (target : Js.str) : Prop :=
  forall k lines,
    exists stdout,
      reply E k (Tmux.capture_args target lines) = Some stdout
      /\ Js.trim stdout <> [].

(** From the [base]-th event on, two events in a row take five seconds
    or more: in the loop of the action every other event is a sleep of
    five seconds. *)
Definition five_seconds_pass (now : nat -> N) (base : nat) : Prop :=
  forall k : nat,
    (now (base + 2 * k)%nat + 5000 <= now (base + 2 * (k + 1))%nat)%N.

(** A clock that advances by two and a half seconds at each event. *)
Definition steady_clock (n : nat) : N := (1000000 + 2500 * N.of_nat n)%N.

Definition no_files (path : Js.str) : option Js.str := None.

Definition plain_opts : SendCmd.Opts :=
  {| SendCmd.file := None; SendCmd.wait := true; SendCmd.timeoutMs := 600000 |}.

(** A pane that shows the prompt of an agent, and tmux answering every
    command. *)
Definition prompt_env : env :=
  {| reply := fun _ _ => Some (Js.lit "> ");
     uuid := Js.lit "0000"; tmpdir := Js.lit "/tmp" |}.

(** A step that always ends, without looking at the pane and without
    pressing Enter in [target]. *)
Definition quiet {A} (target : Js.str) (m : M A) : Prop :=
  forall w, exists evs r,
    TraceStmt.runs m w evs r /\ TraceStmt.polls evs = 0
    /\ TraceStmt.enters target evs = 0.

End SendStmt.

(* ===================================================================== *)
(** * Properties *)

Unset Implicit Arguments.

Arguments N.eqb : simpl never.
Arguments N.leb : simpl never.
Arguments N.ltb : simpl never.

Example trim_ex : Js.trim (Js.lit "  a b  ") = Js.lit "a b".
Proof. reflexivity. Qed.
(* ===================================================================== *)
(** ** Strings *)

Section StringFacts.

Lemma eqb_spec (a b : Js.str) : reflect (a = b) (Js.eqb a b).
Proof.
  revert b; induction a as [|x a IH]; intros [|y b]; simpl;
    try (constructor; congruence).
  destruct (N.eqb_spec x y) as [->|Hxy]; simpl.
  - destruct (IH b) as [->|Hab]; constructor; congruence.
  - constructor; congruence.
Qed.

Lemma eqb_refl (a : Js.str) : Js.eqb a a = true.
Proof. destruct (eqb_spec a a); congruence. Qed.

Lemma eqb_eq (a b : Js.str) : Js.eqb a b = true <-> a = b.
Proof. destruct (eqb_spec a b); split; congruence. Qed.

Lemma eqb_neq (a b : Js.str) : Js.eqb a b = false <-> a <> b.
Proof. destruct (eqb_spec a b); split; congruence. Qed.

(** *** trim *)

Lemma ltrim_app_stop (a b : Js.str) (c : N) :
  Js.is_ws c = false -> Js.ltrim (a ++ c :: b) = Js.ltrim a ++ c :: b.
Proof.
  intros Hc; induction a as [|x a IH]; simpl.
  - now rewrite Hc.
  - destruct (Js.is_ws x); [exact IH | reflexivity].
Qed.

Lemma rtrim_cons_stop (c : N) (b : Js.str) :
  Js.is_ws c = false -> Js.rtrim (c :: b) = c :: Js.rtrim b.
Proof. intros Hc; simpl; rewrite Hc; now destruct (Js.rtrim b). Qed.

Lemma rtrim_app_stop (a b : Js.str) (c : N) :
  Js.is_ws c = false -> Js.rtrim (a ++ c :: b) = a ++ c :: Js.rtrim b.
Proof.
  intros Hc; induction a as [|x a IH].
  - now apply rtrim_cons_stop.
  - change ((x :: a) ++ c :: b) with (x :: (a ++ c :: b)).
    simpl Js.rtrim; rewrite IH.
    now destruct a.
Qed.

Lemma rtrim_nil_iff (s : Js.str) :
  Js.rtrim s = [] <-> forallb Js.is_ws s = true.
Proof.
  induction s as [|c s IH]; simpl; [tauto|].
  destruct (Js.rtrim s) eqn:E, (Js.is_ws c); simpl; split;
    try congruence; try tauto.
  - intros H. apply IH in H. discriminate.
Qed.

Lemma ltrim_nil_iff (s : Js.str) :
  Js.ltrim s = [] <-> forallb Js.is_ws s = true.
Proof.
  induction s as [|c s IH]; simpl; [tauto|].
  destruct (Js.is_ws c); simpl; [exact IH|]. split; congruence.
Qed.

Lemma ltrim_idem (s : Js.str) : Js.ltrim (Js.ltrim s) = Js.ltrim s.
Proof.
  induction s as [|c s IH]; simpl; [reflexivity|].
  destruct (Js.is_ws c) eqn:E; [exact IH|]. simpl; now rewrite E.
Qed.

Lemma rtrim_idem (s : Js.str) : Js.rtrim (Js.rtrim s) = Js.rtrim s.
Proof.
  induction s as [|c s IH]; simpl; [reflexivity|].
  destruct (Js.rtrim s) as [|y r] eqn:E.
  - destruct (Js.is_ws c) eqn:Ec; simpl; [reflexivity|now rewrite Ec].
  - change (Js.rtrim (c :: y :: r) = c :: y :: r).
    simpl Js.rtrim. simpl in IH. rewrite IH. reflexivity.
Qed.

Lemma ltrim_rtrim (s : Js.str) :
  Js.ltrim (Js.rtrim s) = Js.rtrim (Js.ltrim s).
Proof.
  induction s as [|c s IH]; [reflexivity|].
  destruct (Js.is_ws c) eqn:Ec.
  - assert (Hl : Js.ltrim (c :: s) = Js.ltrim s) by (simpl; now rewrite Ec).
    rewrite Hl, <- IH. simpl Js.rtrim. rewrite Ec.
    destruct (Js.rtrim s) as [|y r] eqn:E; [reflexivity|].
    simpl. now rewrite Ec.
  - assert (Hl : Js.ltrim (c :: s) = c :: s) by (simpl; now rewrite Ec).
    rewrite Hl, rtrim_cons_stop by assumption.
    simpl. now rewrite Ec.
Qed.

Lemma trim_idem (s : Js.str) : Js.trim (Js.trim s) = Js.trim s.
Proof.
  unfold Js.trim. now rewrite ltrim_rtrim, ltrim_idem, rtrim_idem.
Qed.

Lemma trim_ltrim (s : Js.str) : Js.trim (Js.ltrim s) = Js.trim s.
Proof. unfold Js.trim. now rewrite ltrim_idem. Qed.

Lemma trim_rtrim (s : Js.str) : Js.trim (Js.rtrim s) = Js.trim s.
Proof. unfold Js.trim. now rewrite ltrim_rtrim, rtrim_idem. Qed.

(** A trimmed string starts and ends with a unit that is not white
    space. *)
Lemma ltrim_head (s : Js.str) (c : N) (r : Js.str) :
  Js.ltrim s = c :: r -> Js.is_ws c = false.
Proof.
  induction s as [|x s IH]; simpl; [discriminate|].
  destruct (Js.is_ws x) eqn:E; [exact IH|]. congruence.
Qed.

Lemma trim_head (s : Js.str) (c : N) (r : Js.str) :
  Js.trim s = c :: r -> Js.is_ws c = false.
Proof.
  unfold Js.trim. rewrite <- ltrim_rtrim. apply ltrim_head.
Qed.

Lemma trim_fix_ltrim (s : Js.str) : Js.trim s = s -> Js.ltrim s = s.
Proof.
  intros H. rewrite <- H at 1. unfold Js.trim.
  rewrite ltrim_rtrim, ltrim_idem. exact H.
Qed.

(** trimEnd is trimStart on the reversed string. *)
Lemma rtrim_snoc (s : Js.str) (c : N) :
  Js.rtrim (s ++ [c]) = if Js.is_ws c then Js.rtrim s else s ++ [c].
Proof.
  destruct (Js.is_ws c) eqn:Ec.
  - induction s as [|x s IH]; simpl; [now rewrite Ec|].
    now rewrite IH.
  - now rewrite rtrim_app_stop.
Qed.

Lemma rtrim_rev (s : Js.str) : Js.rtrim s = rev (Js.ltrim (rev s)).
Proof.
  assert (H : forall u, Js.rtrim (rev u) = rev (Js.ltrim u)).
  { induction u as [|c u IH]; [reflexivity|].
    simpl rev at 1. rewrite rtrim_snoc. simpl Js.ltrim.
    destruct (Js.is_ws c); [exact IH | reflexivity]. }
  rewrite <- (rev_involutive s) at 1. apply H.
Qed.

End StringFacts.

(** *** indexOf, split and join *)

Section SplitFacts.

Lemma index_of_app_first (c : N) (a b : Js.str) :
  ~ In c a -> Js.index_of c (a ++ c :: b) = Some (List.length a).
Proof.
  induction a as [|x a IH]; simpl; intros Hin.
  - now rewrite N.eqb_refl.
  - destruct (N.eqb_spec x c) as [->|Hx]; [tauto|].
    rewrite IH by tauto. reflexivity.
Qed.

Lemma index_of_none (c : N) (s : Js.str) :
  Js.index_of c s = None <-> ~ In c s.
Proof.
  induction s as [|x s IH]; simpl; [tauto|].
  destruct (N.eqb_spec x c) as [->|Hx].
  - split; [discriminate | tauto].
  - destruct (Js.index_of c s) as [j|].
    + split; [discriminate|]. intros H. exfalso.
      assert (Hn : ~ In c s) by tauto. apply IH in Hn. discriminate.
    + split; [|reflexivity]. intros _ [H|H]; [congruence|].
      now apply IH.
Qed.

Lemma index_of_some (c : N) (s : Js.str) (i : nat) :
  Js.index_of c s = Some i ->
  s = firstn i s ++ c :: skipn (i + 1) s /\ ~ In c (firstn i s).
Proof.
  revert i; induction s as [|x s IH]; simpl; intros i; [discriminate|].
  destruct (N.eqb_spec x c) as [->|Hx].
  - intros [= <-]. simpl. tauto.
  - destruct (Js.index_of c s) as [j|] eqn:E; [|discriminate].
    intros [= <-]. destruct (IH j eq_refl) as [Hs Hn].
    simpl. split; [now rewrite <- Hs | intros [H|H]; congruence || tauto].
Qed.

Lemma split_nl_line (l rest : Js.str) :
  ~ In Js.NL l ->
  Js.split_nl (l ++ Js.NL :: rest) = l :: Js.split_nl rest.
Proof.
  induction l as [|c l IH]; simpl; intros Hin.
  - reflexivity.
  - destruct (N.eqb_spec c Js.NL) as [->|Hc]; [tauto|].
    rewrite IH by tauto. reflexivity.
Qed.

Lemma split_nl_no_newline (s l : Js.str) :
  In l (Js.split_nl s) -> ~ In Js.NL l.
Proof.
  revert l; induction s as [|c s IH]; simpl; intros l.
  - intros [<-|[]]. tauto.
  - destruct (N.eqb_spec c Js.NL) as [->|Hc].
    + intros [<-|H]; [tauto | now apply IH].
    + destruct (Js.split_nl s) as [|l0 ls] eqn:E.
      * intros [<-|[]]. intros [H|[]]. congruence.
      * intros [<-|H].
        -- intros [H|H]; [congruence|]. apply (IH l0); [now left | exact H].
        -- apply IH. now right.
Qed.

(** Splitting what join and the final newline produced gives the lines
    back, followed by one empty line. *)
Lemma split_nl_join (ls : list Js.str) :
  Forall (fun l => ~ In Js.NL l) ls ->
  ls <> [] ->
  Js.split_nl (Js.join_nl ls ++ [Js.NL]) = ls ++ [[]].
Proof.
  induction ls as [|l ls IH]; intros Hall Hne; [congruence|].
  inversion Hall as [|? ? Hl Hls]; subst.
  destruct ls as [|l' ls'].
  - simpl Js.join_nl. rewrite split_nl_line by assumption. reflexivity.
  - change (Js.join_nl (l :: l' :: ls'))
      with (l ++ Js.NL :: Js.join_nl (l' :: ls')).
    set (J := Js.join_nl (l' :: ls')) in *.
    replace ((l ++ Js.NL :: J) ++ [Js.NL]) with (l ++ Js.NL :: (J ++ [Js.NL]))
      by (now rewrite <- app_assoc).
    rewrite split_nl_line by assumption.
    rewrite IH by (assumption || discriminate). reflexivity.
Qed.

End SplitFacts.

(** *** One line of a record file *)

Section LineFacts.

Lemma in_ltrim (c : N) (s : Js.str) : In c (Js.ltrim s) -> In c s.
Proof.
  induction s as [|x s IH]; simpl; [tauto|].
  destruct (Js.is_ws x); simpl; tauto.
Qed.

Lemma in_rtrim (c : N) (s : Js.str) : In c (Js.rtrim s) -> In c s.
Proof.
  induction s as [|x s IH]; simpl; [tauto|].
  destruct (Js.rtrim s) as [|y r].
  - destruct (Js.is_ws x); simpl; tauto.
  - simpl in *. tauto.
Qed.

Lemma in_trim (c : N) (s : Js.str) : In c (Js.trim s) -> In c s.
Proof. intros H. now apply in_ltrim, in_rtrim. Qed.

Lemma firstn_app_exact {A} (a b : list A) : firstn (List.length a) (a ++ b) = a.
Proof. induction a; simpl; congruence. Qed.

Lemma skipn_app_exact {A} (a b : list A) (c : A) :
  skipn (List.length a + 1) (a ++ c :: b) = b.
Proof. induction a; simpl; congruence. Qed.

Lemma trim_pair (k v : Js.str) :
  Js.trim (k ++ Js.EQ :: v) = Js.ltrim k ++ Js.EQ :: Js.rtrim v.
Proof.
  unfold Js.trim.
  rewrite ltrim_app_stop by reflexivity.
  now rewrite rtrim_app_stop by reflexivity.
Qed.

(** A line that holds only white space is skipped. *)
Lemma parse_line_blank (o : Obj.t Js.str) (line : Js.str) :
  forallb Js.is_ws line = true -> Metadata.parse_line o line = o.
Proof.
  intros H. unfold Metadata.parse_line.
  assert (Js.trim line = []) as ->; [|reflexivity].
  unfold Js.trim. apply ltrim_nil_iff in H. now rewrite H.
Qed.

(** A line whose first unit after leading white space is # is skipped. *)
Lemma parse_line_comment (o : Obj.t Js.str) (line : Js.str) :
  Js.starts_with [Js.HASH] (Js.ltrim line) = true ->
  Metadata.parse_line o line = o.
Proof.
  intros H. unfold Metadata.parse_line.
  destruct (Js.ltrim line) as [|c r] eqn:E; [discriminate|].
  simpl in H. rewrite andb_true_r in H. apply N.eqb_eq in H. subst c.
  unfold Js.trim. rewrite E, rtrim_cons_stop by reflexivity.
  reflexivity.
Qed.

(** A line without = is skipped. *)
Lemma parse_line_no_eq (o : Obj.t Js.str) (line : Js.str) :
  ~ In Js.EQ line -> Metadata.parse_line o line = o.
Proof.
  intros H. unfold Metadata.parse_line.
  assert (Hn : Js.index_of Js.EQ (Js.trim line) = None).
  { apply index_of_none. intros Hin. now apply H, in_trim. }
  rewrite Hn. destruct (Js.trim line); [reflexivity|].
  now destruct (Js.starts_with _ _).
Qed.

(** A line [k=v], with no = in [k]: the first = splits it, whatever [v]
    holds, and both sides are trimmed. *)
Lemma parse_line_pair (o : Obj.t Js.str) (k v : Js.str) :
  ~ In Js.EQ k ->
  Metadata.parse_line o (k ++ Js.EQ :: v) =
    if Js.starts_with [Js.HASH] (Js.ltrim k) then o
    else match Js.trim k with
         | [] => o
         | key => Obj.set key (Js.trim v) o
         end.
Proof.
  intros Hk. unfold Metadata.parse_line. rewrite trim_pair.
  assert (Hidx : Js.index_of Js.EQ (Js.ltrim k ++ Js.EQ :: Js.rtrim v)
                 = Some (List.length (Js.ltrim k))).
  { apply index_of_app_first. intros Hin. now apply Hk, in_ltrim. }
  rewrite Hidx, firstn_app_exact, skipn_app_exact, trim_ltrim, trim_rtrim.
  destruct (Js.ltrim k) as [|c r] eqn:E.
  - simpl. unfold Js.trim. now rewrite E.
  - simpl app. simpl Js.starts_with.
    destruct (N.eqb Js.HASH c); [reflexivity|].
    simpl. now destruct (Js.trim k).
Qed.

End LineFacts.

(* ===================================================================== *)
(** ** Well-formed strings *)

Section WellFormed.

(** Induction that may step over two units at once. *)
Lemma str_ind2 (P : Js.str -> Prop) :
  P [] ->
  (forall c s, P s -> (forall d s', s = d :: s' -> P s') -> P (c :: s)) ->
  forall s, P s.
Proof.
  intros H0 Hs s.
  assert (H : P s /\ (forall d s', s = d :: s' -> P s')).
  { induction s as [|c s [IH1 IH2]].
    - split; [exact H0 | discriminate].
    - split; [now apply Hs|]. now intros d s' [= _ <-]. }
  exact (proj1 H).
Qed.

Lemma not_surrogate (c : N) :
  Js.is_surrogate c = false -> Js.is_lead c = false /\ Js.is_trail c = false.
Proof. unfold Js.is_surrogate. apply orb_false_iff. Qed.

Lemma ws_not_surrogate (c : N) :
  Js.is_ws c = true -> Js.is_surrogate c = false.
Proof.
  intros H. destruct (Js.is_surrogate c) eqn:E; [exfalso | reflexivity].
  unfold Js.is_surrogate, Js.is_lead, Js.is_trail in E.
  rewrite orb_true_iff, !andb_true_iff, !N.leb_le in E.
  unfold Js.is_ws in H.
  rewrite !orb_true_iff, !andb_true_iff, !N.leb_le, !N.eqb_eq in H. lia.
Qed.

Lemma toWellFormed_plain (c : N) (s : Js.str) :
  Js.is_surrogate c = false ->
  Js.toWellFormed (c :: s) = c :: Js.toWellFormed s.
Proof.
  intros H. apply not_surrogate in H. destruct H as [H1 H2].
  cbn [Js.toWellFormed]. now rewrite H1, H2.
Qed.

Lemma toWellFormed_length (s : Js.str) :
  List.length (Js.toWellFormed s) = List.length s.
Proof.
  induction s as [|c s IH1 IH2] using str_ind2; [reflexivity|].
  cbn [Js.toWellFormed].
  destruct (Js.is_lead c).
  - destruct s as [|d s']; [reflexivity|].
    destruct (Js.is_trail d).
    + cbn [List.length]. now rewrite (IH2 d s' eq_refl).
    + cbn [List.length] in *. now rewrite IH1.
  - destruct (Js.is_trail c); cbn [List.length]; now rewrite IH1.
Qed.

(** A unit that is not a surrogate cuts the string in two parts that are
    encoded on their own. *)
Lemma toWellFormed_sep (a b : Js.str) (c : N) :
  Js.is_surrogate c = false ->
  Js.toWellFormed (a ++ c :: b)
  = Js.toWellFormed a ++ c :: Js.toWellFormed b.
Proof.
  intros Hc. induction a as [|x a IH1 IH2] using str_ind2.
  - now apply toWellFormed_plain.
  - cbn [app Js.toWellFormed].
    destruct (Js.is_lead x).
    + destruct a as [|d a'].
      * cbn [app]. rewrite (proj2 (not_surrogate c Hc)).
        rewrite toWellFormed_plain by assumption. reflexivity.
      * cbn [app]. destruct (Js.is_trail d).
        -- now rewrite (IH2 d a' eq_refl).
        -- cbn [app] in IH1. now rewrite IH1.
    + destruct (Js.is_trail x); now rewrite IH1.
Qed.

Lemma toWellFormed_idem (s : Js.str) :
  Js.toWellFormed (Js.toWellFormed s) = Js.toWellFormed s.
Proof.
  induction s as [|c s IH1 IH2] using str_ind2; [reflexivity|].
  cbn [Js.toWellFormed].
  destruct (Js.is_lead c) eqn:Hl.
  - destruct s as [|d s']; [reflexivity|].
    destruct (Js.is_trail d) eqn:Ht.
    + cbn [Js.toWellFormed]. rewrite Hl, Ht. now rewrite (IH2 d s' eq_refl).
    + rewrite toWellFormed_plain by reflexivity. now rewrite IH1.
  - destruct (Js.is_trail c) eqn:Ht.
    + rewrite toWellFormed_plain by reflexivity. now rewrite IH1.
    + rewrite toWellFormed_plain
        by (unfold Js.is_surrogate; now rewrite Hl, Ht).
      now rewrite IH1.
Qed.

Lemma isWellFormed_spec (s : Js.str) :
  Js.isWellFormed s = true <-> Js.toWellFormed s = s.
Proof. unfold Js.isWellFormed. apply eqb_eq. Qed.

Lemma isWellFormed_toWellFormed (s : Js.str) :
  Js.isWellFormed (Js.toWellFormed s) = true.
Proof. apply isWellFormed_spec, toWellFormed_idem. Qed.

Lemma app_inv_same_length {A} (a a' b b' : list A) :
  List.length a = List.length a' -> a ++ b = a' ++ b' -> a = a' /\ b = b'.
Proof.
  revert a'. induction a as [|x a IH]; intros [|y a']; simpl;
    try discriminate.
  - now split.
  - intros [= Hl] [= -> H]. destruct (IH _ Hl H) as [-> ->]. now split.
Qed.

Lemma isWellFormed_sep (a b : Js.str) (c : N) :
  Js.is_surrogate c = false ->
  Js.isWellFormed (a ++ c :: b) = true
  <-> Js.isWellFormed a = true /\ Js.isWellFormed b = true.
Proof.
  intros Hc. rewrite !isWellFormed_spec, toWellFormed_sep by assumption.
  split.
  - intros H. apply app_inv_same_length in H;
      [|apply toWellFormed_length].
    destruct H as [H1 [= H2]]. now split.
  - intros [-> ->]. reflexivity.
Qed.

Lemma isWellFormed_ltrim (s : Js.str) :
  Js.isWellFormed s = true -> Js.isWellFormed (Js.ltrim s) = true.
Proof.
  induction s as [|c s IH]; [trivial|]. simpl.
  destruct (Js.is_ws c) eqn:E; [|trivial].
  intros H. apply IH.
  apply (isWellFormed_sep [] s c (ws_not_surrogate c E)) in H. tauto.
Qed.

Lemma rtrim_decomp (s : Js.str) :
  exists w, s = Js.rtrim s ++ w /\ forallb Js.is_ws w = true.
Proof.
  induction s as [|c s (w & Hs & Hw)]; [now exists []|].
  simpl. destruct (Js.rtrim s) as [|y r] eqn:E.
  - simpl in Hs. subst w. destruct (Js.is_ws c) eqn:Ec.
    + exists (c :: s). simpl. now rewrite Ec.
    + now exists s.
  - exists w. split; [|assumption]. simpl. now rewrite Hs at 1.
Qed.

Lemma isWellFormed_drop_ws (a w : Js.str) :
  forallb Js.is_ws w = true ->
  Js.isWellFormed (a ++ w) = true -> Js.isWellFormed a = true.
Proof.
  destruct w as [|c w]; [now rewrite app_nil_r|].
  simpl. intros H. apply andb_true_iff in H. destruct H as [Hc _].
  intros H. apply (isWellFormed_sep a w c (ws_not_surrogate c Hc)) in H. tauto.
Qed.

Lemma isWellFormed_rtrim (s : Js.str) :
  Js.isWellFormed s = true -> Js.isWellFormed (Js.rtrim s) = true.
Proof.
  destruct (rtrim_decomp s) as (w & Hs & Hw). intros H.
  rewrite Hs in H. now apply (isWellFormed_drop_ws _ w).
Qed.

Lemma isWellFormed_trim (s : Js.str) :
  Js.isWellFormed s = true -> Js.isWellFormed (Js.trim s) = true.
Proof. intros H. now apply isWellFormed_rtrim, isWellFormed_ltrim. Qed.

(** The two sides of the first [c] of a well-formed string are well
    formed, when [c] is not a surrogate. *)
Lemma isWellFormed_sides (c : N) (s : Js.str) (i : nat) :
  Js.is_surrogate c = false ->
  Js.index_of c s = Some i ->
  Js.isWellFormed s = true ->
  Js.isWellFormed (firstn i s) = true
  /\ Js.isWellFormed (skipn (i + 1) s) = true.
Proof.
  intros Hc Hi H. destruct (index_of_some _ _ _ Hi) as [Hdec _].
  rewrite Hdec in H. now apply isWellFormed_sep in H.
Qed.

Lemma split_nl_no_nl (s : Js.str) : ~ In Js.NL s -> Js.split_nl s = [s].
Proof.
  induction s as [|c s IH]; [reflexivity|]. simpl. intros H.
  destruct (N.eqb_spec c Js.NL) as [->|Hne]; [tauto|].
  rewrite IH by tauto. reflexivity.
Qed.

Lemma isWellFormed_split_nl (s : Js.str) :
  Js.isWellFormed s = true ->
  Forall (fun l => Js.isWellFormed l = true) (Js.split_nl s).
Proof.
  remember (List.length s) as n eqn:Hn. revert s Hn.
  induction n as [n IH] using lt_wf_ind. intros s Hn H.
  destruct (Js.index_of Js.NL s) as [i|] eqn:Hi.
  - destruct (index_of_some _ _ _ Hi) as [Hdec Hnot].
    rewrite Hdec. rewrite split_nl_line by assumption.
    rewrite Hdec in H. apply isWellFormed_sep in H; [|reflexivity].
    destruct H as [H1 H2]. constructor; [assumption|].
    apply (IH (List.length (skipn (i + 1) s))); [|reflexivity|assumption].
    subst n. rewrite Hdec at 2. rewrite length_app. simpl. lia.
  - apply index_of_none in Hi. rewrite split_nl_no_nl by assumption.
    now constructor.
Qed.

Lemma isWellFormed_join_nl (ls : list Js.str) :
  Forall (fun l => Js.isWellFormed l = true) ls ->
  Js.isWellFormed (Js.join_nl ls ++ [Js.NL]) = true.
Proof.
  induction 1 as [|l ls Hl Hls IH]; [reflexivity|].
  destruct ls as [|l' ls'].
  - simpl. apply isWellFormed_sep; [reflexivity | now split].
  - change (Js.join_nl (l :: l' :: ls'))
      with (l ++ Js.NL :: Js.join_nl (l' :: ls')).
    rewrite <- app_assoc. simpl app.
    apply isWellFormed_sep; [reflexivity | now split].
Qed.

End WellFormed.

(* ===================================================================== *)
(** ** Association lists *)

Section AssocFacts.
Variable V : Type.
Implicit Types (o : Assoc.t V) (k : Js.str) (v : V).

Lemma get_put_eq k v o : Assoc.get k (Assoc.put k v o) = Some v.
Proof.
  induction o as [|[k' v'] o IH]; simpl.
  - now rewrite eqb_refl.
  - destruct (eqb_spec k' k) as [->|Hk]; simpl.
    + now rewrite eqb_refl.
    + destruct (eqb_spec k' k); [contradiction | exact IH].
Qed.

Lemma get_put_ne k k' v o :
  k <> k' -> Assoc.get k' (Assoc.put k v o) = Assoc.get k' o.
Proof.
  intros Hne. induction o as [|[k0 v0] o IH]; simpl.
  - destruct (eqb_spec k k'); [contradiction | reflexivity].
  - destruct (eqb_spec k0 k) as [->|Hk]; simpl.
    + destruct (eqb_spec k k'); [contradiction | reflexivity].
    + now rewrite IH.
Qed.

Lemma get_remove_eq k o : Assoc.get k (Assoc.remove k o) = None.
Proof.
  induction o as [|[k' v'] o IH]; simpl; [reflexivity|].
  destruct (eqb_spec k' k) as [->|Hk]; simpl; [exact IH|].
  destruct (eqb_spec k' k); [contradiction | exact IH].
Qed.

Lemma get_remove_ne k k' o :
  k <> k' -> Assoc.get k' (Assoc.remove k o) = Assoc.get k' o.
Proof.
  intros Hne. induction o as [|[k0 v0] o IH]; simpl; [reflexivity|].
  destruct (eqb_spec k0 k) as [->|Hk]; simpl.
  - destruct (eqb_spec k k'); [contradiction | exact IH].
  - now rewrite IH.
Qed.

Lemma get_none_keys k o :
  Assoc.get k o = None <-> ~ In k (Assoc.keys o).
Proof.
  induction o as [|[k' v'] o IH]; simpl; [tauto|].
  destruct (eqb_spec k' k) as [->|Hk].
  - split; [discriminate | tauto].
  - rewrite IH. tauto.
Qed.

Lemma get_some_in k v o : Assoc.get k o = Some v -> In (k, v) o.
Proof.
  induction o as [|[k' v'] o IH]; simpl; [discriminate|].
  destruct (eqb_spec k' k) as [->|Hk].
  - intros [= ->]. now left.
  - intros H. right. now apply IH.
Qed.

Lemma in_get_nodup k v o :
  NoDup (Assoc.keys o) -> In (k, v) o -> Assoc.get k o = Some v.
Proof.
  induction o as [|[k' v'] o IH]; simpl; [tauto|].
  intros Hnd [Heq|Hin]; inversion Hnd as [|? ? Hnotin Hnd']; subst.
  - injection Heq as -> ->. now rewrite eqb_refl.
  - destruct (eqb_spec k' k) as [->|Hk].
    + exfalso. apply Hnotin. now apply (in_map fst) in Hin.
    + now apply IH.
Qed.

Lemma get_permutation k o o' :
  NoDup (Assoc.keys o) -> Permutation o o' ->
  Assoc.get k o' = Assoc.get k o.
Proof.
  intros Hnd Hp.
  assert (Hnd' : NoDup (Assoc.keys o')).
  { eapply Permutation_NoDup; [|exact Hnd]. now apply Permutation_map. }
  destruct (Assoc.get k o) as [v|] eqn:E.
  - apply in_get_nodup; [exact Hnd'|].
    eapply Permutation_in; [exact Hp|]. now apply get_some_in.
  - apply get_none_keys. apply get_none_keys in E. intros Hin. apply E.
    eapply Permutation_in; [|exact Hin].
    apply Permutation_map, Permutation_sym, Hp.
Qed.

Lemma put_fresh k v o :
  ~ In k (Assoc.keys o) -> Assoc.put k v o = o ++ [(k, v)].
Proof.
  induction o as [|[k' v'] o IH]; simpl; [reflexivity|].
  intros Hn. destruct (eqb_spec k' k) as [->|Hk]; [tauto|].
  rewrite IH by tauto. reflexivity.
Qed.

Lemma keys_put_in k v o :
  In k (Assoc.keys o) -> Assoc.keys (Assoc.put k v o) = Assoc.keys o.
Proof.
  induction o as [|[k' v'] o IH]; simpl; [tauto|].
  intros Hin. destruct (eqb_spec k' k) as [->|Hk]; simpl; [reflexivity|].
  rewrite IH; [reflexivity|]. destruct Hin; [contradiction | assumption].
Qed.

Lemma keys_put k v o :
  Assoc.keys (Assoc.put k v o) =
    if Assoc.has k o then Assoc.keys o else Assoc.keys o ++ [k].
Proof.
  unfold Assoc.has. destruct (Assoc.get k o) as [v0|] eqn:E.
  - apply keys_put_in. apply get_some_in in E.
    now apply (in_map fst) in E.
  - apply get_none_keys in E. rewrite put_fresh by assumption.
    unfold Assoc.keys. now rewrite map_app.
Qed.

Lemma nodup_keys_put k v o :
  NoDup (Assoc.keys o) -> NoDup (Assoc.keys (Assoc.put k v o)).
Proof.
  intros Hnd. rewrite keys_put. unfold Assoc.has.
  destruct (Assoc.get k o) as [v0|] eqn:E; [exact Hnd|].
  apply get_none_keys in E.
  apply NoDup_app; [exact Hnd | repeat constructor; simpl; tauto |].
  intros x Hx [<-|[]]. contradiction.
Qed.

Lemma in_remove k kv o :
  In kv (Assoc.remove k o) <-> In kv o /\ fst kv <> k.
Proof.
  induction o as [|[k' v'] o IH]; simpl; [tauto|].
  destruct (eqb_spec k' k) as [->|Hk]; simpl; rewrite IH.
  - split; [tauto|]. intros [[<-|H] Hne]; simpl in *; tauto.
  - split; [|tauto]. intros [<-|H]; simpl; tauto.
Qed.

Lemma nodup_keys_remove k o :
  NoDup (Assoc.keys o) -> NoDup (Assoc.keys (Assoc.remove k o)).
Proof.
  induction o as [|[k' v'] o IH]; simpl; [trivial|].
  intros Hnd. inversion Hnd as [|? ? Hnotin Hnd']; subst.
  destruct (eqb_spec k' k) as [->|Hk]; simpl; [now apply IH|].
  constructor; [|now apply IH].
  intros Hin. apply Hnotin. apply in_map_iff in Hin.
  destruct Hin as [[k0 v0] [Hk0 Hin]]. apply in_remove in Hin.
  simpl in Hk0. subst k0. destruct Hin as [Hin _].
  apply (in_map fst) in Hin. exact Hin.
Qed.

End AssocFacts.

(* ===================================================================== *)
(** ** Objects *)

Section ObjFacts.
Variable V : Type.
Implicit Types (o : Obj.t V) (k : Js.str) (v : V).

Lemma insert_sorted_perm n (kv : Js.str * V) l :
  Permutation (Obj.insert_sorted n kv l) ((n, kv) :: l).
Proof.
  induction l as [|[m kv'] l IH]; simpl; [reflexivity|].
  destruct (N.leb n m); [reflexivity|].
  rewrite IH. apply perm_swap.
Qed.

Lemma index_entries_perm o :
  Permutation (map snd (Obj.index_entries o))
    (filter (fun kv => match Obj.array_index (fst kv) with
                       | Some _ => true
                       | None => false
                       end) o).
Proof.
  induction o as [|kv o IH]; simpl; [reflexivity|].
  destruct (Obj.array_index (fst kv)) as [n|]; [|exact IH].
  rewrite (Permutation_map snd (insert_sorted_perm n kv _)).
  simpl. now constructor.
Qed.

Lemma filter_split_perm {A} (P Q : A -> bool) (l : list A) :
  (forall x, Q x = negb (P x)) ->
  Permutation (filter P l ++ filter Q l) l.
Proof.
  intros HQ. induction l as [|x l IH]; simpl; [reflexivity|].
  rewrite HQ. destruct (P x); simpl.
  - now constructor.
  - rewrite <- Permutation_middle. now constructor.
Qed.

(** Object.entries enumerates every own property exactly once. *)
Lemma entries_perm o : Permutation (Obj.entries o) o.
Proof.
  unfold Obj.entries, Obj.string_entries.
  rewrite index_entries_perm.
  apply filter_split_perm. intros kv.
  now destruct (Obj.array_index (fst kv)).
Qed.

Lemma entries_no_index o :
  Forall (fun kv => Obj.array_index (fst kv) = None) o ->
  Obj.entries o = o.
Proof.
  intros H. unfold Obj.entries.
  assert (Hi : Obj.index_entries o = []).
  { induction H as [|kv o Hkv Ho IH]; [reflexivity|].
    simpl. now rewrite Hkv. }
  assert (Hs : Obj.string_entries o = o).
  { induction H as [|kv o Hkv Ho IH]; [reflexivity|].
    simpl. rewrite Hkv. f_equal. apply IH.
    simpl in Hi. now rewrite Hkv in Hi. }
  now rewrite Hi, Hs.
Qed.

Lemma get_entries k o :
  NoDup (Assoc.keys o) -> Assoc.get k (Obj.entries o) = Assoc.get k o.
Proof.
  intros Hnd. apply get_permutation; [exact Hnd|].
  apply Permutation_sym, entries_perm.
Qed.

Lemma nodup_keys_entries o :
  NoDup (Assoc.keys o) -> NoDup (Assoc.keys (Obj.entries o)).
Proof.
  intros Hnd. eapply Permutation_NoDup; [|exact Hnd].
  apply Permutation_map, Permutation_sym, entries_perm.
Qed.

Lemma in_entries kv o : In kv (Obj.entries o) <-> In kv o.
Proof.
  split; apply Permutation_in;
    [apply entries_perm | apply Permutation_sym, entries_perm].
Qed.

Lemma set_not_proto k v o :
  Js.eqb k Obj.PROTO = false -> Obj.set k v o = Assoc.put k v o.
Proof. intros H. unfold Obj.set. now rewrite H. Qed.

Lemma nodup_keys_set k v o :
  NoDup (Assoc.keys o) -> NoDup (Assoc.keys (Obj.set k v o)).
Proof.
  intros H. unfold Obj.set. destruct (Js.eqb k Obj.PROTO); [exact H|].
  now apply nodup_keys_put.
Qed.

Lemma nodup_keys_rest_without k o :
  NoDup (Assoc.keys o) -> NoDup (Assoc.keys (Obj.rest_without k o)).
Proof.
  intros H. apply nodup_keys_remove, nodup_keys_entries, H.
Qed.

Lemma get_rest_without_eq k o : Assoc.get k (Obj.rest_without k o) = None.
Proof. apply get_remove_eq. Qed.

Lemma get_rest_without_ne k k' o :
  NoDup (Assoc.keys o) -> k <> k' ->
  Assoc.get k' (Obj.rest_without k o) = Assoc.get k' o.
Proof.
  intros Hnd Hne. unfold Obj.rest_without.
  rewrite get_remove_ne by assumption. now apply get_entries.
Qed.

End ObjFacts.

(* ===================================================================== *)
(** ** Reading back what was serialised *)

Section Serialise.
Import Metadata Stmt.

Lemma has_unit_false (c : N) (s : Js.str) :
  has_unit c s = false <-> ~ In c s.
Proof.
  unfold has_unit. induction s as [|x s IH]; simpl; [tauto|].
  destruct (N.eqb_spec c x) as [->|Hc]; simpl.
  - split; [discriminate | tauto].
  - rewrite IH. intuition congruence.
Qed.

Lemma clean_key_spec (k : Js.str) :
  clean_key k = true ->
  k <> [] /\ Js.trim k = k /\ ~ In Js.EQ k /\ ~ In Js.NL k
  /\ Js.starts_with [Js.HASH] k = false /\ Js.eqb k Obj.PROTO = false.
Proof.
  unfold clean_key. rewrite !andb_true_iff, !negb_true_iff.
  intros [[[[[H1 H2] H3] H4] H5] H6].
  repeat split; try assumption.
  - destruct k; [discriminate | discriminate].
  - now apply eqb_eq.
  - now apply has_unit_false.
  - now apply has_unit_false.
Qed.

Lemma clean_value_spec (v : Js.str) :
  clean_value v = true -> Js.trim v = v /\ ~ In Js.NL v.
Proof.
  unfold clean_value. rewrite andb_true_iff, negb_true_iff.
  intros [H1 H2]. split; [now apply eqb_eq | now apply has_unit_false].
Qed.

(** A clean pair, written as a line, is read as that pair. *)
Lemma parse_entry_line (o : Obj.t Js.str) (kv : Js.str * Js.str) :
  clean_entry kv ->
  parse_line o (entry_line kv) = Assoc.put (fst kv) (snd kv) o.
Proof.
  intros [Hk Hv]. destruct kv as [k v]; simpl in *.
  apply clean_key_spec in Hk.
  destruct Hk as (Hne & Htrim & Heq & _ & Hhash & Hproto).
  apply clean_value_spec in Hv. destruct Hv as [Hv _].
  unfold entry_line; simpl.
  rewrite parse_line_pair by assumption.
  rewrite (trim_fix_ltrim _ Htrim), Hhash, Htrim, Hv.
  destruct k; [contradiction|]. now apply set_not_proto.
Qed.

Lemma entry_line_no_newline (kv : Js.str * Js.str) :
  clean_entry kv -> ~ In Js.NL (entry_line kv).
Proof.
  intros [Hk Hv]. apply clean_key_spec in Hk. apply clean_value_spec in Hv.
  unfold entry_line. rewrite in_app_iff. simpl.
  intros [H|[H|H]]; [tauto | discriminate | tauto].
Qed.

Lemma fold_parse_lines (es : list (Js.str * Js.str)) (o : Obj.t Js.str) :
  Forall clean_entry es ->
  fold_left parse_line (map entry_line es) o =
    fold_left (fun acc kv => Assoc.put (fst kv) (snd kv) acc) es o.
Proof.
  intros H. revert o. induction H as [|kv es Hkv _ IH]; intros o; simpl.
  - reflexivity.
  - now rewrite parse_entry_line, IH.
Qed.

Lemma fold_put_fresh {V} (es o : Assoc.t V) :
  NoDup (Assoc.keys o ++ Assoc.keys es) ->
  fold_left (fun acc kv => Assoc.put (fst kv) (snd kv) acc) es o = o ++ es.
Proof.
  revert o. induction es as [|[k v] es IH]; intros o Hnd; simpl.
  - now rewrite app_nil_r.
  - simpl in Hnd.
    assert (Hfresh : ~ In k (Assoc.keys o)).
    { apply NoDup_remove_2 in Hnd. rewrite in_app_iff in Hnd. tauto. }
    rewrite put_fresh by assumption.
    rewrite IH.
    + now rewrite <- app_assoc.
    + unfold Assoc.keys in *. rewrite map_app. simpl.
      rewrite <- app_assoc. exact Hnd.
Qed.

Lemma nodup_keys_filter {V} (P : Js.str * V -> bool) (o : Assoc.t V) :
  NoDup (Assoc.keys o) -> NoDup (Assoc.keys (filter P o)).
Proof.
  induction o as [|kv o IH]; simpl; [trivial|].
  intros Hnd. inversion Hnd as [|? ? Hnotin Hnd']; subst.
  destruct (P kv); simpl; [|now apply IH].
  constructor; [|now apply IH].
  intros Hin. apply Hnotin. apply in_map_iff in Hin.
  destruct Hin as [kv' [Hk Hin]]. apply filter_In in Hin.
  rewrite <- Hk. apply in_map. tauto.
Qed.

(** The lines serializeMetadata writes, read by parseMetadataFile, give
    exactly the entries with a non-empty value, in enumeration order. *)
Lemma parse_serialize (data : Obj.t Js.str) :
  NoDup (Assoc.keys data) ->
  Forall clean_entry data ->
  parseMetadataFile (serializeMetadata data) =
    filter (fun kv => nonempty (snd kv)) (Obj.entries data).
Proof.
  intros Hnd Hclean.
  unfold parseMetadataFile, serializeMetadata.
  set (es := filter (fun kv => nonempty (snd kv)) (Obj.entries data)).
  assert (Hes : Forall clean_entry es).
  { apply Forall_forall. intros kv Hin. apply filter_In in Hin.
    destruct Hin as [Hin _]. apply (proj1 (in_entries _ _ _)) in Hin.
    rewrite Forall_forall in Hclean. now apply Hclean. }
  assert (Hnd' : NoDup (Assoc.keys es)).
  { apply nodup_keys_filter, nodup_keys_entries, Hnd. }
  assert (Hfold : fold_left parse_line (map entry_line es) [] = es).
  { rewrite fold_parse_lines by assumption. now rewrite fold_put_fresh by exact Hnd'. }
  destruct es as [|kv es'] eqn:E.
  - reflexivity.
  - rewrite <- E in *. rewrite split_nl_join.
    + rewrite fold_left_app, Hfold. reflexivity.
    + apply Forall_forall. intros l Hl. apply in_map_iff in Hl.
      destruct Hl as [kv0 [<- Hin]]. apply entry_line_no_newline.
      rewrite Forall_forall in Hes. now apply Hes.
    + rewrite E. discriminate.
Qed.

Lemma get_filter_nonempty (k : Js.str) (o : Obj.t Js.str) :
  NoDup (Assoc.keys o) ->
  Assoc.get k (filter (fun kv => nonempty (snd kv)) o) =
    omit_empty (Assoc.get k o).
Proof.
  induction o as [|[k' v'] o IH]; simpl; [reflexivity|].
  intros Hnd. inversion Hnd as [|? ? Hnotin Hnd']; subst.
  destruct (eqb_spec k' k) as [->|Hk].
  - destruct v' as [|c s]; simpl.
    + rewrite IH by assumption.
      apply get_none_keys in Hnotin. now rewrite Hnotin.
    + now rewrite eqb_refl.
  - destruct (nonempty v'); simpl.
    + destruct (eqb_spec k' k); [contradiction|]. now apply IH.
    + now apply IH.
Qed.

End Serialise.

(* ===================================================================== *)
(** ** The store: writing and reading one record *)

Section StoreFacts.
Import Metadata Stmt.

Ltac eval_key_eqb :=
  repeat match goal with
  | |- context [Js.eqb (Js.lit ?a) (Js.lit ?b)] =>
      let r := eval vm_compute in (Js.eqb (Js.lit a) (Js.lit b)) in
      change (Js.eqb (Js.lit a) (Js.lit b)) with r
  end.

Lemma validate_ok (id : Js.str) :
  Js.VALID_SESSION_ID id = true -> validateSessionId id = Ok tt.
Proof. intros H. unfold validateSessionId. now rewrite H. Qed.

Lemma fits (name : Js.str) :
  List.length name <= NAME_MAX -> too_long name = false.
Proof. intros H. unfold too_long. now apply Nat.ltb_ge. Qed.

Lemma encode_well_formed (s : Js.str) :
  Js.isWellFormed s = true -> encode s = s.
Proof. apply isWellFormed_spec. Qed.

Lemma decode_well_formed (s : Js.str) :
  Js.isWellFormed s = true -> decode s = s.
Proof. apply isWellFormed_spec. Qed.

Lemma decode_encode (s : Js.str) : decode (encode s) = encode s.
Proof. apply toWellFormed_idem. Qed.

Lemma decode_is_well_formed (s : Js.str) : Js.isWellFormed (decode s) = true.
Proof. apply isWellFormed_toWellFormed. Qed.

Lemma write_flat (st : store) (id content : Js.str) :
  flat_writable st id = true ->
  too_long id = false ->
  (let* st1 := mkdirParent st (Flat id) in writeFileSync st1 (Flat id) content)
  = Ok (Some (Assoc.put id (EFile (encode content)) (dir_of st))).
Proof.
  unfold flat_writable. intros H Hl.
  destruct st as [d|]; cbn [mkdirParent rbind writeFileSync dir_of].
  - destruct (Assoc.get id d) as [[c|ch]|];
      [reflexivity | discriminate | now rewrite Hl].
  - cbn [Assoc.get]. now rewrite Hl.
Qed.

Lemma resolve_flat_file (d : Assoc.t entry) (id content : Js.str) :
  Js.VALID_SESSION_ID id = true ->
  Assoc.get id d = Some (EFile content) ->
  resolveMetadataPath (Some d) id = Ok (Some (Flat id)).
Proof.
  intros Hv Hg. unfold resolveMetadataPath.
  rewrite validate_ok by assumption. simpl. now rewrite Hg.
Qed.

Lemma read_flat_file (d : Assoc.t entry) (id content : Js.str) :
  Js.VALID_SESSION_ID id = true ->
  Assoc.get id d = Some (EFile content) ->
  readMetadata (Some d) id =
    Ok (Some (record_of_raw (parseMetadataFile (decode content)))).
Proof.
  intros Hv Hg. unfold readMetadata.
  rewrite (resolve_flat_file d id content Hv Hg). simpl. now rewrite Hg.
Qed.

(** *** The object writeMetadata builds *)

Lemma forall_put {V} (P : Js.str * V -> Prop) k v (o : Assoc.t V) :
  P (k, v) -> Forall P o -> Forall P (Assoc.put k v o).
Proof.
  intros Hkv Ho. induction Ho as [|[k' v'] o Hx Ho IH]; simpl.
  - now repeat constructor.
  - destruct (Js.eqb k' k); constructor; assumption.
Qed.

Lemma set_if_truthy_forall (P : Js.str * Js.str -> Prop) k v data :
  (forall s, v = Some s -> P (k, s)) ->
  Forall P data -> Forall P (set_if_truthy k v data).
Proof.
  intros Hv Hd. unfold set_if_truthy. destruct v as [[|c s]|]; try assumption.
  unfold Obj.set. destruct (Js.eqb k Obj.PROTO); [assumption|].
  apply forall_put; [now apply Hv | assumption].
Qed.

Lemma set_if_truthy_nodup k v data :
  NoDup (Assoc.keys data) -> NoDup (Assoc.keys (set_if_truthy k v data)).
Proof.
  intros H. unfold set_if_truthy. destruct v as [[|c s]|]; try assumption.
  now apply nodup_keys_set.
Qed.

Lemma get_set_if_truthy k k' v data :
  Js.eqb k Obj.PROTO = false ->
  Assoc.get k' (set_if_truthy k v data) =
    if Js.eqb k k' then
      match omit_empty v with
      | Some s => Some s
      | None => Assoc.get k' data
      end
    else Assoc.get k' data.
Proof.
  intros Hp. unfold set_if_truthy.
  destruct (eqb_spec k k') as [<-|Hne].
  - destruct v as [[|c s]|]; simpl; try reflexivity.
    rewrite set_not_proto by assumption. apply get_put_eq.
  - destruct v as [[|c s]|]; simpl; try reflexivity.
    rewrite set_not_proto by assumption. now apply get_put_ne.
Qed.

Lemma clean_opt_some v s :
  v = Some s -> clean_opt v = true -> clean_value s = true.
Proof. intros -> H. exact H. Qed.

Lemma data_of_record_nodup R : NoDup (Assoc.keys (data_of_record R)).
Proof.
  unfold data_of_record. repeat apply set_if_truthy_nodup.
  simpl. repeat constructor; simpl; intros H;
    repeat (destruct H as [H|H]; [discriminate|]); exact H.
Qed.

Lemma data_of_record_clean R :
  clean_record R = true -> Forall clean_entry (data_of_record R).
Proof.
  unfold clean_record. rewrite !andb_true_iff.
  intros [[[[[[[[H1 H2] H3] H4] H5] H6] H7] H8] H9].
  unfold data_of_record.
  repeat (apply set_if_truthy_forall;
          [intros s Hs; split;
           [reflexivity | eapply clean_opt_some; [exact Hs | assumption]]|]).
  repeat constructor; assumption.
Qed.

Lemma well_formed_opt_some v s :
  v = Some s -> well_formed_opt v = true -> Js.isWellFormed s = true.
Proof. intros -> H. exact H. Qed.

Lemma data_of_record_well_formed R :
  well_formed_record R = true -> Forall well_formed_entry (data_of_record R).
Proof.
  unfold well_formed_record. rewrite !andb_true_iff.
  intros [[[[[[[[H1 H2] H3] H4] H5] H6] H7] H8] H9].
  unfold data_of_record.
  repeat (apply set_if_truthy_forall;
          [intros s Hs; split;
           [reflexivity
           | eapply well_formed_opt_some; [exact Hs | assumption]]|]).
  repeat constructor; assumption.
Qed.

Lemma entry_line_well_formed (kv : Js.str * Js.str) :
  well_formed_entry kv -> Js.isWellFormed (entry_line kv) = true.
Proof.
  intros [H1 H2]. unfold entry_line.
  apply isWellFormed_sep; [reflexivity | now split].
Qed.

(** A record whose keys and values are well formed is written as it is. *)
Lemma serialize_well_formed (data : Obj.t Js.str) :
  Forall well_formed_entry data ->
  Js.isWellFormed (serializeMetadata data) = true.
Proof.
  intros H. unfold serializeMetadata. apply isWellFormed_join_nl.
  apply Forall_forall. intros l Hl. apply in_map_iff in Hl.
  destruct Hl as (kv & <- & Hin).
  apply filter_In in Hin. destruct Hin as [Hin _].
  apply (proj1 (in_entries _ _ _)) in Hin.
  apply entry_line_well_formed. rewrite Forall_forall in H. now apply H.
Qed.

Lemma data_of_record_no_index R :
  Forall (fun kv => Obj.array_index (fst kv) = None) (data_of_record R).
Proof.
  unfold data_of_record.
  repeat (apply set_if_truthy_forall; [intros s Hs; reflexivity|]).
  repeat constructor.
Qed.

Lemma omit_empty_idem v : omit_empty (omit_empty v) = omit_empty v.
Proof. now destruct v as [[|c s]|]. Qed.

(** Parsing what writeMetadata wrote and filling the record gives
    [read_back]. *)
Lemma record_of_written R :
  clean_record R = true ->
  record_of_raw (parseMetadataFile (serializeMetadata (data_of_record R)))
  = read_back R.
Proof.
  intros Hc.
  rewrite parse_serialize
    by (apply data_of_record_nodup || now apply data_of_record_clean).
  rewrite entries_no_index by apply data_of_record_no_index.
  unfold record_of_raw, read_back.
  rewrite !get_filter_nonempty by apply data_of_record_nodup.
  unfold data_of_record.
  rewrite !get_set_if_truthy by reflexivity.
  eval_key_eqb. cbv iota.
  f_equal;
    try (simpl Assoc.get; eval_key_eqb; cbv iota;
         try rewrite omit_empty_idem;
         match goal with
         | |- context [omit_empty ?f] => now destruct f as [[|? ?]|]
         | _ => idtac
         end).
  - now destruct (worktree R).
  - now destruct (branch R).
  - now destruct (status R).
Qed.

End StoreFacts.

(* ===================================================================== *)
(** ** Round trip of a record (C2) *)

Section RoundTrip.
Import Metadata Stmt.

Lemma write_metadata_flat (st : store) (id : Js.str) (R : SessionMetadata) :
  Js.VALID_SESSION_ID id = true ->
  flat_writable st id = true ->
  too_long id = false ->
  writeMetadata st id R =
    Ok (Some (Assoc.put id
                (EFile (encode (serializeMetadata (data_of_record R))))
                (dir_of st))).
Proof.
  intros Hv Hw Hl. unfold writeMetadata, metadataPath.
  rewrite validate_ok by assumption. simpl rbind.
  now apply write_flat.
Qed.

(** C2, as amended: for a valid session ID of at most 255 characters whose
    flat path is free or a file, and a record whose values are well-formed
    strings (no surrogate without its partner, which the "utf-8" encoding
    would replace) with no newline and no white space at either end,
    writeMetadata followed by readMetadata returns the record with
    worktree and branch as written (an empty one as the empty string), an
    empty status as "unknown", and every optional field that was empty or
    missing absent. *)
Theorem write_then_read_roundtrip
    (st : store) (id : Js.str) (R : SessionMetadata) :
  Js.VALID_SESSION_ID id = true ->
  List.length id <= 255 ->
  flat_writable st id = true ->
  clean_record R = true ->
  well_formed_record R = true ->
  exists st',
    writeMetadata st id R = Ok st' /\
    readMetadata st' id = Ok (Some (read_back R)).
Proof.
  intros Hv Hl Hw Hc Hwf. eexists. split.
  - apply write_metadata_flat; try assumption. now apply fits.
  - erewrite read_flat_file; [|assumption|apply get_put_eq].
    rewrite decode_encode, encode_well_formed
      by now apply serialize_well_formed, data_of_record_well_formed.
    now rewrite record_of_written.
Qed.

Lemma write_then_read_roundtrip_witness :
  Js.VALID_SESSION_ID (Js.lit "app-1") = true /\
  List.length (Js.lit "app-1") <= 255 /\
  flat_writable None (Js.lit "app-1") = true /\
  clean_record sample_record = true /\
  well_formed_record sample_record = true /\
  exists st',
    writeMetadata None (Js.lit "app-1") sample_record = Ok st' /\
    readMetadata st' (Js.lit "app-1") = Ok (Some (read_back sample_record)).
Proof.
  assert (Hl : List.length (Js.lit "app-1") <= 255)
    by (vm_compute; lia).
  split; [reflexivity|]. split; [exact Hl|]. split; [reflexivity|].
  split; [reflexivity|]. split; [reflexivity|].
  apply (write_then_read_roundtrip None (Js.lit "app-1") sample_record);
    (exact Hl || reflexivity).
Defined.

(** C2 as stated fails: an empty branch is read back as the empty string
    instead of being absent, and of a two-line summary only the first line
    comes back. *)
Lemma roundtrip_as_stated_fails :
  exists st' R',
    writeMetadata None (Js.lit "app-1") awkward_record = Ok st' /\
    readMetadata st' (Js.lit "app-1") = Ok (Some R') /\
    branch R' = [] /\
    summary R' = Some (Js.lit "line one") /\
    roundtrip_as_stated awkward_record R' = false.
Proof.
  eexists. eexists. split; [reflexivity|]. split; [reflexivity|].
  split; [reflexivity|]. split; reflexivity.
Qed.

(** A surrogate without its partner passes the test of [clean_record];
    it is written as U+FFFD and read back as such. *)
Lemma lone_surrogate_is_replaced :
  clean_record torn_record = true /\
  well_formed_record torn_record = false /\
  exists st' R',
    writeMetadata None (Js.lit "app-1") torn_record = Ok st' /\
    readMetadata st' (Js.lit "app-1") = Ok (Some R') /\
    summary R' = Some [Js.REPLACEMENT].
Proof.
  split; [reflexivity|]. split; [reflexivity|].
  eexists. eexists. split; [reflexivity|]. split; reflexivity.
Qed.

(** A valid session ID of 256 characters cannot be written. *)
Lemma long_id_cannot_be_written :
  Js.VALID_SESSION_ID long_id = true /\
  writeMetadata (Some []) long_id sample_record
  = Throw (SystemError "ENAMETOOLONG").
Proof. split; reflexivity. Qed.

End RoundTrip.

(* ===================================================================== *)
(** ** Defaults on read (C10) *)

Section Defaults.
Import Metadata Stmt.

Lemma reserve_ok (st : store) (id : Js.str) :
  Js.VALID_SESSION_ID id = true ->
  reserveSessionId st id =
    Ok (negb (existsSync st (Flat id)) && negb (too_long id),
        Some (if existsSync st (Flat id) || too_long id then dir_of st
              else Assoc.put id (EFile []) (dir_of st))).
Proof.
  intros Hv. unfold reserveSessionId, metadataPath.
  rewrite validate_ok by assumption. cbn [rbind].
  destruct st as [d|]; cbn [mkdirParent rbind openExcl existsSync dir_of].
  - destruct (Assoc.has id d); [reflexivity|]. now destruct (too_long id).
  - cbn [Assoc.has Assoc.get]. now destruct (too_long id).
Qed.

(** What a call that returned [true] has done. *)
Lemma reserve_true (st st' : store) (id : Js.str) :
  reserveSessionId st id = Ok (true, st') ->
  Js.VALID_SESSION_ID id = true /\ existsSync st (Flat id) = false /\
  too_long id = false /\
  st' = Some (Assoc.put id (EFile []) (dir_of st)).
Proof.
  intros H. destruct (Js.VALID_SESSION_ID id) eqn:Hv.
  - rewrite reserve_ok in H by assumption.
    destruct (existsSync st (Flat id)); [discriminate|].
    destruct (too_long id); [discriminate|].
    injection H as <-. repeat split.
  - unfold reserveSessionId, metadataPath, validateSessionId in H.
    rewrite Hv in H. discriminate.
Qed.

(** C10: whatever layout the record is found in, a field the file does not
    carry is filled in by readMetadata: status becomes "unknown", which is
    not one of the session statuses, and worktree and branch become the
    empty string; a record that reserveSessionId has just created reads
    back as exactly these defaults. *)
Theorem read_substitutes_defaults :
  (forall st id p content,
      resolveMetadataPath st id = Ok (Some p) ->
      readFileSync st p = Ok content ->
      exists R,
        readMetadata st id = Ok (Some R) /\
        (Assoc.get (Js.lit "status") (parseMetadataFile content) = None ->
         status R = Js.lit "unknown") /\
        (Assoc.get (Js.lit "worktree") (parseMetadataFile content) = None ->
         worktree R = []) /\
        (Assoc.get (Js.lit "branch") (parseMetadataFile content) = None ->
         branch R = [])) /\
  (forall st id st',
      reserveSessionId st id = Ok (true, st') ->
      readMetadata st' id = Ok (Some empty_record)) /\
  ~ In (Js.lit "unknown") Types.SESSION_STATUSES.
Proof.
  split; [|split].
  - intros st id p content Hres Hread.
    exists (record_of_raw (parseMetadataFile content)). split.
    + unfold readMetadata. rewrite Hres. simpl. now rewrite Hread.
    + unfold record_of_raw; simpl.
      repeat split; intros ->; reflexivity.
  - intros st id st' Hres.
    destruct (reserve_true _ _ _ Hres) as (Hv & _ & _ & ->).
    erewrite read_flat_file; [|assumption|apply get_put_eq].
    reflexivity.
  - intros H. vm_compute in H.
    repeat (destruct H as [H|H]; [discriminate|]). exact H.
Qed.

Lemma read_substitutes_defaults_witness :
  reserveSessionId None (Js.lit "app-1")
    = Ok (true, Some [(Js.lit "app-1", EFile [])]) /\
  readMetadata (Some [(Js.lit "app-1", EFile [])]) (Js.lit "app-1")
    = Ok (Some empty_record).
Proof.
  split; [reflexivity|].
  apply (proj1 (proj2 read_substitutes_defaults) None (Js.lit "app-1")).
  reflexivity.
Defined.

End Defaults.

(* ===================================================================== *)
(** ** Reservation (C1) *)

Section Reserve.
Import Metadata Stmt.

Lemma set_nth_length {A} (i : nat) (x : A) (l : list A) :
  List.length (set_nth i x l) = List.length l.
Proof.
  revert i; induction l as [|y l IH]; intros [|i]; simpl; auto.
Qed.

Lemma set_nth_in {A} (i : nat) (x y : A) (l : list A) :
  In y (set_nth i x l) -> y = x \/ In y l.
Proof.
  revert i; induction l as [|z l IH]; intros [|i]; simpl; try tauto.
  - intros [H|H]; auto.
  - intros [H|H]; auto. destruct (IH _ H); auto.
Qed.

Lemma set_nth_wins (i : nat) (p p' : pc) (l : list pc) :
  nth_error l i = Some p ->
  wins (set_nth i p' l) + (if won p then 1 else 0)
  = wins l + (if won p' then 1 else 0).
Proof.
  unfold wins. revert i; induction l as [|z l IH]; intros [|i]; simpl;
    try discriminate.
  - intros [= ->]. destruct (won p), (won p'); simpl; lia.
  - intros H. specialize (IH _ H). destruct (won z); simpl; lia.
Qed.

Lemma race_inv_step (id : Js.str) (s : store * list pc) (i : nat) :
  too_long id = false ->
  race_inv id s -> race_inv id (sched_step id s i).
Proof.
  intros Hfit. destruct s as [st pcs]. intros (Hw & Hdir & Hret).
  unfold sched_step; simpl in *.
  destruct (nth_error pcs i) as [p|] eqn:Hnth; [|now repeat split].
  pose proof (nth_error_In _ _ Hnth) as Hin.
  destruct p as [| |r]; simpl.
  - (* mkdirSync *)
    assert (Hex : existsSync (match st with None => Some [] | Some d => Some d end)
                    (Flat id) = existsSync st (Flat id))
      by now destruct st.
    destruct st as [d|]; simpl in *.
    + pose proof (set_nth_wins i _ AtOpen _ Hnth) as Hc. simpl in Hc.
      unfold race_inv; cbn [fst snd existsSync]. repeat split.
      * rewrite <- Hw. lia.
      * discriminate.
      * intros r Hr. apply set_nth_in in Hr.
        destruct Hr as [Hr|Hr]; [discriminate | now apply (Hret r)].
    + pose proof (set_nth_wins i _ AtOpen _ Hnth) as Hc. simpl in Hc.
      unfold race_inv; simpl. repeat split.
      * lia.
      * discriminate.
      * intros r Hr. apply set_nth_in in Hr.
        destruct Hr as [Hr|Hr]; [discriminate|].
        specialize (Hret _ Hr). discriminate.
  - (* the exclusive open *)
    assert (Hst : st <> None) by (apply (Hdir AtOpen); [assumption | discriminate]).
    destruct st as [d|]; [|contradiction]. simpl in *. rewrite Hfit.
    destruct (Assoc.has id d) eqn:Hhas; simpl.
    + pose proof (set_nth_wins i _ (Returned false) _ Hnth) as Hc. simpl in Hc.
      unfold race_inv; cbn [fst snd existsSync]. rewrite Hhas.
      split; [lia|]. split; [discriminate | reflexivity].
    + pose proof (set_nth_wins i _ (Returned true) _ Hnth) as Hc. simpl in Hc.
      assert (Hnew : Assoc.has id (Assoc.put id (EFile []) d) = true).
      { unfold Assoc.has. now rewrite get_put_eq. }
      unfold race_inv; cbn [fst snd existsSync]. rewrite Hnew.
      split; [lia|]. split; [discriminate | reflexivity].
  - (* already returned *)
    assert (Hsame : set_nth i (Returned r) pcs = pcs).
    { clear -Hnth. revert i Hnth. induction pcs as [|z l IH]; intros [|i]; simpl;
        try discriminate.
      - now intros [= ->].
      - intros H. now rewrite IH. }
    rewrite Hsame. now repeat split.
Qed.

Lemma race_inv_run (id : Js.str) (sched : list nat) (s : store * list pc) :
  too_long id = false ->
  race_inv id s -> race_inv id (run_schedule id sched s).
Proof.
  intros Hfit. unfold run_schedule. revert s.
  induction sched as [|i sched IH]; intros s H; simpl; [exact H|].
  now apply IH, race_inv_step.
Qed.

Lemma lost_inv_step (id : Js.str) (s : store * list pc) (i : nat) :
  too_long id = true ->
  lost_inv id s -> lost_inv id (sched_step id s i).
Proof.
  intros Hlong. destruct s as [st pcs]. intros [Hw Hex].
  unfold sched_step; simpl in *.
  destruct (nth_error pcs i) as [p|] eqn:Hnth; [|now split].
  destruct p as [| |r]; simpl.
  - pose proof (set_nth_wins i _ AtOpen _ Hnth) as Hc. simpl in Hc.
    destruct st as [d|]; unfold lost_inv; cbn [fst snd existsSync];
      (split; [lia|]); [exact Hex | reflexivity].
  - pose proof (set_nth_wins i _ (Returned false) _ Hnth) as Hc. simpl in Hc.
    destruct st as [d|]; cbn [openExcl existsSync] in *.
    + rewrite Hex, Hlong. unfold lost_inv; cbn [fst snd existsSync].
      split; [lia | exact Hex].
    + unfold lost_inv; cbn [fst snd existsSync]. split; [lia | reflexivity].
  - pose proof (set_nth_wins i _ (Returned r) _ Hnth) as Hc.
    unfold lost_inv; cbn [fst snd]. split; [lia | exact Hex].
Qed.

Lemma lost_inv_run (id : Js.str) (sched : list nat) (s : store * list pc) :
  too_long id = true ->
  lost_inv id s -> lost_inv id (run_schedule id sched s).
Proof.
  intros Hlong. unfold run_schedule. revert s.
  induction sched as [|i sched IH]; intros s H; simpl; [exact H|].
  now apply IH, lost_inv_step.
Qed.

Lemma too_long_spec (id : Js.str) :
  too_long id = negb (List.length id <=? 255).
Proof.
  unfold too_long, NAME_MAX.
  destruct (Nat.leb_spec (List.length id) 255) as [H|H]; simpl.
  - now apply Nat.ltb_ge.
  - now apply Nat.ltb_lt.
Qed.

Lemma run_schedule_length (id : Js.str) (sched : list nat)
    (s : store * list pc) :
  List.length (snd (run_schedule id sched s)) = List.length (snd s).
Proof.
  unfold run_schedule. revert s.
  induction sched as [|i sched IH]; intros s; simpl; [reflexivity|].
  rewrite IH. unfold sched_step.
  destruct (nth_error (snd s) i) as [p|]; [|reflexivity].
  destruct (caller_step id (fst s) p) as [st1 p1]. simpl.
  apply set_nth_length.
Qed.

Lemma wins_repeat_mkdir (n : nat) : wins (repeat AtMkdir n) = 0.
Proof. unfold wins. induction n; simpl; auto. Qed.

(** C1, as amended: for a valid session ID, reserveSessionId makes sure the
    data directory exists and tries to create an empty file at the flat
    path with an exclusive open, answering false whenever the open fails.
    It returns true exactly when nothing, file or directory, was at the
    flat path and the ID has at most 255 characters, the longest name the
    file system takes; a record that exists only in a project-scoped
    directory is not looked at. When callers race on an ID whose flat path
    is free, in whatever order the file system serves their calls, exactly
    one of those that returned got true if the ID has at most 255
    characters, and none of them otherwise. *)
Theorem reserve_exclusive_on_flat_path (st : store) (id : Js.str) :
  Js.VALID_SESSION_ID id = true ->
  let free := negb (existsSync st (Flat id)) && (List.length id <=? 255) in
  reserveSessionId st id =
    Ok (free,
        Some (if free then Assoc.put id (EFile []) (dir_of st)
              else dir_of st)) /\
  (forall n sched,
      existsSync st (Flat id) = false ->
      let final := run_schedule id sched (st, repeat AtMkdir n) in
      n >= 1 ->
      forallb returned (snd final) = true ->
      wins (snd final) = if List.length id <=? 255 then 1 else 0).
Proof.
  intros Hv free. split.
  - rewrite reserve_ok by assumption. unfold free.
    rewrite too_long_spec.
    destruct (existsSync st (Flat id)), (List.length id <=? 255); reflexivity.
  - intros n sched Hfree final Hn Hall.
    assert (Hlen : List.length (snd final) = n).
    { unfold final. rewrite run_schedule_length. simpl. apply repeat_length. }
    pose proof (too_long_spec id) as Hspec.
    destruct (List.length id <=? 255); simpl in Hspec.
    + assert (Hinv : race_inv id final).
      { apply race_inv_run; [assumption|]. repeat split; simpl.
        - rewrite Hfree. apply wins_repeat_mkdir.
        - intros p Hp Hne. apply repeat_spec in Hp. contradiction.
        - intros r Hr. apply repeat_spec in Hr. discriminate. }
      destruct Hinv as (Hw & _ & Hret).
      destruct (snd final) as [|p pcs] eqn:E; [simpl in Hlen; lia|].
      simpl in Hall. apply andb_true_iff in Hall. destruct Hall as [Hp _].
      destruct p as [| |r]; try discriminate.
      rewrite (Hret r) in Hw by now left. exact Hw.
    + assert (Hinv : lost_inv id final).
      { apply lost_inv_run; [assumption|]. split; simpl.
        - apply wins_repeat_mkdir.
        - exact Hfree. }
      exact (proj1 Hinv).
Qed.

Lemma reserve_exclusive_on_flat_path_witness :
  Js.VALID_SESSION_ID (Js.lit "app-1") = true /\
  reserveSessionId None (Js.lit "app-1")
    = Ok (true, Some [(Js.lit "app-1", EFile [])]) /\
  wins (snd (run_schedule (Js.lit "app-1") [1; 0; 1; 2; 0; 2]
               (None, repeat AtMkdir 3))) = 1.
Proof.
  split; [reflexivity|].
  destruct (reserve_exclusive_on_flat_path None (Js.lit "app-1") eq_refl)
    as [H1 H2].
  split; [exact H1|].
  apply (H2 3 [1; 0; 1; 2; 0; 2]); [reflexivity | lia | reflexivity].
Defined.

(** A valid session ID of 256 characters is never reserved, although
    nothing is at its flat path. *)
Lemma long_id_is_not_reserved :
  Js.VALID_SESSION_ID long_id = true /\
  existsSync (Some []) (Flat long_id) = false /\
  reserveSessionId (Some []) long_id = Ok (false, Some []).
Proof. split; [reflexivity|]. split; reflexivity. Qed.

(** C1 as stated fails: "app-7" has a record in the project-scoped layout,
    which readMetadata finds, and reserveSessionId still returns true and
    creates a second, empty, flat record that hides the first; "app-9" has
    no record in either layout, and reserveSessionId returns false because
    a directory sits at its flat path. *)
Lemma reserve_ignores_project_layout :
  (exists R, readMetadata project_only_store (Js.lit "app-7") = Ok (Some R)
             /\ status R = Js.lit "working") /\
  (exists st', reserveSessionId project_only_store (Js.lit "app-7")
                 = Ok (true, st')
               /\ readMetadata st' (Js.lit "app-7") = Ok (Some empty_record)) /\
  readMetadata project_only_store (Js.lit "app-9") = Ok None /\
  (exists st', reserveSessionId project_only_store (Js.lit "app-9")
                 = Ok (false, st')).
Proof.
  split; [eexists; split; reflexivity|].
  split; [eexists; split; reflexivity|].
  split; [reflexivity|].
  eexists; reflexivity.
Qed.

End Reserve.

(* ===================================================================== *)
(** ** Listing and the two layouts (C7) *)

Section Layouts.
Import Metadata Stmt.

Lemma mem_true (x : Js.str) (seen : list Js.str) :
  mem x seen = true <-> In x seen.
Proof.
  unfold mem. rewrite existsb_exists. split.
  - intros [y [Hin Heq]]. apply eqb_eq in Heq. now subst.
  - intros H. exists x. split; [assumption | apply eqb_refl].
Qed.

Lemma in_set_add (x y : Js.str) (seen : list Js.str) :
  In x (set_add y seen) <-> x = y \/ In x seen.
Proof.
  unfold set_add. destruct (mem y seen) eqn:E.
  - apply mem_true in E. split; [tauto|]. intros [->|H]; assumption.
  - rewrite in_app_iff. simpl. intuition.
Qed.

Lemma nodup_set_add (y : Js.str) (seen : list Js.str) :
  NoDup seen -> NoDup (set_add y seen).
Proof.
  intros H. unfold set_add. destruct (mem y seen) eqn:E; [assumption|].
  apply NoDup_app; [assumption | repeat constructor; simpl; tauto|].
  intros x Hx [<-|[]]. apply mem_true in Hx. congruence.
Qed.

Lemma scan_project_spec (ch : Assoc.t node) (seen : list Js.str)
    (e x : Js.str) :
  In x (scan_project ch seen e) <-> In x seen \/ (x = e /\ listed_in ch x).
Proof.
  unfold scan_project, listed_in.
  destruct (skipped e) eqn:Hs.
  { split; [tauto|]. intros [H|[-> [H _]]]; [assumption | congruence]. }
  destruct (Js.VALID_SESSION_ID e) eqn:Hv; simpl.
  2:{ split; [tauto|]. intros [H|[-> (_ & H & _)]]; [assumption | congruence]. }
  destruct (Assoc.get e ch) as [[c|]|] eqn:Hg.
  - rewrite in_set_add. split.
    + intros [->|H]; [right | now left]. repeat split; try assumption. now exists c.
    + intros [H|[-> _]]; [now right | now left].
  - split; [tauto|]. intros [H|[-> (_ & _ & c & Hc)]]; [assumption | congruence].
  - split; [tauto|]. intros [H|[-> (_ & _ & c & Hc)]]; [assumption | congruence].
Qed.

Lemma scan_project_nodup (ch : Assoc.t node) (seen : list Js.str) (e : Js.str) :
  NoDup seen -> NoDup (scan_project ch seen e).
Proof.
  intros H. unfold scan_project.
  destruct (skipped e); [assumption|].
  destruct (negb _); [assumption|].
  destruct (Assoc.get e ch) as [[c|]|]; try assumption.
  now apply nodup_set_add.
Qed.

Lemma fold_scan_project_spec (ch : Assoc.t node) (names seen : list Js.str)
    (x : Js.str) :
  In x (fold_left (scan_project ch) names seen)
  <-> In x seen \/ (In x names /\ listed_in ch x).
Proof.
  revert seen. induction names as [|e names IH]; intros seen; simpl.
  - tauto.
  - rewrite IH, scan_project_spec. split.
    + intros [[H|[-> H]]|[H1 H2]]; auto.
    + intros [H|[[<-|H1] H2]]; auto.
Qed.

Lemma fold_scan_project_nodup (ch : Assoc.t node) (names seen : list Js.str) :
  NoDup seen -> NoDup (fold_left (scan_project ch) names seen).
Proof.
  revert seen. induction names as [|e names IH]; intros seen H; simpl.
  - assumption.
  - now apply IH, scan_project_nodup.
Qed.

Lemma scan_entry_spec (d : Assoc.t entry) (seen : list Js.str)
    (name x : Js.str) :
  In x (scan_entry d seen name) <-> In x seen \/ contributes d name x.
Proof.
  unfold scan_entry, contributes.
  destruct (skipped name) eqn:Hs.
  { split; [tauto|]. intros [H|[H _]]; [assumption | congruence]. }
  destruct (Assoc.get name d) as [[c|ch]|] eqn:Hg.
  - destruct (Js.VALID_SESSION_ID name) eqn:Hv.
    + rewrite in_set_add. split.
      * intros [->|H]; [right | now left]. split; [reflexivity|]. left.
        repeat split; try assumption. now exists c.
      * intros [H|[_ [(_ & _ & ->)|(ch & Hch & _)]]];
          [now right | now left | congruence].
    + split; [tauto|].
      intros [H|[_ [(_ & H & _)|(ch & Hch & _)]]];
        [assumption | congruence | congruence].
  - destruct (Js.ends_with SESSIONS_SUFFIX name) eqn:He.
    + rewrite fold_scan_project_spec. split.
      * intros [H|[H1 H2]]; [now left | right]. split; [reflexivity|]. right.
        exists ch. split; [reflexivity|]. split; [reflexivity|].
        split; assumption.
      * intros [H|[_ [((c & Hc) & _)|(ch' & Hch & _ & H1 & H2)]]];
          [now left | congruence |].
        injection Hch as <-. now right.
    + split; [tauto|].
      intros [H|[_ [((c & Hc) & _)|(ch' & _ & H & _)]]];
        [assumption | congruence | congruence].
  - split; [tauto|].
    intros [H|[_ [((c & Hc) & _)|(ch' & Hch & _)]]];
      [assumption | congruence | congruence].
Qed.

Lemma scan_entry_nodup (d : Assoc.t entry) (seen : list Js.str) (name : Js.str) :
  NoDup seen -> NoDup (scan_entry d seen name).
Proof.
  intros H. unfold scan_entry.
  destruct (skipped name); [assumption|].
  destruct (Assoc.get name d) as [[c|ch]|]; try assumption.
  - destruct (Js.VALID_SESSION_ID name); [now apply nodup_set_add | assumption].
  - destruct (Js.ends_with _ _); [now apply fold_scan_project_nodup | assumption].
Qed.

Lemma fold_scan_entry_spec (d : Assoc.t entry) (names seen : list Js.str)
    (x : Js.str) :
  In x (fold_left (scan_entry d) names seen)
  <-> In x seen \/ exists name, In name names /\ contributes d name x.
Proof.
  revert seen. induction names as [|e names IH]; intros seen; simpl.
  - split; [tauto|]. intros [H|[name [[] _]]]. assumption.
  - rewrite IH, scan_entry_spec. split.
    + intros [[H|H]|[name [H1 H2]]]; auto.
      * right. exists e. auto.
      * right. exists name. auto.
    + intros [H|[name [[<-|H1] H2]]]; auto.
      right. exists name. auto.
Qed.

Lemma fold_scan_entry_nodup (d : Assoc.t entry) (names seen : list Js.str) :
  NoDup seen -> NoDup (fold_left (scan_entry d) names seen).
Proof.
  revert seen. induction names as [|e names IH]; intros seen H; simpl.
  - assumption.
  - now apply IH, scan_entry_nodup.
Qed.

End Layouts.

Section Resolve.
Import Metadata Stmt.

Lemma find_candidate_some (st : store) (names : list Js.str) (id : Js.str)
    (p : path) :
  find_candidate st names id = Some p ->
  exists dir, p = InProject dir id /\ In dir names
              /\ Js.ends_with SESSIONS_SUFFIX dir = true
              /\ isFile st (InProject dir id) = true.
Proof.
  induction names as [|e names IH]; simpl; [discriminate|].
  destruct (Js.ends_with SESSIONS_SUFFIX e) eqn:He; simpl.
  - destruct (isFile st (InProject e id)) eqn:Hf.
    + intros [= <-]. exists e. auto.
    + intros H. destruct (IH H) as (dir & ? & ? & ? & ?). exists dir. auto.
  - intros H. destruct (IH H) as (dir & ? & ? & ? & ?). exists dir. auto.
Qed.

Lemma find_candidate_none (st : store) (names : list Js.str) (id dir : Js.str) :
  find_candidate st names id = None ->
  In dir names -> Js.ends_with SESSIONS_SUFFIX dir = true ->
  isFile st (InProject dir id) = false.
Proof.
  induction names as [|e names IH]; simpl; [tauto|].
  destruct (Js.ends_with SESSIONS_SUFFIX e) eqn:He; simpl.
  - destruct (isFile st (InProject e id)) eqn:Hf; [discriminate|].
    intros H [<-|Hin] Hd; [assumption | now apply IH].
  - intros H [<-|Hin] Hd; [congruence | now apply IH].
Qed.

(** The candidate found depends on the store only through which of the
    project paths are files. *)
Lemma find_candidate_ext (st st' : store) (names : list Js.str) (id : Js.str) :
  (forall dir, isFile st' (InProject dir id) = isFile st (InProject dir id)) ->
  find_candidate st' names id = find_candidate st names id.
Proof.
  intros H. induction names as [|e names IH]; simpl; [reflexivity|].
  now rewrite H, IH.
Qed.

Lemma isFile_in_project_keys (d : Assoc.t entry) (dir id : Js.str) :
  isFile (Some d) (InProject dir id) = true -> In dir (Assoc.keys d).
Proof.
  simpl. destruct (Assoc.get dir d) as [e|] eqn:E; [|discriminate].
  intros _. apply get_some_in in E. now apply (in_map fst) in E.
Qed.

Lemma isFile_read (st : store) (p : path) :
  isFile st p = true -> exists c, readFileSync st p = Ok c.
Proof.
  destruct st as [d|], p as [id|dir id]; simpl; try discriminate.
  - destruct (Assoc.get id d) as [[c|ch]|]; try discriminate.
    now exists (decode c).
  - destruct (Assoc.get dir d) as [[c|ch]|]; try discriminate.
    destruct (Assoc.get id ch) as [[c|]|]; try discriminate.
    now exists (decode c).
Qed.

(** What is read from a file is a well-formed string. *)
Lemma read_well_formed (st : store) (p : path) (c : Js.str) :
  readFileSync st p = Ok c -> Js.isWellFormed c = true.
Proof.
  destruct st as [d|], p as [id|dir id]; simpl; try discriminate.
  - destruct (Assoc.get id d) as [[c0|ch]|]; try discriminate.
    intros [= <-]. apply decode_is_well_formed.
  - destruct (Assoc.get dir d) as [[c0|ch]|]; try discriminate.
    destruct (Assoc.get id ch) as [[c0|]|]; try discriminate.
    intros [= <-]. apply decode_is_well_formed.
Qed.

Lemma isFile_exists (st : store) (p : path) :
  isFile st p = true -> existsSync st p = true.
Proof.
  destruct st as [d|], p as [id|dir id]; simpl; try discriminate.
  - unfold Assoc.has. now destruct (Assoc.get id d) as [[c|ch]|].
  - destruct (Assoc.get dir d) as [[c|ch]|]; try discriminate.
    unfold Assoc.has. now destruct (Assoc.get id ch) as [[c|]|].
Qed.

Lemma resolve_some (st : store) (id : Js.str) (p : path) :
  resolveMetadataPath st id = Ok (Some p) ->
  Js.VALID_SESSION_ID id = true /\ isFile st p = true /\
  (p = Flat id \/
   isFile st (Flat id) = false /\
   exists dir, p = InProject dir id
               /\ Js.ends_with SESSIONS_SUFFIX dir = true).
Proof.
  unfold resolveMetadataPath, validateSessionId.
  destruct (Js.VALID_SESSION_ID id); simpl; [|discriminate].
  destruct (isFile st (Flat id)) eqn:Hf.
  - intros [= <-]. auto.
  - destruct st as [d|]; [|discriminate]. intros [= H].
    apply find_candidate_some in H.
    destruct H as (dir & -> & _ & He & Hi). repeat split; try assumption.
    right. split; [reflexivity|]. now exists dir.
Qed.

Lemma resolve_none (st : store) (id : Js.str) :
  resolveMetadataPath st id = Ok None ->
  isFile st (Flat id) = false /\
  forall dir, Js.ends_with SESSIONS_SUFFIX dir = true ->
              isFile st (InProject dir id) = false.
Proof.
  unfold resolveMetadataPath, validateSessionId.
  destruct (Js.VALID_SESSION_ID id); simpl; [|discriminate].
  destruct (isFile st (Flat id)) eqn:Hf; [discriminate|].
  destruct st as [d|].
  - intros [= H]. split; [reflexivity|]. intros dir He.
    destruct (isFile (Some d) (InProject dir id)) eqn:Hi; [|reflexivity].
    pose proof (isFile_in_project_keys _ _ _ Hi) as Hk.
    pose proof (find_candidate_none (Some d) _ id dir H Hk He) as Hx.
    congruence.
  - intros _. split; reflexivity.
Qed.

Lemma resolve_total (st : store) (id : Js.str) :
  Js.VALID_SESSION_ID id = true ->
  exists r, resolveMetadataPath st id = Ok r.
Proof.
  intros Hv. unfold resolveMetadataPath. rewrite validate_ok by assumption.
  simpl. destruct (isFile st (Flat id)); [eauto|].
  destruct st; eauto.
Qed.

(** readMetadata finds a record exactly when it is stored in one of the
    two layouts. *)
Lemma read_finds_both_layouts (st : store) (id : Js.str) :
  Js.VALID_SESSION_ID id = true ->
  (exists R, readMetadata st id = Ok (Some R))
  <-> stored_flat st id \/ stored_in_project st id.
Proof.
  intros Hv. unfold stored_flat, stored_in_project, readMetadata. split.
  - intros [R H].
    destruct (resolve_total st id Hv) as [[p|] Hr]; rewrite Hr in H; simpl in H;
      [|discriminate].
    apply resolve_some in Hr.
    destruct Hr as (_ & Hf & [->|(_ & dir & -> & He)]); [now left|].
    right. now exists dir.
  - intros H.
    destruct (resolve_total st id Hv) as [[p|] Hr]; rewrite Hr; simpl.
    + apply resolve_some in Hr. destruct Hr as (_ & Hf & _).
      destruct (isFile_read _ _ Hf) as [c Hc]. rewrite Hc. simpl. eauto.
    + exfalso. apply resolve_none in Hr. destruct Hr as [H1 H2].
      destruct H as [H|(dir & He & Hi)]; [congruence|].
      rewrite (H2 dir He) in Hi. discriminate.
Qed.

Lemma valid_not_dot (id : Js.str) :
  Js.VALID_SESSION_ID id = true -> Js.starts_with [Js.DOT] id = false.
Proof.
  destruct id as [|c s]; [discriminate|]. simpl.
  intros H. apply andb_true_iff in H. destruct H as [Hc _].
  destruct (N.eqb_spec Js.DOT c) as [<-|]; [discriminate | reflexivity].
Qed.

Lemma sessions_dir_not_archive (dir : Js.str) :
  Js.ends_with SESSIONS_SUFFIX dir = true -> Js.eqb dir ARCHIVE = false.
Proof.
  intros H. destruct (eqb_spec dir ARCHIVE) as [->|]; [discriminate | reflexivity].
Qed.

(** C7, as amended: listMetadata returns, without duplicates, exactly the
    valid session IDs other than "archive" that have a flat file or a file
    in a "-sessions" directory whose name does not start with a dot;
    readMetadata finds a record stored in either layout, hidden
    directories and the name "archive" included; writeMetadata always
    writes the flat file and leaves every other entry alone, while
    updateMetadata rewrites a record found in a project directory where
    it is and creates no flat file. *)
Theorem list_and_layouts (st : store) :
  NoDup (listMetadata st) /\
  (forall id,
      In id (listMetadata st)
      <-> Js.VALID_SESSION_ID id = true /\ id <> ARCHIVE /\
          (stored_flat st id \/ stored_in_visible_project st id)) /\
  (forall id,
      Js.VALID_SESSION_ID id = true ->
      ((exists R, readMetadata st id = Ok (Some R))
       <-> stored_flat st id \/ stored_in_project st id)) /\
  (forall id R st',
      writeMetadata st id R = Ok st' ->
      stored_flat st' id /\
      forall name, name <> id ->
                   Assoc.get name (dir_of st') = Assoc.get name (dir_of st)) /\
  (forall id updates st' dir,
      resolveMetadataPath st id = Ok (Some (InProject dir id)) ->
      updateMetadata st id updates = Ok st' ->
      isFile st' (InProject dir id) = true /\ isFile st' (Flat id) = false).
Proof.
  split; [|split; [|split; [|split]]].
  - destruct st as [d|]; simpl; [|constructor].
    apply fold_scan_entry_nodup. constructor.
  - intros id. destruct st as [d|]; simpl.
    2:{ split; [tauto|]. unfold stored_flat, stored_in_visible_project.
        simpl. intros (_ & _ & [H|(dir & _ & _ & H)]); discriminate. }
    rewrite fold_scan_entry_spec. unfold contributes, listed_in, skipped.
    unfold stored_flat, stored_in_visible_project. simpl. split.
    + intros [[]|(name & Hin & Hs & [((c & Hc) & Hv & ->)|H])].
      * apply orb_false_iff in Hs. destruct Hs as [Ha _].
        apply eqb_neq in Ha. repeat split; try assumption.
        left. now rewrite Hc.
      * destruct H as (ch & Hch & He & Hk & Hs' & Hv & c & Hc).
        apply orb_false_iff in Hs'. destruct Hs' as [Ha _].
        apply eqb_neq in Ha. repeat split; try assumption.
        right. exists name. apply orb_false_iff in Hs.
        repeat split; try tauto. now rewrite Hch, Hc.
    + intros (Hv & Ha & [H|(dir & Hdot & He & H)]); right.
      * exists id.
        destruct (Assoc.get id d) as [[c|ch]|] eqn:Hg; try discriminate.
        split; [apply get_some_in in Hg; now apply (in_map fst) in Hg|].
        split.
        -- apply orb_false_iff. split; [now apply eqb_neq | now apply valid_not_dot].
        -- left. repeat split; try assumption. now exists c.
      * exists dir.
        destruct (Assoc.get dir d) as [[c|ch]|] eqn:Hg; try discriminate.
        destruct (Assoc.get id ch) as [[c|]|] eqn:Hg'; try discriminate.
        split; [apply get_some_in in Hg; now apply (in_map fst) in Hg|].
        split.
        -- apply orb_false_iff. split; [now apply sessions_dir_not_archive | assumption].
        -- right. exists ch. split; [reflexivity|]. split; [assumption|].
           split; [apply get_some_in in Hg'; now apply (in_map fst) in Hg'|].
           split; [|split; [assumption | now exists c]].
           apply orb_false_iff. split; [now apply eqb_neq | now apply valid_not_dot].
  - intros id Hv. now apply read_finds_both_layouts.
  - intros id R st' Hw. unfold writeMetadata, metadataPath, validateSessionId in Hw.
    destruct (Js.VALID_SESSION_ID id); simpl in Hw; [|discriminate].
    unfold stored_flat.
    destruct st as [d|]; simpl in Hw.
    + destruct (Assoc.get id d) as [[c|ch]|] eqn:Hg; try discriminate;
        [|destruct (too_long id); [discriminate|]];
        injection Hw as <-; simpl; rewrite get_put_eq;
        (split; [reflexivity|]); intros name Hne; apply get_put_ne; congruence.
    + destruct (too_long id); [discriminate|].
      injection Hw as <-. simpl. rewrite eqb_refl. split; [reflexivity|].
      intros name Hne. destruct (eqb_spec id name); [congruence | reflexivity].
  - intros id updates st' dir Hres Hup.
    pose proof (resolve_some _ _ _ Hres) as (Hv & Hf & [Hp|(Hflat & _)]);
      [discriminate|].
    unfold updateMetadata in Hup. rewrite Hres in Hup. simpl rbind in Hup.
    rewrite (isFile_exists _ _ Hf) in Hup.
    destruct (isFile_read _ _ Hf) as [c Hc]. rewrite Hc in Hup.
    simpl rbind in Hup.
    destruct st as [d|]; [|discriminate]. simpl in Hf, Hflat, Hup.
    destruct (Assoc.get dir d) as [[c0|ch]|] eqn:Hg; try discriminate.
    simpl in Hup. rewrite Hg in Hup.
    destruct (Assoc.get id ch) as [[c0|]|] eqn:Hg'; try discriminate.
    injection Hup as <-. simpl. rewrite get_put_eq, get_put_eq.
    split; [reflexivity|].
    destruct (eqb_spec dir id) as [->|Hne].
    + now rewrite get_put_eq.
    + rewrite get_put_ne by assumption. exact Hflat.
Qed.

End Resolve.

Lemma list_and_layouts_witness :
  In (Js.lit "app-3") (Metadata.listMetadata Stmt.mixed_store) /\
  exists R, Metadata.readMetadata Stmt.mixed_store (Js.lit "app-2") = Ok (Some R).
Proof.
  destruct (list_and_layouts Stmt.mixed_store) as (_ & Hl & Hr & _). split.
  - apply Hl. split; [reflexivity|]. split; [discriminate|].
    right. exists (Js.lit "app-sessions"). repeat split; reflexivity.
  - apply Hr; [reflexivity|].
    right. exists (Js.lit ".old-sessions"). split; reflexivity.
Defined.

(** C7 as stated fails: "app-2", stored in the hidden directory
    ".old-sessions", and "archive", stored in "app-sessions", are found by
    readMetadata and are not listed; and updateMetadata on "app-3", which
    lives in "app-sessions", writes there and not to the flat location. *)
Lemma list_misses_and_update_in_place :
  Metadata.listMetadata Stmt.mixed_store = [Js.lit "app-1"; Js.lit "app-3"] /\
  (exists R, Metadata.readMetadata Stmt.mixed_store (Js.lit "app-2") = Ok (Some R)
             /\ Metadata.status R = Js.lit "done") /\
  (exists R, Metadata.readMetadata Stmt.mixed_store (Js.lit "archive") = Ok (Some R)
             /\ Metadata.status R = Js.lit "killed") /\
  (exists st',
      Metadata.updateMetadata Stmt.mixed_store (Js.lit "app-3")
        [(Js.lit "status", Some (Js.lit "done"))] = Ok st'
      /\ Metadata.isFile st' (Metadata.Flat (Js.lit "app-3")) = false
      /\ Metadata.readFileSync st'
           (Metadata.InProject (Js.lit "app-sessions") (Js.lit "app-3"))
         = Ok (Js.lit "status=done" ++ [Js.NL])).
Proof.
  split; [reflexivity|].
  split; [eexists; split; reflexivity|].
  split; [eexists; split; reflexivity|].
  eexists. split; [reflexivity|]. split; reflexivity.
Qed.

(* ===================================================================== *)
(** ** Updating a record (C3) *)

Section Update.
Import Metadata Stmt.

Lemma in_firstn {A} (x : A) (n : nat) (l : list A) :
  In x (firstn n l) -> In x l.
Proof.
  rewrite <- (firstn_skipn n l) at 2. rewrite in_app_iff. tauto.
Qed.

Lemma in_skipn {A} (x : A) (n : nat) (l : list A) :
  In x (skipn n l) -> In x l.
Proof.
  rewrite <- (firstn_skipn n l) at 2. rewrite in_app_iff. tauto.
Qed.

Lemma has_unit_false_intro (c : N) (s : Js.str) :
  ~ In c s -> has_unit c s = false.
Proof. apply has_unit_false. Qed.

(** Every key and value parseMetadataFile stores is clean. *)
Lemma parse_line_clean (o : Obj.t Js.str) (line : Js.str) :
  ~ In Js.NL line ->
  NoDup (Assoc.keys o) -> Forall clean_entry o ->
  NoDup (Assoc.keys (parse_line o line))
  /\ Forall clean_entry (parse_line o line).
Proof.
  intros Hnl Hnd Hcl. unfold parse_line.
  destruct (Js.trim line) as [|c r] eqn:Et; [now split|].
  destruct (Js.starts_with [Js.HASH] (c :: r)) eqn:Hh; [now split|].
  destruct (Js.index_of Js.EQ (c :: r)) as [i|] eqn:Ei; [|now split].
  destruct (Js.trim (firstn i (c :: r))) as [|kc kr] eqn:Ek; [now split|].
  unfold Obj.set.
  destruct (Js.eqb (kc :: kr) Obj.PROTO) eqn:Ep; [now split|].
  split; [now apply nodup_keys_put|].
  apply forall_put; [|assumption].
  destruct (index_of_some _ _ _ Ei) as [Hdec Hnoeq].
  assert (Hws : Js.is_ws c = false) by (eapply trim_head; eassumption).
  assert (Hinline : forall x, In x (c :: r) -> In x line).
  { intros x Hx. apply in_trim. now rewrite Et. }
  assert (Hhash : Js.starts_with [Js.HASH] (kc :: kr) = false).
  { destruct i as [|j]; [discriminate|].
    simpl firstn in Ek. unfold Js.trim in Ek.
    simpl Js.ltrim in Ek. rewrite Hws in Ek.
    rewrite rtrim_cons_stop in Ek by assumption.
    injection Ek as <- _. exact Hh. }
  set (key := kc :: kr) in *.
  assert (Hne : nonempty key = true) by reflexivity.
  clearbody key.
  assert (Htk : Js.trim key = key) by (rewrite <- Ek; apply trim_idem).
  split; simpl fst; simpl snd.
  - unfold clean_key. rewrite Hne, Htk, eqb_refl, Hhash, Ep. simpl.
    rewrite !andb_true_r. apply andb_true_iff; split.
    + apply negb_true_iff, has_unit_false_intro. intros Hin.
      apply Hnoeq. apply in_trim. now rewrite Ek.
    + apply negb_true_iff, has_unit_false_intro. intros Hin.
      apply Hnl, Hinline, (in_firstn _ i), in_trim. now rewrite Ek.
  - unfold clean_value. rewrite trim_idem, eqb_refl. simpl.
    apply negb_true_iff, has_unit_false_intro. intros Hin.
    apply Hnl, Hinline, (in_skipn _ (i + 1)), in_trim, Hin.
Qed.

Lemma fold_parse_clean (lines : list Js.str) (o : Obj.t Js.str) :
  Forall (fun l => ~ In Js.NL l) lines ->
  NoDup (Assoc.keys o) -> Forall clean_entry o ->
  NoDup (Assoc.keys (fold_left parse_line lines o))
  /\ Forall clean_entry (fold_left parse_line lines o).
Proof.
  intros H. revert o. induction H as [|l lines Hl _ IH]; intros o Hnd Hcl; simpl.
  - now split.
  - destruct (parse_line_clean o l Hl Hnd Hcl) as [H1 H2]. now apply IH.
Qed.

Lemma parse_clean (content : Js.str) :
  NoDup (Assoc.keys (parseMetadataFile content))
  /\ Forall clean_entry (parseMetadataFile content).
Proof.
  apply fold_parse_clean; try constructor.
  apply Forall_forall. intros l. apply split_nl_no_newline.
Qed.

(** Every key and value parsed from a well-formed text is well
    formed. *)
Lemma parse_line_well_formed (o : Obj.t Js.str) (line : Js.str) :
  Js.isWellFormed line = true -> Forall well_formed_entry o ->
  Forall well_formed_entry (parse_line o line).
Proof.
  intros Hl Ho. unfold parse_line.
  pose proof (isWellFormed_trim _ Hl) as Ht.
  destruct (Js.trim line) as [|c r] eqn:Et; [assumption|].
  destruct (Js.starts_with [Js.HASH] (c :: r)); [assumption|].
  destruct (Js.index_of Js.EQ (c :: r)) as [i|] eqn:Ei; [|assumption].
  destruct (isWellFormed_sides Js.EQ (c :: r) i eq_refl Ei Ht) as [Hk Hv].
  destruct (Js.trim (firstn i (c :: r))) as [|kc kr] eqn:Ek; [assumption|].
  unfold Obj.set. destruct (Js.eqb (kc :: kr) Obj.PROTO); [assumption|].
  apply forall_put; [|assumption]. split; cbn [fst snd].
  - rewrite <- Ek. now apply isWellFormed_trim.
  - now apply isWellFormed_trim.
Qed.

Lemma parse_well_formed (content : Js.str) :
  Js.isWellFormed content = true ->
  Forall well_formed_entry (parseMetadataFile content).
Proof.
  intros H. apply isWellFormed_split_nl in H. unfold parseMetadataFile.
  assert (Hgen : forall o, Forall well_formed_entry o ->
            Forall well_formed_entry
              (fold_left parse_line (Js.split_nl content) o)).
  { induction H as [|l ls Hl _ IH]; intros o Ho; simpl; [assumption|].
    now apply IH, parse_line_well_formed. }
  apply Hgen. constructor.
Qed.

(** *** The merge loop *)

Lemma merge_entry_well_formed (o : Obj.t Js.str)
    (kv : Js.str * option Js.str) :
  Forall well_formed_entry o -> well_formed_update kv = true ->
  Forall well_formed_entry (merge_entry o kv).
Proof.
  intros Ho Hu. destruct kv as [k [[|c s]|]]; unfold merge_entry; simpl.
  - apply Forall_forall. intros kv Hin. apply in_remove in Hin.
    destruct Hin as [Hin _]. apply (proj1 (in_entries _ _ _)) in Hin.
    rewrite Forall_forall in Ho. now apply Ho.
  - unfold well_formed_update in Hu. cbn [fst snd] in Hu.
    apply andb_true_iff in Hu.
    unfold Obj.set. destruct (Js.eqb k Obj.PROTO); [assumption|].
    apply forall_put; [exact Hu | assumption].
  - assumption.
Qed.

Lemma fold_merge_well_formed (us : list (Js.str * option Js.str))
    (o : Obj.t Js.str) :
  forallb well_formed_update us = true ->
  Forall well_formed_entry o ->
  Forall well_formed_entry (fold_left merge_entry us o).
Proof.
  revert o. induction us as [|kv us IH]; intros o Hu Ho; simpl;
    [assumption|].
  simpl in Hu. apply andb_true_iff in Hu. destruct Hu as [H1 H2].
  now apply IH, merge_entry_well_formed.
Qed.

Lemma clean_update_some (k v : Js.str) :
  v <> [] -> clean_update (k, Some v) = true ->
  clean_key k = true /\ clean_value v = true.
Proof.
  unfold clean_update; simpl. destruct v; [congruence|].
  intros _ H. now apply andb_true_iff in H.
Qed.

Lemma merge_entry_inv (o : Obj.t Js.str) (kv : Js.str * option Js.str) :
  NoDup (Assoc.keys o) -> Forall clean_entry o -> clean_update kv = true ->
  NoDup (Assoc.keys (merge_entry o kv)) /\ Forall clean_entry (merge_entry o kv).
Proof.
  intros Hnd Hcl Hu. destruct kv as [k [[|c s]|]]; unfold merge_entry; simpl.
  - split; [now apply nodup_keys_rest_without|].
    apply Forall_forall. intros kv Hin. apply in_remove in Hin.
    destruct Hin as [Hin _]. apply (proj1 (in_entries _ _ _)) in Hin.
    rewrite Forall_forall in Hcl. now apply Hcl.
  - destruct (clean_update_some k (c :: s)) as [Hk Hv];
      [discriminate | assumption |].
    split; [now apply nodup_keys_set|].
    rewrite set_not_proto by (now apply clean_key_spec in Hk).
    apply forall_put; [now split | assumption].
  - now split.
Qed.

Lemma get_merge_entry (o : Obj.t Js.str) (kv : Js.str * option Js.str)
    (k : Js.str) :
  NoDup (Assoc.keys o) -> clean_update kv = true ->
  Assoc.get k (merge_entry o kv) =
    if Js.eqb (fst kv) k then
      match snd kv with
      | None => Assoc.get k o
      | Some [] => None
      | Some v => Some v
      end
    else Assoc.get k o.
Proof.
  intros Hnd Hu. destruct kv as [k' [[|c s]|]]; unfold merge_entry; simpl.
  - destruct (eqb_spec k' k) as [->|Hne].
    + apply get_rest_without_eq.
    + now apply get_rest_without_ne.
  - destruct (clean_update_some k' (c :: s)) as [Hk Hv];
      [discriminate | assumption |].
    rewrite set_not_proto by (now apply clean_key_spec in Hk).
    destruct (eqb_spec k' k) as [->|Hne].
    + apply get_put_eq.
    + now apply get_put_ne.
  - now destruct (Js.eqb k' k).
Qed.

Lemma get_fold_merge (us : list (Js.str * option Js.str)) (o : Obj.t Js.str)
    (k : Js.str) :
  NoDup (Assoc.keys us) -> forallb clean_update us = true ->
  NoDup (Assoc.keys o) -> Forall clean_entry o ->
  Assoc.get k (fold_left merge_entry us o) =
    match Assoc.get k us with
    | Some (Some (c :: s)) => Some (c :: s)
    | Some (Some []) => None
    | _ => Assoc.get k o
    end.
Proof.
  revert o. induction us as [|[k' v'] us IH]; intros o Hndu Hcu Hnd Hcl; simpl.
  - reflexivity.
  - simpl in Hcu. apply andb_true_iff in Hcu. destruct Hcu as [Hc1 Hc2].
    inversion Hndu as [|? ? Hnotin Hndu']; subst.
    destruct (merge_entry_inv o (k', v') Hnd Hcl Hc1) as [Hnd1 Hcl1].
    rewrite IH by assumption.
    rewrite get_merge_entry by assumption. simpl fst; simpl snd.
    destruct (eqb_spec k' k) as [->|Hne].
    + apply get_none_keys in Hnotin. rewrite Hnotin.
      now destruct v' as [[|c s]|].
    + reflexivity.
Qed.

Lemma fold_merge_inv (us : list (Js.str * option Js.str)) (o : Obj.t Js.str) :
  forallb clean_update us = true ->
  NoDup (Assoc.keys o) -> Forall clean_entry o ->
  NoDup (Assoc.keys (fold_left merge_entry us o))
  /\ Forall clean_entry (fold_left merge_entry us o).
Proof.
  revert o. induction us as [|kv us IH]; intros o Hcu Hnd Hcl; simpl.
  - now split.
  - simpl in Hcu. apply andb_true_iff in Hcu. destruct Hcu as [Hc1 Hc2].
    destruct (merge_entry_inv o kv Hnd Hcl Hc1) as [Hnd1 Hcl1].
    now apply IH.
Qed.

End Update.

Section UpdateStore.
Import Metadata Stmt.

Lemma resolve_not_flat (d : Assoc.t entry) (id : Js.str) :
  Js.VALID_SESSION_ID id = true ->
  isFile (Some d) (Flat id) = false ->
  resolveMetadataPath (Some d) id
  = Ok (find_candidate (Some d) (Assoc.keys d) id).
Proof.
  intros Hv Hf. unfold resolveMetadataPath.
  rewrite validate_ok by assumption. cbn [rbind]. now rewrite Hf.
Qed.

(** Writing the file a record was found in keeps it where it is. *)
Lemma write_resolved (st : store) (id : Js.str) (p : path) (content : Js.str) :
  resolveMetadataPath st id = Ok (Some p) ->
  exists st',
    (let* st1 := mkdirParent st p in writeFileSync st1 p content) = Ok st'
    /\ resolveMetadataPath st' id = Ok (Some p)
    /\ readFileSync st' p = Ok (encode content).
Proof.
  intros Hres.
  destruct (resolve_some _ _ _ Hres) as (Hv & Hf & [->|(Hflat & dir & -> & He)]).
  - destruct st as [d|]; [|discriminate]. simpl in Hf.
    destruct (Assoc.get id d) as [[c|ch]|] eqn:Hg; try discriminate.
    exists (Some (Assoc.put id (EFile (encode content)) d)). simpl. rewrite Hg.
    split; [reflexivity|]. split.
    + apply (resolve_flat_file _ _ (encode content));
        [assumption | apply get_put_eq].
    + now rewrite get_put_eq, decode_encode.
  - destruct st as [d|]; [|discriminate]. simpl in Hf.
    destruct (Assoc.get dir d) as [[c|ch]|] eqn:Hg; try discriminate.
    destruct (Assoc.get id ch) as [[c|]|] eqn:Hg'; try discriminate.
    set (d' := Assoc.put dir
                 (EDir (Assoc.put id (File (encode content)) ch)) d).
    exists (Some d'). simpl. rewrite Hg. simpl. rewrite Hg, Hg'.
    split; [reflexivity|].
    assert (Hflat' : isFile (Some d') (Flat id) = false).
    { simpl. unfold d'. destruct (eqb_spec dir id) as [->|Hne].
      - now rewrite get_put_eq.
      - rewrite get_put_ne by assumption. exact Hflat. }
    split.
    + rewrite resolve_not_flat by assumption.
      rewrite resolve_not_flat in Hres by assumption.
      injection Hres as Hres. rewrite <- Hres.
      assert (Hkeys : Assoc.keys d' = Assoc.keys d).
      { unfold d'. apply keys_put_in. apply get_some_in in Hg.
        now apply (in_map fst) in Hg. }
      rewrite Hkeys. f_equal. apply find_candidate_ext.
      intros dir'. simpl. unfold d'.
      destruct (eqb_spec dir dir') as [<-|Hne].
      * now rewrite get_put_eq, get_put_eq, Hg, Hg'.
      * now rewrite get_put_ne by assumption.
    + unfold d'. now rewrite get_put_eq, get_put_eq, decode_encode.
Qed.

Lemma read_raw_some (st : store) (id : Js.str) (raw : Obj.t Js.str) :
  readMetadataRaw st id = Ok (Some raw) ->
  exists p content,
    resolveMetadataPath st id = Ok (Some p)
    /\ readFileSync st p = Ok content
    /\ raw = parseMetadataFile content.
Proof.
  unfold readMetadataRaw.
  destruct (resolveMetadataPath st id) as [[p|]|e]; simpl; try discriminate.
  destruct (readFileSync st p) as [content|e] eqn:Hc; simpl; [|discriminate].
  intros [= <-]. now exists p, content.
Qed.

(** C3, as amended: for an existing record and a partial update whose keys
    are distinct, and in which every key that gets a non-empty value is
    clean (not empty, no = or newline, no white space at either end, not
    starting with #), the value has no newline and no white space at
    either end, and both are well-formed strings (no surrogate without
    its partner, which the "utf-8" encoding would replace),
    updateMetadata rewrites the record where it was found so that every
    such key has its new value, every key set to the empty string is
    gone, and every field the update does not name keeps its value,
    except that a field whose value was empty is dropped. *)
Theorem update_merges_fields
    (st : store) (id : Js.str) (updates : Obj.t (option Js.str))
    (raw : Obj.t Js.str) :
  readMetadataRaw st id = Ok (Some raw) ->
  NoDup (Assoc.keys updates) ->
  clean_updates updates = true ->
  well_formed_updates updates = true ->
  exists st' raw',
    updateMetadata st id updates = Ok st'
    /\ readMetadataRaw st' id = Ok (Some raw')
    /\ forall k, Assoc.get k raw' = merged_field updates raw k.
Proof.
  intros Hread Hnd Hclean Hwf.
  destruct (read_raw_some _ _ _ Hread) as (p & content & Hres & Hc & ->).
  set (raw := parseMetadataFile content).
  set (merged := fold_left merge_entry (Obj.entries updates) raw).
  destruct (write_resolved st id p (serializeMetadata merged) Hres)
    as (st' & Hw & Hres' & Hc').
  destruct (resolve_some _ _ _ Hres) as (_ & Hf & _).
  destruct (parse_clean content) as [Hrnd Hrcl]. fold raw in Hrnd, Hrcl.
  assert (Hucl : forallb clean_update (Obj.entries updates) = true).
  { apply forallb_forall. intros kv Hin.
    apply (proj1 (in_entries _ _ _)) in Hin.
    unfold clean_updates in Hclean.
    rewrite forallb_forall in Hclean. now apply Hclean. }
  assert (Huwf : forallb well_formed_update (Obj.entries updates) = true).
  { apply forallb_forall. intros kv Hin.
    apply (proj1 (in_entries _ _ _)) in Hin.
    unfold well_formed_updates in Hwf.
    rewrite forallb_forall in Hwf. now apply Hwf. }
  assert (Hund : NoDup (Assoc.keys (Obj.entries updates)))
    by now apply nodup_keys_entries.
  destruct (fold_merge_inv (Obj.entries updates) raw Hucl Hrnd Hrcl)
    as [Hmnd Hmcl]. fold merged in Hmnd, Hmcl.
  assert (Hmwf : Js.isWellFormed (serializeMetadata merged) = true).
  { apply serialize_well_formed, fold_merge_well_formed; [assumption|].
    apply parse_well_formed. eapply read_well_formed, Hc. }
  rewrite (encode_well_formed _ Hmwf) in Hc'.
  exists st', (parseMetadataFile (serializeMetadata merged)).
  split; [|split].
  - unfold updateMetadata. rewrite Hres. simpl rbind.
    rewrite (isFile_exists _ _ Hf), Hc. simpl rbind. exact Hw.
  - unfold readMetadataRaw. rewrite Hres'. simpl rbind. now rewrite Hc'.
  - intros k. rewrite parse_serialize by assumption.
    rewrite get_filter_nonempty by now apply nodup_keys_entries.
    rewrite get_entries by assumption.
    unfold merged. rewrite get_fold_merge by assumption.
    rewrite get_entries by assumption.
    unfold merged_field.
    now destruct (Assoc.get k updates) as [[[|c s]|]|].
Qed.

Lemma update_merges_fields_witness :
  readMetadataRaw working_store (Js.lit "app-1")
    = Ok (Some [ (Js.lit "branch", Js.lit "main");
                 (Js.lit "status", Js.lit "working");
                 (Js.lit "note", []) ]) /\
  NoDup (Assoc.keys plain_update) /\
  clean_updates plain_update = true /\
  well_formed_updates plain_update = true /\
  exists st' raw',
    updateMetadata working_store (Js.lit "app-1") plain_update = Ok st'
    /\ readMetadataRaw st' (Js.lit "app-1") = Ok (Some raw')
    /\ forall k, Assoc.get k raw'
                 = merged_field plain_update
                     [ (Js.lit "branch", Js.lit "main");
                       (Js.lit "status", Js.lit "working");
                       (Js.lit "note", []) ] k.
Proof.
  assert (Hnd : NoDup (Assoc.keys plain_update)).
  { repeat constructor; simpl; intros H;
      repeat (destruct H as [H|H]; [discriminate|]); exact H. }
  split; [reflexivity|]. split; [exact Hnd|]. split; [reflexivity|].
  split; [reflexivity|].
  apply (update_merges_fields working_store (Js.lit "app-1") plain_update);
    [reflexivity | exact Hnd | reflexivity | reflexivity].
Defined.

(** C3 as stated fails: a new value that holds a newline is cut at the
    newline, and what follows it is read as a line of its own, here one
    that overwrites status, a field the update does not name; and the
    field "note", which the update does not name either, is dropped because
    its value was empty. *)
Lemma update_as_stated_fails :
  exists st' raw raw',
    readMetadataRaw working_store (Js.lit "app-1") = Ok (Some raw)
    /\ updateMetadata working_store (Js.lit "app-1") two_line_update = Ok st'
    /\ readMetadataRaw st' (Js.lit "app-1") = Ok (Some raw')
    /\ Assoc.get (Js.lit "summary") raw' = Some (Js.lit "fix login")
    /\ Assoc.get (Js.lit "summary") raw'
         <> merged_field_as_stated two_line_update raw (Js.lit "summary")
    /\ Assoc.get (Js.lit "status") raw' = Some (Js.lit "merged")
    /\ merged_field_as_stated two_line_update raw (Js.lit "status")
         = Some (Js.lit "working")
    /\ Assoc.get (Js.lit "note") raw' = None
    /\ merged_field_as_stated two_line_update raw (Js.lit "note") = Some [].
Proof.
  eexists. eexists. eexists.
  split; [reflexivity|]. split; [reflexivity|]. split; [reflexivity|].
  split; [reflexivity|]. split; [discriminate|].
  split; [reflexivity|]. split; [reflexivity|].
  split; reflexivity.
Qed.

End UpdateStore.

(* ===================================================================== *)
(** ** The record format (C8) *)

Section Format.
Import Metadata Stmt.

Lemma serialize_lines (data : Obj.t Js.str) :
  exists es,
    serializeMetadata data = Js.join_nl (map entry_line es) ++ [Js.NL]
    /\ forall kv, In kv es <-> In kv data /\ snd kv <> [].
Proof.
  exists (filter (fun kv => nonempty (snd kv)) (Obj.entries data)).
  split; [reflexivity|]. intros kv. rewrite filter_In, in_entries.
  destruct (snd kv); simpl; intuition congruence.
Qed.

(** C8: a record file is read line by line, the lines being what "\n"
    separates; a line starting with # is skipped; in a line with an =, the
    first = ends the key and everything after it, further = included, is
    the value, both trimmed; blank lines, lines without = and lines with
    an empty key are skipped, and parsing never fails; serializeMetadata
    writes one key=value line per field with a non-empty value and none
    for an empty one, so that an empty field is absent when the file is
    read again. *)
Theorem record_format :
  (forall line rest,
      ~ In Js.NL line ->
      parseMetadataFile (line ++ Js.NL :: rest)
      = fold_left parse_line (Js.split_nl rest) (parse_line [] line)) /\
  (forall o line,
      Js.starts_with [Js.HASH] line = true -> parse_line o line = o) /\
  (forall o k v,
      ~ In Js.EQ k ->
      Js.starts_with [Js.HASH] (Js.ltrim k) = false ->
      Js.trim k <> [] ->
      parse_line o (k ++ Js.EQ :: v) = Obj.set (Js.trim k) (Js.trim v) o) /\
  (forall o line, forallb Js.is_ws line = true -> parse_line o line = o) /\
  (forall o line, ~ In Js.EQ line -> parse_line o line = o) /\
  (forall o v, parse_line o (Js.EQ :: v) = o) /\
  (forall data,
      exists es,
        serializeMetadata data = Js.join_nl (map entry_line es) ++ [Js.NL]
        /\ forall kv, In kv es <-> In kv data /\ snd kv <> []) /\
  (forall data k,
      NoDup (Assoc.keys data) -> Forall clean_entry data ->
      Assoc.get k (parseMetadataFile (serializeMetadata data))
      = omit_empty (Assoc.get k data)).
Proof.
  split.
  { intros line rest Hnl. unfold parseMetadataFile.
    now rewrite split_nl_line. }
  split.
  { intros o line H. apply parse_line_comment.
    destruct line as [|c r]; [discriminate|].
    simpl in H. rewrite andb_true_r in H. apply N.eqb_eq in H. now subst c. }
  split.
  { intros o k v Hk Hh Ht. rewrite parse_line_pair by assumption.
    rewrite Hh. destruct (Js.trim k); [contradiction | reflexivity]. }
  split; [exact parse_line_blank|].
  split; [exact parse_line_no_eq|].
  split.
  { intros o v. change (Js.EQ :: v) with ([] ++ Js.EQ :: v).
    now rewrite parse_line_pair by (simpl; tauto). }
  split; [exact serialize_lines|].
  intros data k Hnd Hcl. rewrite parse_serialize by assumption.
  rewrite get_filter_nonempty by now apply nodup_keys_entries.
  now rewrite get_entries.
Qed.

Lemma record_format_witness :
  parse_line [] (Js.lit "# status=working") = [] /\
  parse_line [] (Js.lit " pr " ++ Js.EQ :: Js.lit " https://x/pull/1?a=b ")
  = [(Js.lit "pr", Js.lit "https://x/pull/1?a=b")] /\
  parse_line [] (Js.lit "no delimiter here") = [].
Proof.
  destruct record_format as (_ & Hc & Hp & _ & Hn & _).
  split; [apply Hc; reflexivity|].
  split.
  - apply (Hp [] (Js.lit " pr ") (Js.lit " https://x/pull/1?a=b ")).
    + simpl. intros H. repeat (destruct H as [H|H]; [discriminate|]). exact H.
    + reflexivity.
    + discriminate.
  - apply Hn. simpl. intros H.
    repeat (destruct H as [H|H]; [discriminate|]). exact H.
Defined.

End Format.

(* ===================================================================== *)
(** ** Running a computation *)

Section Runs.
Import Proc TraceStmt.

Lemma after_nil (w : world) : after w [] = w.
Proof.
  destruct w as [c t]. unfold after; simpl.
  now rewrite Nat.add_0_r, app_nil_r.
Qed.

Lemma tmux_count_app (a b : list event) :
  tmux_count (a ++ b) = tmux_count a + tmux_count b.
Proof. unfold tmux_count. now rewrite filter_app, length_app. Qed.

Lemma after_app (w : world) (a b : list event) :
  after (after w a) b = after w (a ++ b).
Proof.
  unfold after; simpl. rewrite tmux_count_app, app_assoc.
  f_equal. lia.
Qed.

Lemma runs_after {A} (m : M A) (w : world) (evs : list event) (r : result A) :
  runs m w evs r <-> m w = (r, after w evs).
Proof. reflexivity. Qed.

Lemma runs_fun {A} (m : M A) (w : world) (evs evs' : list event)
    (r r' : result A) :
  runs m w evs r -> runs m w evs' r' -> evs = evs' /\ r = r'.
Proof.
  unfold runs. intros H H'. rewrite H in H'. injection H' as Hr _ Ht.
  apply app_inv_head in Ht. now split.
Qed.

Lemma runs_ret {A} (a : A) (w : world) : runs (ret a) w [] (Ok a).
Proof. apply runs_after. now rewrite after_nil. Qed.

Lemma runs_sleep (ms : N) (w : world) :
  runs (sleep ms) w [ESleep ms] (Ok tt).
Proof.
  unfold runs, sleep, emit; simpl. now rewrite Nat.add_0_r.
Qed.

Lemma runs_execTmux (E : env) (args : list Js.str) (w : world) :
  runs (execTmux E args) w [ETmux args]
    match reply E (calls w) args with
    | Some stdout => Ok stdout
    | None => Throw (SystemError "tmux")
    end.
Proof.
  unfold runs, execTmux; simpl. rewrite Nat.add_1_r.
  now destruct (reply E (calls w) args).
Qed.

Lemma runs_bind_ok {A B} (m : M A) (k : A -> M B) (w : world)
    (evs1 evs2 : list event) (a : A) (r : result B) :
  runs m w evs1 (Ok a) -> runs (k a) (after w evs1) evs2 r ->
  runs (bind m k) w (evs1 ++ evs2) r.
Proof.
  intros H1 H2. unfold runs in *. unfold bind. rewrite H1.
  change {| calls := calls w + tmux_count evs1; trace := trace w ++ evs1 |}
    with (after w evs1).
  rewrite H2. f_equal. apply after_app.
Qed.

Lemma runs_bind_throw {A B} (m : M A) (k : A -> M B) (w : world)
    (evs : list event) (e : error) :
  runs m w evs (Throw e) -> runs (bind m k) w evs (Throw e).
Proof. intros H. unfold runs, bind. now rewrite H. Qed.

(** The runtime's tmux helper. *)
Lemma runs_tmux (E : env) (args : list Js.str) (w : world) :
  runs (Tmux.tmux E args) w [ETmux args]
    match reply E (calls w) args with
    | Some stdout => Ok (Js.rtrim stdout)
    | None => Throw (SystemError "tmux")
    end.
Proof.
  unfold Tmux.tmux. pose proof (runs_execTmux E args w) as H.
  destruct (reply E (calls w) args) as [stdout|].
  - rewrite <- (app_nil_r [ETmux args]).
    eapply runs_bind_ok; [exact H | apply runs_ret].
  - now apply runs_bind_throw.
Qed.

Lemma runs_isBusy (E : env) (id : Js.str) (w : world) :
  runs (Tmux.isBusy E id) w [ETmux (Tmux.capture_args id (Js.lit "-5"))]
    (Ok match reply E (calls w) (Tmux.capture_args id (Js.lit "-5")) with
        | Some stdout => Tmux.busy_of_output (Js.rtrim stdout)
        | None => false
        end).
Proof.
  unfold Tmux.isBusy, catch, runs.
  pose proof (runs_tmux E (Tmux.capture_args id (Js.lit "-5")) w) as H.
  unfold bind at 1. rewrite H.
  destruct (reply E (calls w) _) as [stdout|]; reflexivity.
Qed.

Lemma isBusy_true_iff (E : env) (id : Js.str) (k : nat) :
  match reply E k (Tmux.capture_args id (Js.lit "-5")) with
  | Some stdout => Tmux.busy_of_output (Js.rtrim stdout)
  | None => false
  end = true <-> busy_at E id k.
Proof.
  unfold busy_at. destruct (reply E k _) as [stdout|]; split.
  - intros H. now exists stdout.
  - intros (s & [= <-] & H). exact H.
  - discriminate.
  - intros (s & H & _). discriminate.
Qed.

End Runs.

(* ===================================================================== *)
(** ** sendMessage of the tmux runtime (C4, C5) *)

Section SendMessage.
Import Proc TraceStmt.
Variable E : env.
Variable id : Js.str.

Let capture : event := ETmux (Tmux.capture_args id (Js.lit "-5")).

Lemma wait_unfold (fuel waited : nat) (busy : bool) :
  Tmux.wait_for_idle E fuel id waited busy =
    if negb (waited <? Tmux.maxWait) then ret (Some busy)
    else
      match fuel with
      | 0 => ret None
      | S fuel' =>
          bind (Tmux.isBusy E id) (fun busy' =>
            if negb busy' then ret (Some busy')
            else
              bind (sleep (N.of_nat Tmux.pollInterval * 1000)) (fun _ =>
                Tmux.wait_for_idle E fuel' id (waited + Tmux.pollInterval) busy'))
      end.
Proof. now destruct fuel. Qed.

(** The loop looks at the pane until it does not read as busy, at most
    [n] times when [n] rounds are left. *)
Lemma wait_runs (n : nat) :
  forall fuel waited busy w,
    n <= fuel -> waited + 2 * n = Tmux.maxWait ->
    exists m,
      m <= n /\ busy_for E id w m /\
      (m = n /\
       runs (Tmux.wait_for_idle E fuel id waited busy) w (wait_trace id n)
         (Ok (Some (match n with 0 => busy | _ => true end)))
       \/
       m < n /\ ~ busy_at E id (calls w + m) /\
       runs (Tmux.wait_for_idle E fuel id waited busy) w
         (wait_trace id m ++ [capture]) (Ok (Some false))).
Proof.
  induction n as [|n IH]; intros fuel waited busy w Hfuel Hw.
  - exists 0. split; [lia|]. split; [intros i Hi; lia|]. left.
    split; [reflexivity|]. rewrite wait_unfold.
    assert (Hc : (waited <? Tmux.maxWait) = false) by (apply Nat.ltb_ge; lia).
    rewrite Hc. apply runs_ret.
  - destruct fuel as [|fuel]; [lia|].
    rewrite wait_unfold.
    assert (Hc : (waited <? Tmux.maxWait) = true) by (apply Nat.ltb_lt; lia).
    rewrite Hc. cbn [negb].
    pose proof (runs_isBusy E id w) as Hb. fold capture in Hb.
    pose proof (isBusy_true_iff E id (calls w)) as Hiff.
    destruct (match reply E (calls w) _ with
              | Some stdout => Tmux.busy_of_output (Js.rtrim stdout)
              | None => false
              end) eqn:Eb.
    + (* busy: sleep and look again *)
      assert (Hbusy0 : busy_at E id (calls w)) by now apply Hiff.
      set (w1 := after w [capture; ESleep 2000]).
      destruct (IH fuel (waited + Tmux.pollInterval) true w1)
        as (m & Hm & Hbf & Hcase); [lia | unfold Tmux.pollInterval; lia |].
      assert (Hcalls : calls w1 = S (calls w)).
      { unfold w1, after, capture, tmux_count; simpl. lia. }
      assert (Hstep : forall evs r,
                 runs (Tmux.wait_for_idle E fuel id
                         (waited + Tmux.pollInterval) true) w1 evs r ->
                 runs (bind (Tmux.isBusy E id) (fun busy' =>
                         if negb busy' then ret (Some busy')
                         else bind (sleep (N.of_nat Tmux.pollInterval * 1000)) (fun _ =>
                                Tmux.wait_for_idle E fuel id
                                  (waited + Tmux.pollInterval) busy')))
                   w (capture :: ESleep 2000 :: evs) r).
      { intros evs r Hr.
        change (capture :: ESleep 2000 :: evs)
          with ([capture] ++ ([ESleep 2000] ++ evs)).
        eapply runs_bind_ok; [exact Hb|]. cbn [negb].
        eapply runs_bind_ok; [apply runs_sleep|].
        rewrite after_app. exact Hr. }
      exists (S m). split; [lia|]. split.
      { intros [|i] Hi.
        - now rewrite Nat.add_0_r.
        - replace (calls w + S i) with (calls w1 + i) by lia.
          apply Hbf. lia. }
      destruct Hcase as [[-> Hr]|(Hlt & Hnb & Hr)].
      * left. split; [reflexivity|]. apply Hstep in Hr.
        replace (match n with 0 => true | S _ => true end) with true in Hr
          by now destruct n.
        exact Hr.
      * right. split; [lia|]. split.
        { replace (calls w + S m) with (calls w1 + m) by lia. exact Hnb. }
        apply Hstep in Hr. exact Hr.
    + (* not busy: leave the loop *)
      exists 0. split; [lia|]. split; [intros i Hi; lia|]. right.
      split; [lia|]. split.
      { rewrite Nat.add_0_r. intros Hx. apply Hiff in Hx. discriminate. }
      simpl app. rewrite <- (app_nil_r [capture]).
      eapply runs_bind_ok; [exact Hb|]. cbn [negb]. apply runs_ret.
Qed.

End SendMessage.

Section Framed.
Import Proc TraceStmt.

Lemma framed_intro {A} (m : M A) :
  (forall c, exists evs r, forall t,
        m {| calls := c; trace := t |}
        = (r, {| calls := c + tmux_count evs; trace := t ++ evs |})) ->
  framed m.
Proof.
  intros H [c t]. destruct (H c) as (evs & r & Hm).
  unfold runs, events_of, result_of; simpl.
  rewrite (Hm []), (Hm t). reflexivity.
Qed.

Lemma framed_elim {A} (m : M A) (c : nat) (t : list event) :
  framed m ->
  m {| calls := c; trace := t |}
  = (result_of m c,
     {| calls := c + tmux_count (events_of m c);
        trace := t ++ events_of m c |}).
Proof. intros H. exact (H {| calls := c; trace := t |}). Qed.

Lemma framed_ret {A} (a : A) : framed (ret a).
Proof.
  apply framed_intro. intros c. exists [], (Ok a). intros t.
  unfold ret, tmux_count; simpl. now rewrite Nat.add_0_r, app_nil_r.
Qed.

Lemma framed_throw {A} (e : error) : framed (@throw A e).
Proof.
  apply framed_intro. intros c. exists [], (Throw e). intros t.
  unfold throw, tmux_count; simpl. now rewrite Nat.add_0_r, app_nil_r.
Qed.

Lemma framed_sleep (ms : N) : framed (sleep ms).
Proof.
  apply framed_intro. intros c. exists [ESleep ms], (Ok tt). intros t.
  unfold sleep, emit, tmux_count; simpl. now rewrite Nat.add_0_r.
Qed.

Lemma framed_write (p x : Js.str) : framed (emit (EWriteFile p x)).
Proof.
  apply framed_intro. intros c. exists [EWriteFile p x], (Ok tt). intros t.
  unfold emit, tmux_count; simpl. now rewrite Nat.add_0_r.
Qed.

Lemma framed_unlink (p : Js.str) : framed (emit (EUnlink p)).
Proof.
  apply framed_intro. intros c. exists [EUnlink p], (Ok tt). intros t.
  unfold emit, tmux_count; simpl. now rewrite Nat.add_0_r.
Qed.

Lemma framed_execTmux (E : env) (args : list Js.str) : framed (execTmux E args).
Proof.
  apply framed_intro. intros c.
  exists [ETmux args],
    (match reply E c args with
     | Some stdout => Ok stdout
     | None => Throw (SystemError "tmux")
     end).
  intros t. unfold execTmux, tmux_count; simpl. rewrite Nat.add_1_r.
  now destruct (reply E c args).
Qed.

Lemma framed_bind {A B} (m : M A) (k : A -> M B) :
  framed m -> (forall a, framed (k a)) -> framed (bind m k).
Proof.
  intros Hm Hk. apply framed_intro. intros c.
  destruct (result_of m c) as [a|e] eqn:Er.
  - exists (events_of m c
            ++ events_of (k a) (c + tmux_count (events_of m c))),
      (result_of (k a) (c + tmux_count (events_of m c))).
    intros t. unfold bind. rewrite (framed_elim m c t Hm), Er.
    rewrite (framed_elim (k a) _ _ (Hk a)).
    rewrite tmux_count_app, app_assoc. f_equal. f_equal. lia.
  - exists (events_of m c), (Throw e).
    intros t. unfold bind. now rewrite (framed_elim m c t Hm), Er.
Qed.

Lemma framed_finally {A} (m : M A) (f : M unit) :
  framed m -> framed f -> framed (finally m f).
Proof.
  intros Hm Hf. apply framed_intro. intros c.
  set (c1 := c + tmux_count (events_of m c)).
  exists (events_of m c ++ events_of f c1),
    (match result_of f c1 with
     | Ok _ => result_of m c
     | Throw e => Throw e
     end).
  intros t. unfold finally. rewrite (framed_elim m c t Hm).
  rewrite (framed_elim f _ _ Hf). fold c1.
  rewrite tmux_count_app, app_assoc.
  destruct (result_of f c1); f_equal; f_equal; lia.
Qed.

Lemma framed_catch {A} (m h : M A) :
  framed m -> framed h -> framed (catch m h).
Proof.
  intros Hm Hh. apply framed_intro. intros c.
  destruct (result_of m c) as [a|e] eqn:Er.
  - exists (events_of m c), (Ok a).
    intros t. unfold catch. now rewrite (framed_elim m c t Hm), Er.
  - set (c1 := c + tmux_count (events_of m c)).
    exists (events_of m c ++ events_of h c1), (result_of h c1).
    intros t. unfold catch. rewrite (framed_elim m c t Hm), Er.
    rewrite (framed_elim h _ _ Hh). fold c1.
    rewrite tmux_count_app, app_assoc. f_equal. f_equal. lia.
Qed.

Lemma framed_tmux (E : env) (args : list Js.str) : framed (Tmux.tmux E args).
Proof.
  unfold Tmux.tmux. apply framed_bind; [apply framed_execTmux|].
  intros a. apply framed_ret.
Qed.

Lemma framed_inject (E : env) (id message : Js.str) :
  framed (Tmux.inject E id message).
Proof.
  unfold Tmux.inject. destruct (Tmux.is_long message).
  - apply framed_bind; [apply framed_write|]. intros _.
    apply framed_finally; [|apply framed_unlink].
    repeat (apply framed_bind; [apply framed_tmux|]; intros _).
    apply framed_ret.
  - apply framed_bind; [apply framed_tmux|]. intros _. apply framed_ret.
Qed.

Lemma framed_deliver (E : env) (id message : Js.str) (busy : bool) :
  framed (Tmux.deliver E id message busy).
Proof.
  unfold Tmux.deliver.
  apply framed_bind; [apply framed_tmux|]; intros _.
  apply framed_bind; [apply framed_sleep|]; intros _.
  apply framed_bind; [apply framed_inject|]; intros _.
  apply framed_bind; [apply framed_sleep|]; intros _.
  apply framed_bind; [apply framed_tmux|]; intros _.
  destruct busy; [apply framed_throw | apply framed_ret].
Qed.

Lemma includes_unit (c : N) (s : Js.str) :
  Js.includes [c] s = existsb (N.eqb c) s.
Proof.
  induction s as [|y s IH]; [reflexivity|].
  cbn [Js.includes Js.starts_with existsb].
  destruct s; now rewrite andb_true_r, IH.
Qed.

Lemma is_long_pasted (message : Js.str) :
  Tmux.is_long message = pasted message.
Proof. unfold Tmux.is_long, pasted. now rewrite includes_unit. Qed.

Ltac failed_call :=
  split; [reflexivity|]; split; [simpl; lia|]; split; [discriminate|];
  let H := fresh in intros [H|H]; discriminate H.

Ltac whole_delivery :=
  split; [reflexivity|]; split; [simpl; lia|]; split; [discriminate|];
  intros _; split; reflexivity.

(** What follows the loop never looks at the pane, sleeps half a second
    at most, and ends in success or in the busy error only after the whole
    of [deliver_trace], whose last event is the terminating keystroke. *)
Lemma deliver_events (E : env) (id message : Js.str) (busy : bool) (c : nat) :
  let evs := events_of (Tmux.deliver E id message busy) c in
  let r := result_of (Tmux.deliver E id message busy) c in
  polls evs = 0 /\ (slept evs <= 500)%N /\ r <> Ok None /\
  (r = Ok (Some tt) \/ r = Throw (Error (Tmux.busy_message id)) ->
   evs = deliver_trace E id message /\
   r = if busy then Throw (Error (Tmux.busy_message id)) else Ok (Some tt)).
Proof.
  unfold events_of, result_of, deliver_trace, inject_trace.
  unfold Tmux.deliver, Tmux.inject, Tmux.tmux, bind, finally, ret, throw,
    sleep, emit, execTmux.
  cbn [calls trace fst snd app].
  destruct (reply E c (Tmux.send_keys id (Js.lit "C-u"))) as [s0|];
    cbn [calls trace fst snd app]; [|now failed_call].
  rewrite <- (is_long_pasted message).
  destruct (Tmux.is_long message); cbn [calls trace fst snd app].
  - destruct (reply E (S c) [Js.lit "load-buffer"; Tmux.tmpPath E]) as [s1|];
      cbn [calls trace fst snd app]; [|now failed_call].
    destruct (reply E (S (S c)) [Js.lit "paste-buffer"; Js.lit "-t"; id])
      as [s2|]; cbn [calls trace fst snd app]; [|now failed_call].
    destruct (reply E (S (S (S c))) (Tmux.send_keys id (Js.lit "Enter")))
      as [s3|]; cbn [calls trace fst snd app]; [|now failed_call].
    destruct busy; cbn [calls trace fst snd app]; now whole_delivery.
  - destruct (reply E (S c) (Tmux.send_keys id message)) as [s1|];
      cbn [calls trace fst snd app]; [|now failed_call].
    destruct (reply E (S (S c)) (Tmux.send_keys id (Js.lit "Enter")))
      as [s3|]; cbn [calls trace fst snd app]; [|now failed_call].
    destruct busy; cbn [calls trace fst snd app]; now whole_delivery.
Qed.

End Framed.

Section SendMessageClaims.
Import Proc TraceStmt.

Lemma deliver_when_tmux_works (E : env) (id message : Js.str) (busy : bool)
    (c : nat) :
  tmux_works_from E c ->
  events_of (Tmux.deliver E id message busy) c = deliver_trace E id message /\
  result_of (Tmux.deliver E id message busy) c
  = if busy then Throw (Error (Tmux.busy_message id)) else Ok (Some tt).
Proof.
  intros Hw.
  assert (Hr : forall k args, c <= k -> exists s, reply E k args = Some s).
  { intros k args Hk. specialize (Hw k args Hk).
    destruct (reply E k args) as [s|]; [now exists s | contradiction]. }
  unfold events_of, result_of, deliver_trace, inject_trace.
  unfold Tmux.deliver, Tmux.inject, Tmux.tmux, bind, finally, ret, throw,
    sleep, emit, execTmux.
  cbn [calls trace fst snd app].
  destruct (Hr c (Tmux.send_keys id (Js.lit "C-u"))) as [s0 ->]; [lia|].
  cbn [calls trace fst snd app].
  destruct (Hr (S (S c)) (Tmux.send_keys id (Js.lit "Enter")))
    as [s3 H3]; [lia|].
  destruct (Hr (S (S (S c))) (Tmux.send_keys id (Js.lit "Enter")))
    as [s4 H4]; [lia|].
  rewrite <- (is_long_pasted message).
  destruct (Tmux.is_long message); cbn [calls trace fst snd app].
  - destruct (Hr (S c) [Js.lit "load-buffer"; Tmux.tmpPath E]) as [s1 ->];
      [lia|]. cbn [calls trace fst snd app].
    destruct (Hr (S (S c)) [Js.lit "paste-buffer"; Js.lit "-t"; id])
      as [s2 ->]; [lia|]. cbn [calls trace fst snd app].
    rewrite H4. now destruct busy.
  - destruct (Hr (S c) (Tmux.send_keys id message)) as [s1 ->]; [lia|].
    cbn [calls trace fst snd app]. rewrite H3. now destruct busy.
Qed.

Lemma polls_app (a b : list event) : polls (a ++ b) = polls a + polls b.
Proof. unfold polls. now rewrite filter_app, length_app. Qed.

Lemma slept_app (a b : list event) :
  slept (a ++ b) = (slept a + slept b)%N.
Proof.
  unfold slept. induction a as [|e a IH]; simpl; [reflexivity|].
  destruct e; rewrite IH; lia.
Qed.

Lemma polls_wait_trace (id : Js.str) (m : nat) : polls (wait_trace id m) = m.
Proof.
  induction m as [|m IH]; [reflexivity|].
  change (wait_trace id (S m))
    with ([ETmux (Tmux.capture_args id (Js.lit "-5")); ESleep 2000]
          ++ wait_trace id m).
  rewrite polls_app, IH. reflexivity.
Qed.

Lemma slept_wait_trace (id : Js.str) (m : nat) :
  slept (wait_trace id m) = (2000 * N.of_nat m)%N.
Proof.
  induction m as [|m IH]; [reflexivity|].
  change (wait_trace id (S m))
    with ([ETmux (Tmux.capture_args id (Js.lit "-5")); ESleep 2000]
          ++ wait_trace id m).
  rewrite slept_app, IH. change (slept [_; ESleep 2000]) with 2000%N. lia.
Qed.

Lemma tmux_count_wait_trace (id : Js.str) (m : nat) :
  tmux_count (wait_trace id m) = m.
Proof.
  induction m as [|m IH]; [reflexivity|].
  change (wait_trace id (S m))
    with ([ETmux (Tmux.capture_args id (Js.lit "-5")); ESleep 2000]
          ++ wait_trace id m).
  rewrite tmux_count_app, IH. reflexivity.
Qed.

(** sendMessage is the wait followed by the delivery: the pane is looked
    at [m] times while it reads busy; either all thirty looks were busy, or
    one more look found it idle. *)
Lemma sendMessage_runs (E : env) (id message : Js.str) (w : world) :
  exists m rest r,
    runs (Tmux.sendMessage E Tmux.maxWait id message) w
      (wait_trace id m ++ rest) r /\
    busy_for E id w m /\
    (m = 30 /\
     rest = events_of (Tmux.deliver E id message true) (calls w + 30) /\
     r = result_of (Tmux.deliver E id message true) (calls w + 30)
     \/
     m < 30 /\ ~ busy_at E id (calls w + m) /\
     rest = ETmux (Tmux.capture_args id (Js.lit "-5"))
            :: events_of (Tmux.deliver E id message false) (calls w + m + 1) /\
     r = result_of (Tmux.deliver E id message false) (calls w + m + 1)).
Proof.
  destruct (wait_runs E id 30 Tmux.maxWait 0 false w) as (m & Hm & Hbf & Hcase);
    [unfold Tmux.maxWait; lia | reflexivity |].
  unfold Tmux.sendMessage.
  destruct Hcase as [[-> Hr]|(Hlt & Hnb & Hr)].
  - exists 30, (events_of (Tmux.deliver E id message true) (calls w + 30)),
      (result_of (Tmux.deliver E id message true) (calls w + 30)).
    split; [|split; [assumption | left; repeat split]].
    eapply runs_bind_ok; [exact Hr|]. cbn beta iota.
    pose proof (framed_deliver E id message true (after w (wait_trace id 30)))
      as Hd.
    unfold after in Hd at 2 3. cbn [calls] in Hd.
    rewrite tmux_count_wait_trace in Hd. exact Hd.
  - exists m,
      (ETmux (Tmux.capture_args id (Js.lit "-5"))
       :: events_of (Tmux.deliver E id message false) (calls w + m + 1)),
      (result_of (Tmux.deliver E id message false) (calls w + m + 1)).
    split; [|split; [assumption | right; repeat split; assumption]].
    replace (wait_trace id m
             ++ ETmux (Tmux.capture_args id (Js.lit "-5"))
                :: events_of (Tmux.deliver E id message false)
                     (calls w + m + 1))
      with ((wait_trace id m ++ [ETmux (Tmux.capture_args id (Js.lit "-5"))])
            ++ events_of (Tmux.deliver E id message false) (calls w + m + 1))
      by (now rewrite <- app_assoc).
    eapply runs_bind_ok; [exact Hr|]. cbn beta iota.
    pose proof (framed_deliver E id message false
                  (after w (wait_trace id m
                            ++ [ETmux (Tmux.capture_args id (Js.lit "-5"))])))
      as Hd.
    unfold after in Hd at 2 3. cbn [calls] in Hd.
    rewrite tmux_count_app, tmux_count_wait_trace in Hd.
    change (tmux_count [ETmux (Tmux.capture_args id (Js.lit "-5"))])
      with 1 in Hd.
    rewrite Nat.add_assoc in Hd. exact Hd.
Qed.

(** C4: whatever tmux answers, sendMessage (with maxWait turns of fuel)
    returns; it looks at the pane at most thirty times, two seconds apart,
    and sleeps at most 60.5 seconds in all. When the pane reads busy at
    all thirty looks and tmux then serves the calls, the message is
    nonetheless sent: after the thirty rounds of capture-pane and a sleep
    of two seconds, tmux is given send-keys C-u, then, after 200 ms, the
    message (as send-keys, or through load-buffer and paste-buffer from
    the temporary file when it holds a newline or is longer than 200
    units), then, after 300 ms, send-keys Enter, each for the pane of the
    session; and the call ends with the error "Session ... was still busy
    after 60s ... message sent but may be lost". *)
Theorem sendMessage_bounded_wait_then_ambiguous
    (E : env) (id message : Js.str) (w : world) :
  exists evs r,
    runs (Tmux.sendMessage E Tmux.maxWait id message) w evs r /\
    r <> Ok None /\
    polls evs <= 30 /\ (slept evs <= 60500)%N /\
    (exists m rest, m <= 30 /\ evs = wait_trace id m ++ rest
                    /\ (slept rest <= 500)%N) /\
    (busy_for E id w 30 -> tmux_works_from E (calls w + 30) ->
     evs = wait_trace id 30
           ++ [ ETmux [Js.lit "send-keys"; Js.lit "-t"; id; Js.lit "C-u"];
                ESleep 200 ]
           ++ (if pasted message then
                 [ EWriteFile (temp_file E) message;
                   ETmux [Js.lit "load-buffer"; temp_file E];
                   ETmux [Js.lit "paste-buffer"; Js.lit "-t"; id];
                   EUnlink (temp_file E) ]
               else [ ETmux [Js.lit "send-keys"; Js.lit "-t"; id; message] ])
           ++ [ ESleep 300;
                ETmux [Js.lit "send-keys"; Js.lit "-t"; id; Js.lit "Enter"] ] /\
     r = Throw (still_busy id)).
Proof.
  destruct (sendMessage_runs E id message w)
    as (m & rest & r & Hruns & Hbf & Hcase).
  exists (wait_trace id m ++ rest), r. split; [exact Hruns|].
  destruct Hcase as [(-> & -> & ->)|(Hlt & Hnb & -> & ->)].
  - destruct (deliver_events E id message true (calls w + 30))
      as (Hp & Hs & Hn & _).
    split; [exact Hn|].
    rewrite polls_app, slept_app, polls_wait_trace, slept_wait_trace, Hp.
    split; [lia|]. split; [lia|]. split.
    + exists 30, (events_of (Tmux.deliver E id message true) (calls w + 30)).
      repeat split; [lia | exact Hs].
    + intros _ Hworks.
      destruct (deliver_when_tmux_works E id message true _ Hworks) as [-> ->].
      split; reflexivity.
  - destruct (deliver_events E id message false (calls w + m + 1))
      as (Hp & Hs & Hn & _).
    split; [exact Hn|].
    rewrite polls_app, slept_app, polls_wait_trace, slept_wait_trace.
    set (d := events_of (Tmux.deliver E id message false) (calls w + m + 1))
      in *.
    assert (Hp' : polls (ETmux (Tmux.capture_args id (Js.lit "-5")) :: d)
                  = 1 + polls d) by reflexivity.
    assert (Hs' : slept (ETmux (Tmux.capture_args id (Js.lit "-5")) :: d)
                  = slept d) by reflexivity.
    rewrite Hp', Hs', Hp.
    split; [lia|]. split; [lia|]. split.
    + exists m, (ETmux (Tmux.capture_args id (Js.lit "-5")) :: d).
      repeat split; [lia | now rewrite Hs'].
    + intros Hbusy _. exfalso. apply Hnb. now apply Hbusy.
Qed.

Lemma sendMessage_bounded_wait_then_ambiguous_witness :
  busy_for busy_env (Js.lit "app-1") start_world 30 /\
  tmux_works_from busy_env (calls start_world + 30) /\
  exists evs,
    runs (Tmux.sendMessage busy_env Tmux.maxWait (Js.lit "app-1")
            (Js.lit "please rebase")) start_world evs
      (Throw (still_busy (Js.lit "app-1"))) /\
    evs = wait_trace (Js.lit "app-1") 30
          ++ [ ETmux [Js.lit "send-keys"; Js.lit "-t"; Js.lit "app-1";
                      Js.lit "C-u"];
               ESleep 200;
               ETmux [Js.lit "send-keys"; Js.lit "-t"; Js.lit "app-1";
                      Js.lit "please rebase"];
               ESleep 300;
               ETmux [Js.lit "send-keys"; Js.lit "-t"; Js.lit "app-1";
                      Js.lit "Enter"] ].
Proof.
  assert (Hb : busy_for busy_env (Js.lit "app-1") start_world 30).
  { intros i _. eexists. split; reflexivity. }
  assert (Hw : tmux_works_from busy_env (calls start_world + 30)).
  { intros k args _. discriminate. }
  split; [exact Hb|]. split; [exact Hw|].
  destruct (sendMessage_bounded_wait_then_ambiguous busy_env (Js.lit "app-1")
              (Js.lit "please rebase") start_world)
    as (evs & r & Hruns & _ & _ & _ & _ & Hbusy).
  destruct (Hbusy Hb Hw) as [Hevs Hr].
  exists evs. rewrite <- Hr. split; [exact Hruns | exact Hevs].
Defined.

End SendMessageClaims.

Section Confirmation.
Import Proc TraceStmt.

(** C5, what the code does: a sendMessage that succeeds has looked at the
    pane only before sending; once the message is injected it sleeps 300
    ms, presses Enter once, and returns. Nothing checks that the target
    started processing and the keystroke is never sent again. *)
Theorem sendMessage_sends_without_confirmation
    (E : env) (id message : Js.str) (w : world) (evs : list event) :
  runs (Tmux.sendMessage E Tmux.maxWait id message) w evs (Ok (Some tt)) ->
  exists m,
    m < 30 /\
    evs = wait_trace id m
          ++ ETmux (Tmux.capture_args id (Js.lit "-5"))
             :: deliver_trace E id message /\
    polls (deliver_trace E id message) = 0 /\
    exists before,
      deliver_trace E id message
      = before ++ [ESleep 300; ETmux (Tmux.send_keys id (Js.lit "Enter"))].
Proof.
  intros Hruns.
  destruct (sendMessage_runs E id message w)
    as (m & rest & r & Hruns' & _ & Hcase).
  destruct (runs_fun _ _ _ _ _ _ Hruns Hruns') as [-> <-].
  destruct Hcase as [(-> & -> & Hr)|(Hlt & _ & -> & Hr)].
  - destruct (deliver_events E id message true (calls w + 30))
      as (_ & _ & _ & Hd).
    destruct Hd as [_ Hd]; [left; now symmetry|].
    rewrite <- Hr in Hd. discriminate.
  - destruct (deliver_events E id message false (calls w + m + 1))
      as (Hp & _ & _ & Hd).
    destruct Hd as [Hd _]; [left; now symmetry|].
    rewrite Hd in *. exists m. split; [assumption|]. split; [reflexivity|].
    split; [exact Hp|].
    unfold deliver_trace.
    exists ([ETmux (Tmux.send_keys id (Js.lit "C-u")); ESleep 200]
            ++ inject_trace E id message).
    now rewrite <- app_assoc.
Qed.

Lemma sendMessage_sends_without_confirmation_witness :
  runs (Tmux.sendMessage idle_env Tmux.maxWait (Js.lit "app-1")
          (Js.lit "please rebase")) start_world
    [ ETmux (Tmux.capture_args (Js.lit "app-1") (Js.lit "-5"));
      ETmux (Tmux.send_keys (Js.lit "app-1") (Js.lit "C-u"));
      ESleep 200;
      ETmux (Tmux.send_keys (Js.lit "app-1") (Js.lit "please rebase"));
      ESleep 300;
      ETmux (Tmux.send_keys (Js.lit "app-1") (Js.lit "Enter")) ]
    (Ok (Some tt)) /\
  exists m,
    m < 30 /\
    [ ETmux (Tmux.capture_args (Js.lit "app-1") (Js.lit "-5"));
      ETmux (Tmux.send_keys (Js.lit "app-1") (Js.lit "C-u"));
      ESleep 200;
      ETmux (Tmux.send_keys (Js.lit "app-1") (Js.lit "please rebase"));
      ESleep 300;
      ETmux (Tmux.send_keys (Js.lit "app-1") (Js.lit "Enter")) ]
    = wait_trace (Js.lit "app-1") m
      ++ ETmux (Tmux.capture_args (Js.lit "app-1") (Js.lit "-5"))
         :: deliver_trace idle_env (Js.lit "app-1") (Js.lit "please rebase").
Proof.
  assert (H : runs (Tmux.sendMessage idle_env Tmux.maxWait (Js.lit "app-1")
                      (Js.lit "please rebase")) start_world
                [ ETmux (Tmux.capture_args (Js.lit "app-1") (Js.lit "-5"));
                  ETmux (Tmux.send_keys (Js.lit "app-1") (Js.lit "C-u"));
                  ESleep 200;
                  ETmux (Tmux.send_keys (Js.lit "app-1")
                           (Js.lit "please rebase"));
                  ESleep 300;
                  ETmux (Tmux.send_keys (Js.lit "app-1") (Js.lit "Enter")) ]
                (Ok (Some tt))) by reflexivity.
  split; [exact H|].
  destruct (sendMessage_sends_without_confirmation _ _ _ _ _ H)
    as (m & Hm & Hevs & _).
  exists m. split; [exact Hm | exact Hevs].
Defined.

Lemma verify_unfold (E : env) (detectActivity : Js.str -> Send.activity)
    (fuel : nat) (target : Js.str) (attempt : nat) :
  Send.verify_loop E detectActivity fuel target attempt =
    if negb (attempt <=? 3) then ret (Some Send.Unconfirmed)
    else
      match fuel with
      | 0 => ret None
      | S fuel' =>
          bind (sleep 2000) (fun _ =>
          bind (Send.captureOutput E target (Js.lit "-10")) (fun output =>
            if Send.isActive detectActivity output then ret (Some Send.Processing)
            else if Send.hasQueuedMessage output then ret (Some Send.Queued)
            else
              bind (if attempt <? 3 then
                      bind (Send.tmux E (Tmux.send_keys target (Js.lit "Enter")))
                        (fun _ => sleep 1000)
                    else ret tt)
                (fun _ => Send.verify_loop E detectActivity fuel' target
                            (attempt + 1))))
      end.
Proof. now destruct fuel. Qed.

(** One look at the pane by captureOutput. *)
Lemma capture_runs (E : env) (target : Js.str) (w : world) :
  exists output,
    runs (Send.captureOutput E target (Js.lit "-10")) w
      [ETmux (Tmux.capture_args target (Js.lit "-10"))] (Ok output).
Proof.
  unfold Send.captureOutput, Send.tmux, Send.exec_tmux, runs, catch, bind, ret,
    execTmux.
  cbn [calls trace fst snd]. unfold tmux_count. cbn [filter List.length].
  rewrite Nat.add_1_r.
  destruct (reply E (calls w) _) as [stdout|]; eexists; reflexivity.
Qed.

(** Pressing Enter again, which cannot fail. *)
Lemma press_enter_runs (E : env) (target : Js.str) (w : world) :
  exists r,
    runs (Send.tmux E (Tmux.send_keys target (Js.lit "Enter"))) w
      [ETmux (Tmux.send_keys target (Js.lit "Enter"))] (Ok r).
Proof.
  unfold Send.tmux, Send.exec_tmux, runs, catch, bind, ret, execTmux.
  cbn [calls trace fst snd]. unfold tmux_count. cbn [filter List.length].
  rewrite Nat.add_1_r.
  destruct (reply E (calls w) _) as [stdout|]; eexists; reflexivity.
Qed.

(** The sibling path: the delivery check of `ao send` looks at the pane at
    most three times after the keystroke and presses Enter again at most
    twice, and with three turns of fuel it gives its verdict. *)
Lemma cli_send_confirms_with_retries
    (E : env) (detectActivity : Js.str -> Send.activity) (target : Js.str) :
  forall fuel attempt w,
    exists evs r,
      runs (Send.verify_loop E detectActivity fuel target attempt) w evs r /\
      polls evs <= 4 - attempt /\ enters target evs <= 3 - attempt /\
      (4 <= fuel + attempt -> r <> Ok None).
Proof.
  assert (Hen : is_enter target (ETmux (Tmux.send_keys target (Js.lit "Enter")))
                = true).
  { unfold is_enter, Tmux.send_keys. now rewrite !eqb_refl. }
  induction fuel as [|fuel IH]; intros attempt w; rewrite verify_unfold.
  - destruct (attempt <=? 3) eqn:Ha; cbn [negb].
    + exists [], (Ok None). split; [apply runs_ret|].
      apply Nat.leb_le in Ha.
      split; [unfold polls; simpl; lia|]. split; [unfold enters; simpl; lia|]. intros Hf. simpl in Hf. lia.
    + exists [], (Ok (Some Send.Unconfirmed)). split; [apply runs_ret|].
      split; [unfold polls; simpl; lia|]. split; [unfold enters; simpl; lia|]. discriminate.
  - destruct (attempt <=? 3) eqn:Ha; cbn [negb].
    2:{ exists [], (Ok (Some Send.Unconfirmed)). split; [apply runs_ret|].
        split; [unfold polls; simpl; lia|]. split; [unfold enters; simpl; lia|]. discriminate. }
    apply Nat.leb_le in Ha.
    set (look := ETmux (Tmux.capture_args target (Js.lit "-10"))).
    set (enter := ETmux (Tmux.send_keys target (Js.lit "Enter"))).
    destruct (capture_runs E target (after w [ESleep 2000])) as [output Hcap].
    fold look in Hcap.
    destruct (Send.isActive detectActivity output) eqn:Hact.
    { exists ([ESleep 2000] ++ [look] ++ []), (Ok (Some Send.Processing)).
      split.
      - eapply runs_bind_ok; [apply runs_sleep|].
        eapply runs_bind_ok; [exact Hcap|]. rewrite Hact. apply runs_ret.
      - split; [|split; [|discriminate]].
        + change (polls ([ESleep 2000] ++ [look] ++ [])) with 1. lia.
        + change (enters target ([ESleep 2000] ++ [look] ++ [])) with 0. lia. }
    destruct (Send.hasQueuedMessage output) eqn:Hq.
    { exists ([ESleep 2000] ++ [look] ++ []), (Ok (Some Send.Queued)).
      split.
      - eapply runs_bind_ok; [apply runs_sleep|].
        eapply runs_bind_ok; [exact Hcap|]. rewrite Hact, Hq. apply runs_ret.
      - split; [|split; [|discriminate]].
        + change (polls ([ESleep 2000] ++ [look] ++ [])) with 1. lia.
        + change (enters target ([ESleep 2000] ++ [look] ++ [])) with 0. lia. }
    destruct (attempt <? 3) eqn:Hlt.
    + apply Nat.ltb_lt in Hlt.
      destruct (press_enter_runs E target
                  (after (after w [ESleep 2000]) [look])) as [r0 Hent].
      fold enter in Hent.
      destruct (IH (attempt + 1)
                  (after (after (after w [ESleep 2000]) [look])
                     ([enter] ++ [ESleep 1000])))
        as (evs & r & Hruns & Hp & He & Hr).
      exists ([ESleep 2000] ++ [look] ++ ([enter] ++ [ESleep 1000]) ++ evs), r.
      split.
      * eapply runs_bind_ok; [apply runs_sleep|].
        eapply runs_bind_ok; [exact Hcap|]. rewrite Hact, Hq.
        eapply runs_bind_ok; [|exact Hruns].
        eapply runs_bind_ok; [exact Hent | apply runs_sleep].
      * assert (Hpolls : polls ([ESleep 2000] ++ [look]
                                ++ ([enter] ++ [ESleep 1000]) ++ evs)
                         = 1 + polls evs) by reflexivity.
        assert (Hents : enters target ([ESleep 2000] ++ [look]
                                       ++ ([enter] ++ [ESleep 1000]) ++ evs)
                        = 1 + enters target evs).
        { unfold enters. rewrite !filter_app, !length_app.
          change (filter (is_enter target) [ESleep 2000]) with (@nil event).
          change (filter (is_enter target) [look]) with (@nil event).
          change (filter (is_enter target) [ESleep 1000]) with (@nil event).
          unfold enter. cbn [filter]. rewrite Hen. reflexivity. }
        rewrite Hpolls, Hents. split; [lia|]. split; [lia|].
        intros Hf. apply Hr. lia.
    + apply Nat.ltb_ge in Hlt.
      destruct (IH (attempt + 1) (after (after (after w [ESleep 2000]) [look]) []))
        as (evs & r & Hruns & Hp & He & Hr).
      exists ([ESleep 2000] ++ [look] ++ [] ++ evs), r.
      split.
      * eapply runs_bind_ok; [apply runs_sleep|].
        eapply runs_bind_ok; [exact Hcap|]. rewrite Hact, Hq.
        eapply runs_bind_ok; [apply runs_ret | exact Hruns].
      * assert (Hpolls : polls ([ESleep 2000] ++ [look] ++ [] ++ evs)
                         = 1 + polls evs) by reflexivity.
        assert (Hents : enters target ([ESleep 2000] ++ [look] ++ [] ++ evs)
                        = enters target evs) by reflexivity.
        rewrite Hpolls, Hents. split; [lia|]. split; [lia|].
        intros Hf. apply Hr. lia.
Qed.

(** On a pane that stays blank, `ao send` presses Enter, looks three times
    and presses Enter twice more; sendMessage, on a pane at a prompt,
    looks once, before sending, and presses Enter once. *)
Example cli_and_runtime_side_by_side :
  result_of (Send.send_and_verify blank_env Send.codex_detectActivity 3
               (Js.lit "app-1")) 0 = Ok (Some Send.Unconfirmed) /\
  polls (events_of (Send.send_and_verify blank_env Send.codex_detectActivity 3
                      (Js.lit "app-1")) 0) = 3 /\
  enters (Js.lit "app-1")
    (events_of (Send.send_and_verify blank_env Send.codex_detectActivity 3
                  (Js.lit "app-1")) 0) = 3 /\
  result_of (Tmux.sendMessage idle_env Tmux.maxWait (Js.lit "app-1")
               (Js.lit "please rebase")) 0 = Ok (Some tt) /\
  polls (events_of (Tmux.sendMessage idle_env Tmux.maxWait (Js.lit "app-1")
                      (Js.lit "please rebase")) 0) = 1 /\
  enters (Js.lit "app-1")
    (events_of (Tmux.sendMessage idle_env Tmux.maxWait (Js.lit "app-1")
                  (Js.lit "please rebase")) 0) = 1.
Proof. repeat split; reflexivity. Qed.

End Confirmation.

(* ===================================================================== *)
(** ** `ao start` and a running orchestrator (C6) *)

Section StartClaims.
Variable SM : Type.
Variable sm_get : SM -> Js.str -> result (option Start.Session) * SM.
Variable sm_spawnOrchestrator :
  SM -> Js.str -> Js.str -> option Js.str -> result Start.Session * SM.
Variable generateOrchestratorPrompt : Js.str -> option Js.str -> Js.str.

Let start := Start.startOrchestrator sm_get sm_spawnOrchestrator
               generateOrchestratorPrompt.

(** C6: `ao start` looks the orchestrator up under the ID
    "{sessionPrefix}-orchestrator". When the session manager returns a
    session whose status is not terminal: without a prompt the command
    makes no other call, leaves the session manager as the lookup left it
    and reports the session as already running, with its runtime handle as
    tmux target; with a prompt it throws "Orchestrator session ... is
    already running", again without any other call, and the process exits
    with status 1. Started twice without a prompt, the second run finds
    the session the first one spawned and spawns nothing. *)
Theorem start_reuses_running_orchestrator
    (sm sm1 : SM) (projectArg : option Js.str) (projectId : Js.str)
    (project : Start.Project) (opts : Start.Opts) (dashboard : bool)
    (existing : Start.Session) :
  let sessionId := Start.sessionPrefix project ++ Js.lit "-orchestrator" in
  Start.orchestrator opts = true ->
  sm_get sm sessionId = (Ok (Some existing), sm1) ->
  Types.is_terminal (Start.status existing) = false ->
  (Start.truthy (Start.prompt opts) = false ->
   start sm projectArg projectId project opts dashboard
   = (Ok {| Start.exists_ := true;
            Start.tmuxTarget := Start.target_of existing sessionId |},
      sm1, [Start.Get sessionId])) /\
  (Start.truthy (Start.prompt opts) = true ->
   start sm projectArg projectId project opts dashboard
   = (Throw (Error (Start.conflict_message sessionId projectArg)),
      sm1, [Start.Get sessionId])
   /\ Start.exit_status
        (fst (fst (start sm projectArg projectId project opts dashboard))) = 1) /\
  (forall sm0 sm2 opts0,
      Start.orchestrator opts0 = true ->
      Start.truthy (Start.prompt opts0) = false ->
      sm_get sm0 sessionId = (Ok None, sm2) ->
      sm_spawnOrchestrator sm2 projectId
        (generateOrchestratorPrompt projectId (Start.prompt opts0)) None
      = (Ok existing, sm) ->
      Start.truthy (Start.prompt opts) = false ->
      start sm0 projectArg projectId project opts0 dashboard
      = (Ok {| Start.exists_ := false;
               Start.tmuxTarget := Start.target_of existing sessionId |},
         sm,
         [Start.Get sessionId;
          Start.SpawnOrchestrator projectId
            (generateOrchestratorPrompt projectId (Start.prompt opts0)) None])
      /\ start sm projectArg projectId project opts dashboard
         = (Ok {| Start.exists_ := true;
                  Start.tmuxTarget := Start.target_of existing sessionId |},
            sm1, [Start.Get sessionId])).
Proof.
  intros sessionId Ho Hget Hlive.
  assert (Hreuse : Start.truthy (Start.prompt opts) = false ->
            start sm projectArg projectId project opts dashboard
            = (Ok {| Start.exists_ := true;
                     Start.tmuxTarget := Start.target_of existing sessionId |},
               sm1, [Start.Get sessionId])).
  { intros Hp. unfold start, Start.startOrchestrator, Start.orchestratorId.
    fold sessionId. rewrite Ho, Hget. cbn [negb Start.live].
    now rewrite Hlive, Hp. }
  split; [exact Hreuse|]. split.
  - intros Hp.
    assert (Hs : start sm projectArg projectId project opts dashboard
                 = (Throw (Error (Start.conflict_message sessionId projectArg)),
                    sm1, [Start.Get sessionId])).
    { unfold start, Start.startOrchestrator, Start.orchestratorId.
      fold sessionId. rewrite Ho, Hget. cbn [negb Start.live].
      now rewrite Hlive, Hp. }
    split; [exact Hs | now rewrite Hs].
  - intros sm0 sm2 opts0 Ho0 Hp0 Hget0 Hspawn Hp. split.
    + unfold start, Start.startOrchestrator, Start.orchestratorId.
      fold sessionId. rewrite Ho0, Hget0. cbn [negb Start.live andb].
      rewrite Hp0. now rewrite Hspawn.
    + now apply Hreuse.
Qed.

End StartClaims.

Lemma start_reuses_running_orchestrator_witness :
  OneSlot.start (Some OneSlot.running) OneSlot.no_prompt
  = (Ok {| Start.exists_ := true;
           Start.tmuxTarget := Js.lit "a1b2c3-app-orchestrator" |},
     Some OneSlot.running, [Start.Get (Js.lit "app-orchestrator")]) /\
  OneSlot.start (Some OneSlot.running) OneSlot.with_prompt
  = (Throw (Error (Start.conflict_message (Js.lit "app-orchestrator") None)),
     Some OneSlot.running, [Start.Get (Js.lit "app-orchestrator")]).
Proof.
  split.
  - apply (start_reuses_running_orchestrator _ OneSlot.get
             OneSlot.spawnOrchestrator OneSlot.prompt_text
             (Some OneSlot.running) (Some OneSlot.running) None (Js.lit "app")
             OneSlot.app OneSlot.no_prompt false OneSlot.running);
      reflexivity.
  - apply (start_reuses_running_orchestrator _ OneSlot.get
             OneSlot.spawnOrchestrator OneSlot.prompt_text
             (Some OneSlot.running) (Some OneSlot.running) None (Js.lit "app")
             OneSlot.app OneSlot.with_prompt false OneSlot.running);
      reflexivity.
Defined.

(* ===================================================================== *)
(** ** Terminal sessions (C9) *)

Section TickClaims.
Variable Signals : Type.
Variable gather : nat -> Js.str -> Signals.
Variable determineStatus : Signals -> Js.str -> Js.str.

Let tick_session := Lifecycle.tick_session gather determineStatus.
Let tick := Lifecycle.tick gather determineStatus.
Let ticks := Lifecycle.ticks gather determineStatus.

Lemma tick_session_terminal (now : nat) (s : Lifecycle.Session) :
  Types.is_terminal (Lifecycle.status s) = true ->
  tick_session now s = (s, []).
Proof.
  intros H. unfold tick_session, Lifecycle.tick_session. now rewrite H.
Qed.

Lemma tick_session_id (now : nat) (s : Lifecycle.Session) :
  Lifecycle.id (fst (tick_session now s)) = Lifecycle.id s.
Proof.
  unfold tick_session, Lifecycle.tick_session.
  destruct (Types.is_terminal _); [reflexivity|].
  now destruct (Js.eqb _ _).
Qed.

Lemma tick_session_actions (now : nat) (s : Lifecycle.Session)
    (a : Lifecycle.action) :
  In a (snd (tick_session now s)) ->
  Lifecycle.action_id a = Lifecycle.id s
  /\ Types.is_terminal (Lifecycle.status s) = false.
Proof.
  unfold tick_session, Lifecycle.tick_session.
  destruct (Types.is_terminal _); [intros []|].
  destruct (Js.eqb _ _); simpl; intros H;
    repeat (destruct H as [<-|H]; [now split|]); destruct H.
Qed.

Lemma tick_ids (now : nat) (sessions : list Lifecycle.Session) :
  map Lifecycle.id (fst (tick now sessions)) = map Lifecycle.id sessions.
Proof.
  unfold tick, Lifecycle.tick. simpl. rewrite !map_map.
  apply map_ext. intros s. apply tick_session_id.
Qed.

Lemma tick_keeps_terminal (now : nat) (sessions : list Lifecycle.Session)
    (i : nat) (s : Lifecycle.Session) :
  nth_error sessions i = Some s ->
  Types.is_terminal (Lifecycle.status s) = true ->
  nth_error (fst (tick now sessions)) i = Some s.
Proof.
  intros Hn Ht. unfold tick, Lifecycle.tick. simpl. rewrite map_map.
  rewrite nth_error_map, Hn. simpl.
  fold (tick_session now s). now rewrite tick_session_terminal.
Qed.

Lemma same_id_same_session (sessions : list Lifecycle.Session)
    (s s' : Lifecycle.Session) :
  NoDup (map Lifecycle.id sessions) ->
  In s sessions -> In s' sessions ->
  Lifecycle.id s = Lifecycle.id s' -> s = s'.
Proof.
  induction sessions as [|x l IH]; simpl; [tauto|].
  intros Hnd [->|Hs] [->|Hs'] Hid; inversion Hnd as [|? ? Hnotin Hnd']; subst.
  - reflexivity.
  - exfalso. apply Hnotin. rewrite Hid. now apply in_map.
  - exfalso. apply Hnotin. rewrite <- Hid. now apply in_map.
  - now apply IH.
Qed.

Lemma tick_silent_on_terminal (now : nat) (sessions : list Lifecycle.Session)
    (s : Lifecycle.Session) (a : Lifecycle.action) :
  NoDup (map Lifecycle.id sessions) ->
  In s sessions -> Types.is_terminal (Lifecycle.status s) = true ->
  In a (snd (tick now sessions)) ->
  Lifecycle.action_id a <> Lifecycle.id s.
Proof.
  intros Hnd Hs Ht Ha Hid. unfold tick, Lifecycle.tick in Ha. simpl in Ha.
  apply in_concat in Ha. destruct Ha as (acts & Hacts & Ha).
  rewrite map_map in Hacts. apply in_map_iff in Hacts.
  destruct Hacts as (s' & <- & Hs').
  apply tick_session_actions in Ha. destruct Ha as [Hid' Hnt].
  assert (s = s').
  { apply (same_id_same_session sessions); try assumption. congruence. }
  subst s'. congruence.
Qed.

Lemma ticks_succ (n now : nat) (sessions : list Lifecycle.Session) :
  ticks (S n) now sessions
  = (fst (ticks n (S now) (fst (tick now sessions))),
     snd (tick now sessions) ++ snd (ticks n (S now) (fst (tick now sessions)))).
Proof.
  unfold ticks, tick. cbn [Lifecycle.ticks].
  destruct (Lifecycle.tick gather determineStatus now sessions)
    as [sessions1 log1].
  cbn [fst snd].
  destruct (Lifecycle.ticks gather determineStatus n (S now) sessions1).
  reflexivity.
Qed.

Lemma ticks_keep_terminal (n : nat) :
  forall now sessions i s,
    nth_error sessions i = Some s ->
    Types.is_terminal (Lifecycle.status s) = true ->
    nth_error (fst (ticks n now sessions)) i = Some s.
Proof.
  induction n as [|n IH]; intros now sessions i s Hn Ht; [exact Hn|].
  rewrite ticks_succ. simpl fst.
  apply IH; [|exact Ht]. now apply tick_keeps_terminal.
Qed.

Lemma ticks_silent_on_terminal (n : nat) :
  forall now sessions s a,
    NoDup (map Lifecycle.id sessions) ->
    In s sessions -> Types.is_terminal (Lifecycle.status s) = true ->
    In a (snd (ticks n now sessions)) ->
    Lifecycle.action_id a <> Lifecycle.id s.
Proof.
  induction n as [|n IH]; intros now sessions s a Hnd Hs Ht Ha; [destruct Ha|].
  rewrite ticks_succ in Ha. simpl snd in Ha.
  apply in_app_or in Ha. destruct Ha as [Ha|Ha].
  - now apply (tick_silent_on_terminal now sessions).
  - apply In_nth_error in Hs. destruct Hs as [i Hi].
    apply (IH (S now) (fst (tick now sessions))); try assumption.
    + now rewrite tick_ids.
    + eapply nth_error_In. apply tick_keeps_terminal; eassumption.
Qed.

End TickClaims.

(** C9, as amended: in a reconciliation tick, modelled from section 4.3, a
    session whose status is terminal is filtered out first, so that no
    number of ticks changes its status, polls it or reacts for it; and the
    liveness check of `ao start` treats a session in a terminal status as
    not running. Operations outside the tick are not covered: the store
    rewrites a terminal record like any other, and `ao start` spawns the
    orchestrator again under the same ID. *)
Theorem terminal_sessions_are_left_alone_by_ticks :
  (forall (Signals : Type) (gather : nat -> Js.str -> Signals)
          (determineStatus : Signals -> Js.str -> Js.str)
          n now sessions i s,
      nth_error sessions i = Some s ->
      Types.is_terminal (Lifecycle.status s) = true ->
      nth_error (fst (Lifecycle.ticks gather determineStatus n now sessions)) i
      = Some s) /\
  (forall (Signals : Type) (gather : nat -> Js.str -> Signals)
          (determineStatus : Signals -> Js.str -> Js.str)
          n now sessions s a,
      NoDup (map Lifecycle.id sessions) ->
      In s sessions ->
      Types.is_terminal (Lifecycle.status s) = true ->
      In a (snd (Lifecycle.ticks gather determineStatus n now sessions)) ->
      Lifecycle.action_id a <> Lifecycle.id s) /\
  (forall existing,
      Types.is_terminal (Start.status existing) = true ->
      Start.live (Some existing) = false).
Proof.
  split; [|split].
  - intros Signals gather determineStatus n. apply ticks_keep_terminal.
  - intros Signals gather determineStatus n. apply ticks_silent_on_terminal.
  - intros existing H. simpl. now rewrite H.
Qed.

Lemma terminal_sessions_are_left_alone_by_ticks_witness :
  nth_error
    (fst (Lifecycle.ticks OneSlot.no_signals OneSlot.always_failing 3 0
            OneSlot.fleet)) 0
  = Some {| Lifecycle.id := Js.lit "app-1";
            Lifecycle.status := Js.lit "merged" |} /\
  Start.live (Some OneSlot.killed) = false.
Proof.
  destruct terminal_sessions_are_left_alone_by_ticks as (Hkeep & _ & Hlive).
  split.
  - apply Hkeep; reflexivity.
  - apply Hlive. reflexivity.
Defined.

(** C9 as stated fails for operations other than ticks: the record of a
    killed orchestrator is rewritten by updateMetadata with status
    "working", and `ao start`, which takes a killed orchestrator for not
    running, spawns it again under the same ID, where it has status
    "spawning". *)
Lemma terminal_status_changes_outside_ticks :
  Types.is_terminal (Js.lit "killed") = true /\
  (exists R,
      Metadata.readMetadata OneSlot.killed_store (Js.lit "app-orchestrator")
      = Ok (Some R)
      /\ Metadata.status R = Js.lit "killed") /\
  (exists st' R',
      Metadata.updateMetadata OneSlot.killed_store (Js.lit "app-orchestrator")
        [(Js.lit "status", Some (Js.lit "working"))] = Ok st'
      /\ Metadata.readMetadata st' (Js.lit "app-orchestrator") = Ok (Some R')
      /\ Metadata.status R' = Js.lit "working") /\
  OneSlot.start (Some OneSlot.killed) OneSlot.no_prompt
  = (Ok {| Start.exists_ := false;
           Start.tmuxTarget := Js.lit "app-orchestrator" |},
     Some {| Start.id := Js.lit "app-orchestrator";
             Start.status := Js.lit "spawning";
             Start.runtimeHandle := Some (Js.lit "app-orchestrator") |},
     [Start.Get (Js.lit "app-orchestrator");
      Start.SpawnOrchestrator (Js.lit "app")
        (OneSlot.prompt_text (Js.lit "app") None) None]).
Proof.
  split; [reflexivity|].
  split; [eexists; split; reflexivity|].
  split; [eexists; eexists; split; [reflexivity|]; split; reflexivity|].
  reflexivity.
Qed.

(* ===================================================================== *)
(** ** Deleting and archiving a record *)

Section Deletion.
Import Metadata Stmt StoreStmt.

Lemma put_put {V} (k : Js.str) (v v' : V) (o : Assoc.t V) :
  Assoc.put k v' (Assoc.put k v o) = Assoc.put k v' o.
Proof.
  induction o as [|[k0 v0] o IH]; simpl.
  - now rewrite eqb_refl.
  - destruct (Js.eqb k0 k) eqn:E; simpl.
    + now rewrite eqb_refl.
    + now rewrite E, IH.
Qed.

Lemma path_eq_dec (p q : path) : p = q \/ p <> q.
Proof.
  destruct p as [a|a b], q as [c|c d]; try (right; discriminate).
  - destruct (eqb_spec a c) as [->|H]; [now left | right; congruence].
  - destruct (eqb_spec a c) as [->|H]; [|right; congruence].
    destruct (eqb_spec b d) as [->|H]; [now left | right; congruence].
Qed.

Lemma isFile_file_at (st : store) (q : path) :
  isFile st q = match file_at st q with Some _ => true | None => false end.
Proof.
  unfold file_at.
  destruct st as [d|], q as [id|dir id]; simpl; try reflexivity.
  - now destruct (Assoc.get id d) as [[c|ch]|].
  - destruct (Assoc.get dir d) as [[c|ch]|]; try reflexivity.
    now destruct (Assoc.get id ch) as [[c|]|].
Qed.

Lemma file_at_read (st : store) (q : path) (c : Js.str) :
  file_at st q = Some c <-> readFileSync st q = Ok c.
Proof.
  unfold file_at. destruct (readFileSync st q); split; congruence.
Qed.

(** Removing a file leaves every other file as it was. *)
Lemma unlink_file (st : store) (p : path) :
  isFile st p = true ->
  exists st',
    unlinkSync st p = Ok st' /\
    file_at st' p = None /\
    forall q, q <> p -> file_at st' q = file_at st q.
Proof.
  destruct st as [d|]; [|destruct p; discriminate].
  destruct p as [id|dir id]; simpl.
  - destruct (Assoc.get id d) as [[c|ch]|] eqn:Hg; try discriminate.
    intros _. eexists. split; [reflexivity|]. split.
    + unfold file_at; simpl. now rewrite get_remove_eq.
    + intros [id'|dir' id'] Hne; unfold file_at; simpl.
      * rewrite get_remove_ne by congruence. reflexivity.
      * destruct (eqb_spec id dir') as [<-|Hd].
        -- now rewrite get_remove_eq, Hg.
        -- now rewrite get_remove_ne by assumption.
  - destruct (Assoc.get dir d) as [[c|ch]|] eqn:Hg; try discriminate.
    destruct (Assoc.get id ch) as [[c|]|] eqn:Hg'; try discriminate.
    intros _. eexists. split; [reflexivity|]. split.
    + unfold file_at; simpl. now rewrite get_put_eq, get_remove_eq.
    + intros [id'|dir' id'] Hne; unfold file_at; simpl.
      * destruct (eqb_spec dir id') as [<-|Hd].
        -- now rewrite get_put_eq, Hg.
        -- now rewrite get_put_ne by assumption.
      * destruct (eqb_spec dir dir') as [<-|Hd].
        -- rewrite get_put_eq, Hg.
           rewrite get_remove_ne by congruence. reflexivity.
        -- now rewrite get_put_ne by assumption.
Qed.


(** Writing a file into the archive directory leaves every other file as
    it was. *)
Lemma archive_write (st : store) (name content : Js.str) :
  archive_free st name = true ->
  exists st',
    (let* st0 := mkdirParent st (InProject ARCHIVE name) in
     writeFileSync st0 (InProject ARCHIVE name) content) = Ok st' /\
    file_at st' (InProject ARCHIVE name) = Some (encode content) /\
    forall q, q <> InProject ARCHIVE name -> file_at st' q = file_at st q.
Proof.
  assert (Hframe : forall d ch c0,
            (match Assoc.get ARCHIVE d with
             | Some (EDir ch') => ch' = ch
             | Some (EFile _) => False
             | None => ch = []
             end) ->
            forall q, q <> InProject ARCHIVE name ->
              file_at (Some (Assoc.put ARCHIVE
                               (EDir (Assoc.put name (File c0) ch)) d)) q
              = file_at (Some d) q).
  { intros d ch c0 Hch [id'|dir' id'] Hne; unfold file_at; simpl.
    - destruct (eqb_spec ARCHIVE id') as [<-|Hd].
      + rewrite get_put_eq.
        now destruct (Assoc.get ARCHIVE d) as [[c|ch']|].
      + now rewrite get_put_ne by assumption.
    - destruct (eqb_spec ARCHIVE dir') as [<-|Hd].
      + rewrite get_put_eq. rewrite get_put_ne by congruence.
        destruct (Assoc.get ARCHIVE d) as [[c|ch']|];
          [contradiction | now subst | now subst].
      + now rewrite get_put_ne by assumption. }
  assert (Hfit : (List.length name <=? 255) = true -> too_long name = false).
  { intros H. rewrite too_long_spec. now rewrite H. }
  assert (Hsome : forall d,
            archive_free (Some d) name = true ->
            exists st',
              (let* st0 := mkdirParent (Some d) (InProject ARCHIVE name) in
               writeFileSync st0 (InProject ARCHIVE name) content) = Ok st' /\
              file_at st' (InProject ARCHIVE name) = Some (encode content) /\
              forall q, q <> InProject ARCHIVE name ->
                        file_at st' q = file_at (Some d) q).
  { intros d. unfold archive_free. cbn [dir_of mkdirParent].
    destruct (Assoc.get ARCHIVE d) as [[c|ch]|] eqn:Hg; try discriminate.
    - destruct (Assoc.get name ch) as [[c|]|] eqn:Hn; try discriminate;
        intros Hl; cbn [rbind writeFileSync]; rewrite Hg, Hn;
        try rewrite (Hfit Hl);
        (eexists; split; [reflexivity|]; split;
         [unfold file_at; cbn [readFileSync];
          now rewrite get_put_eq, get_put_eq, decode_encode
         | apply Hframe; now rewrite Hg]).
    - intros Hl. cbn [rbind writeFileSync]. rewrite get_put_eq.
      cbn [Assoc.get]. rewrite (Hfit Hl).
      eexists. split; [reflexivity|].
      rewrite put_put. split.
      + unfold file_at; cbn [readFileSync]. rewrite get_put_eq.
        now rewrite get_put_eq, decode_encode.
      + apply Hframe. now rewrite Hg. }
  destruct st as [d|]; [exact (Hsome d)|].
  intros Hl. destruct (Hsome [] Hl) as (st' & Hw & Ha & Hf).
  exists st'. split; [exact Hw|]. split; [exact Ha|].
  intros q Hq. rewrite (Hf q Hq). now destruct q.
Qed.


(** Which IDs the listing holds, in terms of the files of the store. *)
Lemma listed_iff (st : store) (id : Js.str) :
  In id (listMetadata st)
  <-> Js.VALID_SESSION_ID id = true /\ id <> ARCHIVE /\
      (stored_flat st id \/ stored_in_visible_project st id).
Proof.
  destruct st as [d|]; simpl.
  2:{ split; [tauto|]. unfold stored_flat, stored_in_visible_project.
      simpl. intros (_ & _ & [H|(dir & _ & _ & H)]); discriminate. }
  rewrite fold_scan_entry_spec. unfold contributes, listed_in, skipped.
  unfold stored_flat, stored_in_visible_project. simpl. split.
  - intros [[]|(name & Hin & Hs & [((c & Hc) & Hv & ->)|H])].
    + apply orb_false_iff in Hs. destruct Hs as [Ha _].
      apply eqb_neq in Ha. repeat split; try assumption.
      left. now rewrite Hc.
    + destruct H as (ch & Hch & He & Hk & Hs' & Hv & c & Hc).
      apply orb_false_iff in Hs'. destruct Hs' as [Ha _].
      apply eqb_neq in Ha. repeat split; try assumption.
      right. exists name. apply orb_false_iff in Hs.
      repeat split; try tauto. now rewrite Hch, Hc.
  - intros (Hv & Ha & [H|(dir & Hdot & He & H)]); right.
    + exists id.
      destruct (Assoc.get id d) as [[c|ch]|] eqn:Hg; try discriminate.
      split; [apply get_some_in in Hg; now apply (in_map fst) in Hg|].
      split.
      * apply orb_false_iff. split; [now apply eqb_neq | now apply valid_not_dot].
      * left. repeat split; try assumption. now exists c.
    + exists dir.
      destruct (Assoc.get dir d) as [[c|ch]|] eqn:Hg; try discriminate.
      destruct (Assoc.get id ch) as [[c|]|] eqn:Hg'; try discriminate.
      split; [apply get_some_in in Hg; now apply (in_map fst) in Hg|].
      split.
      * apply orb_false_iff. split; [now apply sessions_dir_not_archive | assumption].
      * right. exists ch. split; [reflexivity|]. split; [assumption|].
        split; [apply get_some_in in Hg'; now apply (in_map fst) in Hg'|].
        split; [|split; [assumption | now exists c]].
        apply orb_false_iff. split; [now apply eqb_neq | now apply valid_not_dot].
Qed.

(** The listing depends on the store only through which paths are
    files. *)
Lemma listed_mono (st st' : store) (id : Js.str) :
  (forall q, layout_path id q -> isFile st' q = true -> isFile st q = true) ->
  In id (listMetadata st') -> In id (listMetadata st).
Proof.
  intros H. rewrite !listed_iff.
  unfold stored_flat, stored_in_visible_project.
  intros (Hv & Ha & [Hf|(dir & Hdot & He & Hf)]).
  - repeat split; try assumption. left. apply H; [now left | assumption].
  - repeat split; try assumption. right. exists dir.
    repeat split; try assumption.
    apply H; [right; now exists dir | assumption].
Qed.

Lemma resolved_is_layout_path (st : store) (id : Js.str) (p : path) :
  resolveMetadataPath st id = Ok (Some p) -> layout_path id p.
Proof.
  intros H. destruct (resolve_some _ _ _ H) as (_ & _ & [->|(_ & dir & -> & He)]).
  - now left.
  - right. now exists dir.
Qed.

Lemma layout_path_not_archive (id name : Js.str) (q : path) :
  layout_path id q -> q <> InProject ARCHIVE name.
Proof.
  intros [->|(dir & He & ->)]; [discriminate|].
  intros [= -> _]. discriminate.
Qed.

Lemma layout_path_inj (id x : Js.str) (q : path) :
  layout_path id q -> layout_path x q -> x = id.
Proof.
  intros [->|(dir & _ & ->)] [H|(dir' & _ & H)]; congruence.
Qed.

Lemma isFile_eq_of_file_at (st st' : store) (q : path) :
  file_at st' q = file_at st q -> isFile st' q = isFile st q.
Proof. intros H. now rewrite !isFile_file_at, H. Qed.


Lemma read_none_resolve (st : store) (id : Js.str) :
  readMetadata st id = Ok None -> resolveMetadataPath st id = Ok None.
Proof.
  unfold readMetadata.
  destruct (resolveMetadataPath st id) as [[p|]|e] eqn:Hr; simpl;
    try discriminate; [|reflexivity].
  destruct (resolve_some _ _ _ Hr) as (_ & Hf & _).
  destruct (isFile_read _ _ Hf) as [c ->]. discriminate.
Qed.

(** X2: deleteMetadata, no record: when readMetadata finds no record for the
    session, deleteMetadata changes nothing, with or without archiving; in
    particular no archive directory is made. *)
Theorem delete_without_record_changes_nothing
    (st : store) (id : Js.str) (archive : bool) (now : Js.str) :
  readMetadata st id = Ok None ->
  deleteMetadata st id archive now = Ok st.
Proof.
  intros H. apply read_none_resolve in H.
  unfold deleteMetadata. now rewrite H.
Qed.

Lemma delete_without_record_changes_nothing_witness :
  readMetadata project_only_store (Js.lit "app-9") = Ok None /\
  deleteMetadata project_only_store (Js.lit "app-9") true stamp
  = Ok project_only_store.
Proof.
  split; [reflexivity|].
  apply (delete_without_record_changes_nothing project_only_store
           (Js.lit "app-9") true stamp).
  reflexivity.
Defined.

(** X3: deleteMetadata without archiving: the file that resolveMetadataPath
    finds is removed and every other file keeps its content; the call
    cannot fail; and afterwards readMetadata still finds a record exactly
    when the session had a second copy, in the other layout or in another
    project directory. *)
Theorem delete_removes_one_copy
    (st : store) (id : Js.str) (p : path) (now : Js.str) :
  resolveMetadataPath st id = Ok (Some p) ->
  exists st',
    deleteMetadata st id false now = Ok st' /\
    file_at st' p = None /\
    (forall q, q <> p -> file_at st' q = file_at st q) /\
    ((exists R, readMetadata st' id = Ok (Some R))
     <-> exists q, q <> p /\ layout_path id q /\ isFile st q = true).
Proof.
  intros Hres.
  destruct (resolve_some _ _ _ Hres) as (Hv & Hf & _).
  destruct (unlink_file st p Hf) as (st' & Hu & Hgone & Hframe).
  exists st'. split; [|split; [exact Hgone|split; [exact Hframe|]]].
  - unfold deleteMetadata. rewrite Hres. simpl. exact Hu.
  - rewrite (read_finds_both_layouts st' id Hv).
    unfold stored_flat, stored_in_project.
    assert (Hp' : isFile st' p = false) by now rewrite isFile_file_at, Hgone.
    split.
    + intros [H|(dir & He & H)].
      * exists (Flat id).
        destruct (path_eq_dec (Flat id) p) as [E|E]; [congruence|].
        split; [assumption|]. split; [now left|].
        now rewrite <- (isFile_eq_of_file_at st st' _ (Hframe _ E)).
      * exists (InProject dir id).
        destruct (path_eq_dec (InProject dir id) p) as [E|E]; [congruence|].
        split; [assumption|]. split; [right; now exists dir|].
        now rewrite <- (isFile_eq_of_file_at st st' _ (Hframe _ E)).
    + intros (q & Hq & [->|(dir & He & ->)] & H).
      * left. now rewrite (isFile_eq_of_file_at st st' _ (Hframe _ Hq)).
      * right. exists dir. split; [assumption|].
        now rewrite (isFile_eq_of_file_at st st' _ (Hframe _ Hq)).
Qed.

Lemma delete_removes_one_copy_witness :
  resolveMetadataPath doubled_store (Js.lit "app-1")
    = Ok (Some (Flat (Js.lit "app-1"))) /\
  exists st',
    deleteMetadata doubled_store (Js.lit "app-1") false stamp = Ok st' /\
    exists R, readMetadata st' (Js.lit "app-1") = Ok (Some R).
Proof.
  split; [reflexivity|].
  destruct (delete_removes_one_copy doubled_store (Js.lit "app-1")
              (Flat (Js.lit "app-1")) stamp eq_refl)
    as (st' & Hd & _ & _ & Hiff).
  exists st'. split; [exact Hd|]. apply Hiff.
  exists (InProject (Js.lit "app-sessions") (Js.lit "app-1")).
  split; [discriminate|]. split; [|reflexivity].
  right. exists (Js.lit "app-sessions"). split; reflexivity.
Defined.

(** X4: deleteMetadata with archiving: when the archive directory can take the
    file, the content of the record is kept under
    archive/{sessionId}_{timestamp}, the record itself is removed, no other
    file changes, and the listing loses at most this session: archived
    records are never listed. *)
Theorem delete_archives_the_record
    (st : store) (id : Js.str) (p : path) (now : Js.str) :
  resolveMetadataPath st id = Ok (Some p) ->
  archive_free st (archiveName id now) = true ->
  exists st',
    deleteMetadata st id true now = Ok st' /\
    file_at st' p = None /\
    file_at st' (archivePath id now) = file_at st p /\
    (forall q, q <> p -> q <> archivePath id now ->
               file_at st' q = file_at st q) /\
    (forall x, In x (listMetadata st') -> In x (listMetadata st)) /\
    (forall x, x <> id -> In x (listMetadata st) -> In x (listMetadata st')).
Proof.
  intros Hres Hfree.
  destruct (resolve_some _ _ _ Hres) as (Hv & Hf & _).
  pose proof (resolved_is_layout_path _ _ _ Hres) as Hlp.
  pose proof (layout_path_not_archive id (archiveName id now) p Hlp) as Hpa.
  destruct (isFile_read _ _ Hf) as [content Hc].
  destruct (archive_write st (archiveName id now) content Hfree)
    as (st1 & Hw & Ha & Hframe1).
  assert (Hf1 : isFile st1 p = true).
  { now rewrite (isFile_eq_of_file_at st st1 p (Hframe1 _ Hpa)). }
  destruct (unlink_file st1 p Hf1) as (st' & Hu & Hgone & Hframe2).
  assert (Hframe : forall q, q <> p -> q <> archivePath id now ->
                             file_at st' q = file_at st q).
  { intros q Hq Hq'. rewrite (Hframe2 q Hq). now apply Hframe1. }
  exists st'. split; [|split; [exact Hgone|split; [|split; [exact Hframe|split]]]].
  - unfold deleteMetadata. rewrite Hres. cbn [rbind].
    unfold archivePath in *.
    destruct (mkdirParent st (InProject ARCHIVE (archiveName id now)))
      as [st0|e] eqn:Hm; cbn [rbind] in Hw |- *; [|discriminate].
    assert (Hc0 : readFileSync st0 p = Ok content).
    { destruct st as [d|]; [|destruct p; discriminate].
      cbn [mkdirParent] in Hm.
      destruct (Assoc.get ARCHIVE d) as [[c|ch]|] eqn:Hg; try discriminate;
        injection Hm as <-; [exact Hc|].
      clear -Hc Hg Hpa Hlp. destruct p as [i|dir i]; cbn [readFileSync] in *.
      - destruct (eqb_spec ARCHIVE i) as [<-|Hne].
        + rewrite Hg in Hc. discriminate.
        + now rewrite get_put_ne by assumption.
      - destruct (eqb_spec ARCHIVE dir) as [<-|Hne].
        + rewrite Hg in Hc. discriminate.
        + now rewrite get_put_ne by assumption. }
    rewrite Hc0. cbn [rbind]. rewrite Hw. cbn [rbind]. exact Hu.
  - unfold archivePath. rewrite (Hframe2 _ (not_eq_sym Hpa)), Ha.
    rewrite (encode_well_formed _ (read_well_formed _ _ _ Hc)).
    symmetry. now apply file_at_read.
  - intros x. apply listed_mono. intros q Hq Hfile.
    destruct (path_eq_dec q p) as [->|Hne].
    + rewrite isFile_file_at, Hgone in Hfile. discriminate.
    + rewrite <- (isFile_eq_of_file_at st st' q); [assumption|].
      apply Hframe; [assumption|]. now apply (layout_path_not_archive x).
  - intros x Hx. apply listed_mono. intros q Hq Hfile.
    assert (Hne : q <> p).
    { intros ->. apply Hx. exact (layout_path_inj id x p Hlp Hq). }
    rewrite (isFile_eq_of_file_at st st' q); [assumption|].
    apply Hframe; [assumption|]. now apply (layout_path_not_archive x).
Qed.

Lemma delete_archives_the_record_witness :
  resolveMetadataPath mixed_store (Js.lit "app-3")
    = Ok (Some (InProject (Js.lit "app-sessions") (Js.lit "app-3"))) /\
  archive_free mixed_store (archiveName (Js.lit "app-3") stamp) = true /\
  archiveName (Js.lit "app-3") stamp = Js.lit "app-3_2026-01-02T03-04-05-678Z" /\
  exists st',
    deleteMetadata mixed_store (Js.lit "app-3") true stamp = Ok st' /\
    file_at st' (archivePath (Js.lit "app-3") stamp)
    = Some (Js.lit "status=working" ++ [Js.NL]) /\
    listMetadata st' = [Js.lit "app-1"].
Proof.
  split; [reflexivity|]. split; [reflexivity|]. split; [reflexivity|].
  destruct (delete_archives_the_record mixed_store (Js.lit "app-3")
              (InProject (Js.lit "app-sessions") (Js.lit "app-3")) stamp
              eq_refl eq_refl)
    as (st' & Hd & _ & Ha & _).
  exists st'. split; [exact Hd|]. split; [exact Ha|].
  assert (E : Ok st' = deleteMetadata mixed_store (Js.lit "app-3") true stamp)
    by now rewrite Hd.
  vm_compute in E. injection E as ->. reflexivity.
Defined.


(** X5: deleteMetadata and a session called "archive": "archive" is a valid
    session ID, and once writeMetadata has stored a record under it, the
    flat file stands where the archive directory should be, so that
    deleting any record with archiving fails with EEXIST before anything
    is archived or removed. *)
Theorem session_named_archive_blocks_archiving
    (st0 st : store) (R : SessionMetadata) (id : Js.str) (p : path)
    (now : Js.str) :
  writeMetadata st0 ARCHIVE R = Ok st ->
  resolveMetadataPath st id = Ok (Some p) ->
  Js.VALID_SESSION_ID ARCHIVE = true /\
  deleteMetadata st id true now = Throw (SystemError "EEXIST").
Proof.
  intros Hw Hres. split; [reflexivity|].
  assert (Hg : exists c, Assoc.get ARCHIVE (dir_of st) = Some (EFile c)).
  { unfold writeMetadata, metadataPath in Hw.
    rewrite validate_ok in Hw by reflexivity. cbn [rbind] in Hw.
    destruct st0 as [d|]; cbn [mkdirParent rbind writeFileSync] in Hw.
    - destruct (Assoc.get ARCHIVE d) as [[c|ch]|]; try discriminate;
        [|destruct (too_long ARCHIVE); [discriminate|]];
        injection Hw as <-; cbn [dir_of]; rewrite get_put_eq; eauto.
    - cbn [Assoc.get] in Hw. destruct (too_long ARCHIVE); [discriminate|].
      injection Hw as <-. simpl. eauto. }
  destruct Hg as [c Hg].
  unfold deleteMetadata. rewrite Hres. cbn [rbind].
  destruct st as [d|]; [|discriminate].
  unfold archivePath. cbn [mkdirParent dir_of] in *. now rewrite Hg.
Qed.

Lemma session_named_archive_blocks_archiving_witness :
  exists st,
    writeMetadata working_store ARCHIVE sample_record = Ok st /\
    resolveMetadataPath st (Js.lit "app-1") = Ok (Some (Flat (Js.lit "app-1"))) /\
    deleteMetadata st (Js.lit "app-1") true stamp = Throw (SystemError "EEXIST").
Proof.
  eexists. split; [reflexivity|]. split; [reflexivity|].
  eapply (session_named_archive_blocks_archiving working_store _ sample_record
            (Js.lit "app-1") (Flat (Js.lit "app-1")) stamp); reflexivity.
Defined.

Lemma invalid_char (id : Js.str) (c : N) :
  In c id -> Js.is_id_char c = false -> Js.VALID_SESSION_ID id = false.
Proof.
  intros Hin Hc. unfold Js.VALID_SESSION_ID.
  destruct id as [|x s]; [reflexivity|].
  destruct (forallb Js.is_id_char (x :: s)) eqn:E; [|reflexivity].
  rewrite forallb_forall in E. rewrite (E c Hin) in Hc. discriminate.
Qed.

(** X1: validateSessionId: an ID that is empty or holds a character outside
    [a-zA-Z0-9_-], such as a slash, a backslash or a dot, is refused by
    every operation of the store with the error "Invalid session ID: ...",
    whatever the store holds; so no operation reaches a path outside the
    data directory. *)
Theorem invalid_id_is_refused_by_every_operation (st : store) (id : Js.str) :
  id = [] \/ (exists c, In c id /\ Js.is_id_char c = false) ->
  Js.is_id_char SLASH = false /\ Js.is_id_char BACKSLASH = false /\
  Js.is_id_char Js.DOT = false /\
  readMetadata st id = Throw (invalid_id id) /\
  readMetadataRaw st id = Throw (invalid_id id) /\
  (forall R, writeMetadata st id R = Throw (invalid_id id)) /\
  (forall updates, updateMetadata st id updates = Throw (invalid_id id)) /\
  (forall archive now, deleteMetadata st id archive now = Throw (invalid_id id)) /\
  reserveSessionId st id = Throw (invalid_id id).
Proof.
  intros H.
  assert (Hv : Js.VALID_SESSION_ID id = false).
  { destruct H as [->|(c & Hin & Hc)]; [reflexivity|].
    now apply (invalid_char id c). }
  assert (Hval : validateSessionId id = Throw (invalid_id id)).
  { unfold validateSessionId. now rewrite Hv. }
  assert (Hres : resolveMetadataPath st id = Throw (invalid_id id)).
  { unfold resolveMetadataPath. now rewrite Hval. }
  assert (Hpath : metadataPath id = Throw (invalid_id id)).
  { unfold metadataPath. now rewrite Hval. }
  split; [reflexivity|]. split; [reflexivity|]. split; [reflexivity|].
  split; [unfold readMetadata; now rewrite Hres|].
  split; [unfold readMetadataRaw; now rewrite Hres|].
  split; [intros R; unfold writeMetadata; now rewrite Hpath|].
  split; [intros u; unfold updateMetadata; now rewrite Hres|].
  split; [intros a now; unfold deleteMetadata; now rewrite Hres|].
  unfold reserveSessionId. now rewrite Hpath.
Qed.

Lemma invalid_id_is_refused_by_every_operation_witness :
  readMetadata mixed_store (Js.lit "../app-1")
  = Throw (invalid_id (Js.lit "../app-1")) /\
  reserveSessionId mixed_store (Js.lit "../app-1")
  = Throw (invalid_id (Js.lit "../app-1")).
Proof.
  assert (H : Js.lit "../app-1" = []
              \/ exists c, In c (Js.lit "../app-1") /\ Js.is_id_char c = false).
  { right. exists Js.DOT. split; [now left | reflexivity]. }
  destruct (invalid_id_is_refused_by_every_operation mixed_store
              (Js.lit "../app-1") H) as (_ & _ & _ & Hr & _ & _ & _ & _ & Hs).
  split; assumption.
Defined.

End Deletion.

(* ===================================================================== *)
(** ** Lines added to a record file *)

Section Appending.
Import Metadata Stmt.

Lemma split_nl_app (a b : Js.str) :
  Js.split_nl (a ++ Js.NL :: b) = Js.split_nl a ++ Js.split_nl b.
Proof.
  induction a as [|c a IH]; simpl.
  - reflexivity.
  - destruct (N.eqb c Js.NL); [now rewrite IH|].
    rewrite IH. destruct (Js.split_nl a) as [|l ls] eqn:E; [|reflexivity].
    destruct a as [|x a]; simpl in E; [discriminate|].
    destruct (N.eqb x Js.NL); [discriminate|].
    destruct (Js.split_nl a); discriminate.
Qed.

Lemma parse_app (a b : Js.str) :
  parseMetadataFile (a ++ Js.NL :: b)
  = fold_left parse_line (Js.split_nl b) (parseMetadataFile a).
Proof.
  unfold parseMetadataFile. now rewrite split_nl_app, fold_left_app.
Qed.

Lemma parse_final_newline (a : Js.str) :
  parseMetadataFile (a ++ [Js.NL]) = parseMetadataFile a.
Proof. rewrite parse_app. reflexivity. Qed.

(** X6: parseMetadataFile, repeated keys: when the line key=value is appended
    to a record file that ends with a newline, whatever the file held, the
    key reads as the new value, an earlier line for it being overridden,
    and every other key reads as before. *)
Theorem appended_line_overrides (body k v : Js.str) :
  clean_key k = true -> clean_value v = true ->
  let old := body ++ [Js.NL] in
  let new := old ++ entry_line (k, v) ++ [Js.NL] in
  Assoc.get k (parseMetadataFile new) = Some v /\
  forall k', k' <> k ->
    Assoc.get k' (parseMetadataFile new) = Assoc.get k' (parseMetadataFile old).
Proof.
  intros Hk Hv old new.
  assert (E : parseMetadataFile new
              = Assoc.put k v (parseMetadataFile old)).
  { unfold new, old. rewrite <- app_assoc. cbn [app].
    rewrite parse_app, parse_final_newline.
    rewrite split_nl_line by (apply entry_line_no_newline; now split).
    cbn [fold_left Js.split_nl].
    rewrite (parse_entry_line _ (k, v)) by now split.
    reflexivity. }
  rewrite E. split; [apply get_put_eq|].
  intros k' Hne. apply get_put_ne. congruence.
Qed.

Lemma appended_line_overrides_witness :
  Assoc.get (Js.lit "status")
    (parseMetadataFile
       ((Js.lit "status=working" ++ [Js.NL])
        ++ entry_line (Js.lit "status", Js.lit "merged") ++ [Js.NL]))
  = Some (Js.lit "merged").
Proof.
  apply (appended_line_overrides (Js.lit "status=working") (Js.lit "status")
           (Js.lit "merged")); reflexivity.
Defined.

End Appending.

(* ===================================================================== *)
(** ** Enumeration order of an object that was enumerated *)


Section Canonical.
Import ObjStmt.
Variable V : Type.
Implicit Types (o : Obj.t V) (l : list (N * (Js.str * V))).

Lemma insert_sorted_in n kv l x :
  In x (Obj.insert_sorted n kv l) <-> x = (n, kv) \/ In x l.
Proof.
  induction l as [|[m kv'] l IH]; simpl; [intuition|].
  destruct (N.leb n m); simpl; [intuition|].
  rewrite IH. intuition.
Qed.

Lemma insert_sorted_indexed n kv l :
  Obj.array_index (fst kv) = Some n -> indexed l ->
  indexed (Obj.insert_sorted n kv l).
Proof.
  intros Hn Hl. induction Hl as [|m kv' l Hm Hle Hl IH]; simpl.
  - constructor; [assumption | intros ? ? [] | constructor].
  - destruct (N.leb_spec n m) as [Hnm|Hnm].
    + constructor; [assumption| |now constructor].
      intros m' kv'' [[= <- <-]|Hin]; [assumption|].
      specialize (Hle _ _ Hin). lia.
    + constructor; [assumption| |assumption].
      intros m' kv'' Hin. apply insert_sorted_in in Hin.
      destruct Hin as [[= -> ->]|Hin]; [lia | now apply (Hle _ kv'')].
Qed.

Lemma index_entries_indexed o : indexed (Obj.index_entries o).
Proof.
  induction o as [|kv o IH]; simpl; [constructor|].
  destruct (Obj.array_index (fst kv)) as [n|] eqn:E; [|exact IH].
  now apply insert_sorted_indexed.
Qed.

Lemma insert_sorted_head n kv l :
  (forall m kv', In (m, kv') l -> (n <= m)%N) ->
  Obj.insert_sorted n kv l = (n, kv) :: l.
Proof.
  destruct l as [|[m kv'] l]; simpl; [reflexivity|].
  intros H. destruct (N.leb_spec n m) as [Hnm|Hnm]; [reflexivity|].
  specialize (H m kv' (or_introl eq_refl)). lia.
Qed.

Lemma index_entries_app_strings (a s : Obj.t V) :
  Forall (fun kv => Obj.array_index (fst kv) = None) s ->
  Obj.index_entries (a ++ s) = Obj.index_entries a.
Proof.
  intros Hs. unfold Obj.index_entries. rewrite fold_right_app. f_equal.
  induction Hs as [|kv s Hkv Hs IH]; simpl; [reflexivity|].
  now rewrite Hkv.
Qed.

Lemma index_entries_of_indexed l :
  indexed l -> Obj.index_entries (map snd l) = l.
Proof.
  intros H. induction H as [|n kv l Hn Hle Hl IH]; simpl; [reflexivity|].
  rewrite Hn. fold (Obj.index_entries (map snd l)). rewrite IH.
  now apply insert_sorted_head.
Qed.

Lemma string_entries_of_indexed l :
  indexed l -> Obj.string_entries (map snd l) = [].
Proof.
  intros H. induction H as [|n kv l Hn Hle Hl IH]; simpl; [reflexivity|].
  now rewrite Hn.
Qed.

Lemma string_entries_strings o :
  Forall (fun kv => Obj.array_index (fst kv) = None) (Obj.string_entries o).
Proof.
  apply Forall_forall. intros kv Hin. unfold Obj.string_entries in Hin.
  apply filter_In in Hin. destruct Hin as [_ H].
  now destruct (Obj.array_index (fst kv)).
Qed.

Lemma string_entries_idem (s : Obj.t V) :
  Forall (fun kv => Obj.array_index (fst kv) = None) s ->
  Obj.string_entries s = s.
Proof.
  intros H. induction H as [|kv s Hkv Hs IH]; simpl; [reflexivity|].
  rewrite Hkv. fold (Obj.string_entries s). now rewrite IH.
Qed.

(** A list made of indexed entries in ascending order followed by entries
    without an index is enumerated as it stands. *)
Lemma entries_of_canonical l (s : Obj.t V) :
  indexed l ->
  Forall (fun kv => Obj.array_index (fst kv) = None) s ->
  Obj.entries (map snd l ++ s) = map snd l ++ s.
Proof.
  intros Hl Hs. unfold Obj.entries.
  rewrite index_entries_app_strings by assumption.
  rewrite index_entries_of_indexed by assumption. f_equal.
  unfold Obj.string_entries. rewrite filter_app.
  fold (Obj.string_entries (map snd l)). fold (Obj.string_entries s).
  rewrite string_entries_of_indexed by assumption.
  now rewrite string_entries_idem.
Qed.

Lemma indexed_filter (P : Js.str * V -> bool) l :
  indexed l -> indexed (filter (fun x => P (snd x)) l).
Proof.
  intros H. induction H as [|n kv l Hn Hle Hl IH]; simpl; [constructor|].
  destruct (P kv); [|exact IH].
  constructor; [assumption| |exact IH].
  intros m kv' Hin. apply filter_In in Hin. now apply (Hle m kv').
Qed.

Lemma map_snd_filter (P : Js.str * V -> bool) l :
  map snd (filter (fun x => P (snd x)) l) = filter P (map snd l).
Proof.
  induction l as [|[n kv] l IH]; simpl; [reflexivity|].
  destruct (P kv); simpl; now rewrite IH.
Qed.

Lemma forall_filter {A} (Q : A -> Prop) (P : A -> bool) (xs : list A) :
  Forall Q xs -> Forall Q (filter P xs).
Proof.
  intros H. induction H as [|x xs Hx Hxs IH]; simpl; [constructor|].
  destruct (P x); [now constructor | assumption].
Qed.

(** Enumerating a selection of an enumeration changes nothing. *)
Lemma entries_filter_entries (P : Js.str * V -> bool) o :
  Obj.entries (filter P (Obj.entries o)) = filter P (Obj.entries o).
Proof.
  unfold Obj.entries at 2 3. rewrite filter_app, <- map_snd_filter.
  apply entries_of_canonical.
  - apply indexed_filter, index_entries_indexed.
  - apply forall_filter, string_entries_strings.
Qed.

End Canonical.

(* ===================================================================== *)
(** ** Updating twice *)

Section UpdateTwice.
Import Metadata Stmt.

Lemma put_same {V} (k : Js.str) (v : V) (o : Assoc.t V) :
  Assoc.get k o = Some v -> Assoc.put k v o = o.
Proof.
  induction o as [|[k' v'] o IH]; simpl; [discriminate|].
  destruct (eqb_spec k' k) as [->|Hk].
  - now intros [= ->].
  - intros H. now rewrite IH.
Qed.

Lemma remove_absent {V} (k : Js.str) (o : Assoc.t V) :
  Assoc.get k o = None -> Assoc.remove k o = o.
Proof.
  induction o as [|[k' v'] o IH]; simpl; [reflexivity|].
  destruct (Js.eqb k' k); [discriminate|].
  intros H. now rewrite IH.
Qed.

(** Writing the same content to a file a second time changes nothing. *)
Lemma write_write (st st1 : store) (p : path) (content : Js.str) :
  (let* s := mkdirParent st p in writeFileSync s p content) = Ok st1 ->
  (let* s := mkdirParent st1 p in writeFileSync s p content) = Ok st1.
Proof.
  destruct p as [id|dir id].
  - assert (Hone : forall d0,
              writeFileSync (Some d0) (Flat id) content = Ok st1 ->
              st1 = Some (Assoc.put id (EFile (encode content)) d0)).
    { intros d0. cbn [writeFileSync].
      destruct (Assoc.get id d0) as [[c|ch]|]; try discriminate;
        [|destruct (too_long id); [discriminate|]]; now intros [= <-]. }
    intros H.
    assert (Hst : exists d0,
              st1 = Some (Assoc.put id (EFile (encode content)) d0)).
    { destruct st as [d|]; cbn [mkdirParent rbind] in H;
        eexists; apply Hone; exact H. }
    destruct Hst as [d0 ->].
    cbn [mkdirParent rbind writeFileSync].
    now rewrite get_put_eq, put_put.
  - intros H.
    assert (Hst : exists d0 ch,
              st1 = Some (Assoc.put dir
                            (EDir (Assoc.put id (File (encode content)) ch))
                            d0)).
    { cbn [mkdirParent] in H.
      destruct (Assoc.get dir match st with None => [] | Some d => d end)
        as [[c|ch0]|] eqn:Hg; cbn [rbind] in H; try discriminate.
      - cbn [writeFileSync] in H. rewrite Hg in H.
        destruct (Assoc.get id ch0) as [[c|]|]; try discriminate;
          [|destruct (too_long id); [discriminate|]];
          injection H as <-; eauto.
      - cbn [writeFileSync] in H. rewrite get_put_eq in H.
        cbn [Assoc.get] in H.
        destruct (too_long id); [discriminate|].
        injection H as <-. eexists _, []. reflexivity. }
    destruct Hst as (d0 & ch & ->).
    cbn [mkdirParent]. rewrite get_put_eq. cbn [rbind writeFileSync].
    rewrite get_put_eq, get_put_eq.
    now rewrite put_put, put_put.
Qed.

(** The record read back after a merge takes the same merge without
    changing. *)
Lemma merge_again (us : list (Js.str * option Js.str)) (raw1 : Obj.t Js.str) :
  forallb clean_update us = true ->
  Obj.entries raw1 = raw1 ->
  (forall k v, In (k, v) us ->
     Assoc.get k raw1 = match v with
                        | Some (c :: s) => Some (c :: s)
                        | Some [] => None
                        | None => Assoc.get k raw1
                        end) ->
  fold_left merge_entry us raw1 = raw1.
Proof.
  intros Hcl Hcan. induction us as [|[k v] us IH]; intros Hget; simpl.
  - reflexivity.
  - simpl in Hcl. apply andb_true_iff in Hcl. destruct Hcl as [Hc Hcl].
    assert (Hstep : merge_entry raw1 (k, v) = raw1).
    { pose proof (Hget k v (or_introl eq_refl)) as Hk.
      unfold merge_entry; simpl. destruct v as [[|c s]|]; [| |reflexivity].
      - unfold Obj.rest_without. rewrite Hcan. now apply remove_absent.
      - destruct (clean_update_some k (c :: s)) as [Hkey _];
          [discriminate | assumption |].
        apply clean_key_spec in Hkey.
        destruct Hkey as (_ & _ & _ & _ & _ & Hproto).
        rewrite set_not_proto by assumption. now apply put_same. }
    rewrite Hstep. apply IH; [assumption|].
    intros k' v' Hin. apply Hget. now right.
Qed.

Lemma filter_idem {A} (P : A -> bool) (l : list A) :
  filter P (filter P l) = filter P l.
Proof.
  induction l as [|x l IH]; simpl; [reflexivity|].
  destruct (P x) eqn:E; simpl; [rewrite E|]; now rewrite IH.
Qed.

(** What the second update writes is what the first one wrote. *)
Lemma second_merge (updates : Obj.t (option Js.str)) (raw0 : Obj.t Js.str) :
  NoDup (Assoc.keys updates) -> clean_updates updates = true ->
  NoDup (Assoc.keys raw0) -> Forall clean_entry raw0 ->
  let merged := fold_left merge_entry (Obj.entries updates) raw0 in
  serializeMetadata
    (fold_left merge_entry (Obj.entries updates)
       (parseMetadataFile (serializeMetadata merged)))
  = serializeMetadata merged.
Proof.
  intros Hnd Hclean Hnd0 Hcl0 merged.
  assert (Hucl : forallb clean_update (Obj.entries updates) = true).
  { apply forallb_forall. intros kv Hin.
    apply (proj1 (in_entries _ _ _)) in Hin.
    unfold clean_updates in Hclean.
    rewrite forallb_forall in Hclean. now apply Hclean. }
  assert (Hund : NoDup (Assoc.keys (Obj.entries updates)))
    by now apply nodup_keys_entries.
  destruct (fold_merge_inv (Obj.entries updates) raw0 Hucl Hnd0 Hcl0)
    as [Hmnd Hmcl]. fold merged in Hmnd, Hmcl.
  rewrite parse_serialize by assumption.
  set (raw1 := filter (fun kv => nonempty (snd kv)) (Obj.entries merged)).
  assert (Hcan : Obj.entries raw1 = raw1) by apply entries_filter_entries.
  rewrite merge_again; [| assumption | assumption |].
  - unfold serializeMetadata. rewrite Hcan. unfold raw1.
    now rewrite filter_idem.
  - intros k v Hin.
    assert (Hk : Assoc.get k (Obj.entries updates) = Some v)
      by now apply in_get_nodup.
    unfold raw1.
    rewrite get_filter_nonempty by now apply nodup_keys_entries.
    rewrite get_entries by assumption.
    unfold merged. rewrite get_fold_merge by assumption. rewrite Hk.
    destruct v as [[|c s]|]; reflexivity.
Qed.


Lemma update_after (st st1 : store) (id : Js.str) (p : path)
    (updates : Obj.t (option Js.str)) (raw0 : Obj.t Js.str) :
  NoDup (Assoc.keys updates) -> clean_updates updates = true ->
  well_formed_updates updates = true ->
  NoDup (Assoc.keys raw0) -> Forall clean_entry raw0 ->
  Forall well_formed_entry raw0 ->
  let content :=
    serializeMetadata (fold_left merge_entry (Obj.entries updates) raw0) in
  (let* s := mkdirParent st p in writeFileSync s p content) = Ok st1 ->
  resolveMetadataPath st1 id = Ok (Some p) ->
  readFileSync st1 p = Ok (encode content) ->
  updateMetadata st1 id updates = Ok st1.
Proof.
  intros Hnd Hclean Hwf Hnd0 Hcl0 Hwf0 content Hw Hres Hread.
  assert (Huwf : forallb well_formed_update (Obj.entries updates) = true).
  { apply forallb_forall. intros kv Hin.
    apply (proj1 (in_entries _ _ _)) in Hin.
    unfold well_formed_updates in Hwf.
    rewrite forallb_forall in Hwf. now apply Hwf. }
  assert (Hcwf : Js.isWellFormed content = true)
    by now apply serialize_well_formed, fold_merge_well_formed.
  rewrite (encode_well_formed _ Hcwf) in Hread.
  destruct (resolve_some _ _ _ Hres) as (_ & Hf & _).
  unfold updateMetadata. rewrite Hres. cbn [rbind].
  rewrite (isFile_exists _ _ Hf), Hread. cbn [rbind].
  unfold content. rewrite second_merge by assumption.
  now apply (write_write st).
Qed.

(** X7: updateMetadata, applied twice: when an update with distinct, clean
    and well-formed keys and values (no surrogate without its partner,
    which the "utf-8" encoding would replace) has succeeded, applying the
    same update again succeeds and leaves the data directory exactly as
    the first application left it. *)
Theorem update_twice_is_update_once
    (st st1 : store) (id : Js.str) (updates : Obj.t (option Js.str)) :
  NoDup (Assoc.keys updates) ->
  clean_updates updates = true ->
  well_formed_updates updates = true ->
  updateMetadata st id updates = Ok st1 ->
  updateMetadata st1 id updates = Ok st1.
Proof.
  intros Hnd Hclean Hwf Hup.
  unfold updateMetadata in Hup.
  destruct (resolveMetadataPath st id) as [[p|]|e] eqn:Hres;
    cbn [rbind] in Hup; [| |discriminate].
  - destruct (resolve_some _ _ _ Hres) as (_ & Hf & _).
    rewrite (isFile_exists _ _ Hf) in Hup.
    destruct (isFile_read _ _ Hf) as [c Hc]. rewrite Hc in Hup.
    cbn [rbind] in Hup.
    destruct (write_resolved st id p
                (serializeMetadata
                   (fold_left merge_entry (Obj.entries updates)
                      (parseMetadataFile c))) Hres)
      as (st' & Hw & Hres' & Hc').
    rewrite Hw in Hup. injection Hup as <-.
    destruct (parse_clean c) as [Hnd0 Hcl0].
    apply (update_after st st' id p updates (parseMetadataFile c));
      try assumption.
    apply parse_well_formed. eapply read_well_formed, Hc.
  - pose proof (resolve_none _ _ Hres) as [Hflat _].
    assert (Hv : Js.VALID_SESSION_ID id = true).
    { unfold resolveMetadataPath, validateSessionId in Hres.
      destruct (Js.VALID_SESSION_ID id); [reflexivity | discriminate]. }
    unfold metadataPath in Hup. rewrite validate_ok in Hup by assumption.
    cbn [rbind] in Hup.
    destruct (existsSync st (Flat id)) eqn:Hex.
    + exfalso. destruct st as [d|]; [|discriminate].
      cbn [existsSync isFile readFileSync] in *. unfold Assoc.has in Hex.
      destruct (Assoc.get id d) as [[c|ch]|]; discriminate.
    + cbn [rbind] in Hup.
      assert (Hst : exists d0,
                st1 = Some (Assoc.put id
                              (EFile (encode
                                        (serializeMetadata
                                           (fold_left merge_entry
                                              (Obj.entries updates) []))))
                              d0)).
      { destruct st as [d|]; cbn [mkdirParent rbind writeFileSync] in Hup.
        - destruct (Assoc.get id d) as [[c|ch]|]; try discriminate;
            [|destruct (too_long id); [discriminate|]];
            injection Hup as <-; eauto.
        - cbn [Assoc.get] in Hup. destruct (too_long id); [discriminate|].
          injection Hup as <-. now exists []. }
      destruct Hst as [d0 Hst].
      apply (update_after st st1 id (Flat id) updates []);
        try assumption; try constructor.
      * rewrite Hst. eapply resolve_flat_file; [assumption | apply get_put_eq].
      * rewrite Hst. cbn [readFileSync].
        now rewrite get_put_eq, decode_encode.
Qed.

Lemma update_twice_is_update_once_witness :
  NoDup (Assoc.keys plain_update) /\
  clean_updates plain_update = true /\
  well_formed_updates plain_update = true /\
  exists st1,
    updateMetadata working_store (Js.lit "app-1") plain_update = Ok st1 /\
    updateMetadata st1 (Js.lit "app-1") plain_update = Ok st1.
Proof.
  assert (Hnd : NoDup (Assoc.keys plain_update)).
  { repeat constructor; simpl; intros H;
      repeat (destruct H as [H|H]; [discriminate|]); exact H. }
  split; [exact Hnd|]. split; [reflexivity|]. split; [reflexivity|].
  eexists. split; [reflexivity|].
  apply (update_twice_is_update_once working_store _ (Js.lit "app-1")
           plain_update Hnd eq_refl eq_refl).
  reflexivity.
Defined.

End UpdateTwice.

(* ===================================================================== *)
(** ** The tmux runtime: creating sessions, probing, temporary files *)

Section RuntimeFacts.
Import Proc TraceStmt RuntimeStmt.

Lemma runs_throw {A} (e : error) (w : world) : runs (@throw A e) w [] (Throw e).
Proof. apply runs_after. now rewrite after_nil. Qed.

(** X8: create: for a session ID outside [a-zA-Z0-9_-]+ no process is started
    and the error names the ID; otherwise tmux new-session is run with the
    workspace and one -e KEY=VALUE pair per environment entry, the launch
    command is typed only when new-session succeeded, and the handle that
    comes back carries the session ID. *)
Theorem create_checks_then_launches
    (E : env) (now : N) (config : TmuxRuntime.RuntimeCreateConfig) (w : world) :
  let new_session := ETmux (TmuxRuntime.new_session_args config) in
  let launch := ETmux (TmuxRuntime.launch_args config) in
  (Js.VALID_SESSION_ID (TmuxRuntime.sessionId config) = false ->
   runs (TmuxRuntime.create E now config) w []
     (Throw (Error (TmuxRuntime.unsafe_message (TmuxRuntime.sessionId config))))) /\
  (Js.VALID_SESSION_ID (TmuxRuntime.sessionId config) = true ->
   exists evs r,
     runs (TmuxRuntime.create E now config) w evs r /\
     (reply E (calls w) (TmuxRuntime.new_session_args config) = None ->
      evs = [new_session] /\ r = Throw (SystemError "tmux")) /\
     (reply E (calls w) (TmuxRuntime.new_session_args config) <> None ->
      evs = [new_session; launch] /\
      (reply E (S (calls w)) (TmuxRuntime.launch_args config) = None ->
       r = Throw (SystemError "tmux")) /\
      (reply E (S (calls w)) (TmuxRuntime.launch_args config) <> None ->
       exists handle,
         r = Ok handle /\
         TmuxRuntime.id handle = TmuxRuntime.sessionId config))).
Proof.
  intros new_session launch. split.
  - intros Hv. unfold TmuxRuntime.create, TmuxRuntime.assertValidSessionId.
    rewrite Hv. apply runs_bind_throw, runs_throw.
  - intros Hv. unfold TmuxRuntime.create, TmuxRuntime.assertValidSessionId.
    rewrite Hv.
    pose proof (runs_tmux E (TmuxRuntime.new_session_args config) w) as H1.
    destruct (reply E (calls w) (TmuxRuntime.new_session_args config))
      as [s1|] eqn:E1.
    + pose proof (runs_tmux E (TmuxRuntime.launch_args config)
                    (after w [new_session])) as H2.
      assert (Hc : calls (after w [new_session]) = S (calls w)).
      { unfold after, new_session, tmux_count; simpl. lia. }
      rewrite Hc in H2.
      destruct (reply E (S (calls w)) (TmuxRuntime.launch_args config))
        as [s2|] eqn:E2.
      * eexists [new_session; launch], _. split.
        -- change [new_session; launch] with ([] ++ [new_session] ++ [launch] ++ []).
           eapply runs_bind_ok; [apply runs_ret|]. rewrite after_nil.
           eapply runs_bind_ok; [exact H1|].
           eapply runs_bind_ok; [exact H2|]. apply runs_ret.
        -- split; [discriminate|]. intros _. split; [reflexivity|].
           split; [discriminate|]. intros _. eexists. split; reflexivity.
      * eexists [new_session; launch], _. split.
        -- change [new_session; launch] with ([] ++ [new_session] ++ [launch]).
           eapply runs_bind_ok; [apply runs_ret|]. rewrite after_nil.
           eapply runs_bind_ok; [exact H1|].
           apply runs_bind_throw. exact H2.
        -- split; [discriminate|]. intros _. split; [reflexivity|].
           split; [reflexivity|]. intros H. contradiction.
    + eexists [new_session], _. split.
      * change [new_session] with ([] ++ [new_session]).
        eapply runs_bind_ok; [apply runs_ret|]. rewrite after_nil.
        apply runs_bind_throw. exact H1.
      * split; [intros _; split; reflexivity|]. intros H. contradiction.
Qed.

Lemma create_checks_then_launches_witness :
  runs (TmuxRuntime.create idle_env 0 unsafe_config) start_world []
    (Throw (Error (TmuxRuntime.unsafe_message (Js.lit "app 1; rm -rf ~")))) /\
  exists evs handle,
    runs (TmuxRuntime.create idle_env 0 sample_config) start_world evs (Ok handle)
    /\ evs = [ ETmux [ Js.lit "new-session"; Js.lit "-d"; Js.lit "-s";
                       Js.lit "app-1"; Js.lit "-c";
                       Js.lit "/home/dev/.worktrees/app/app-1";
                       Js.lit "-e"; Js.lit "AO_SESSION_ID=app-1";
                       Js.lit "-e"; Js.lit "AO_PROJECT_ID=app" ];
               ETmux [ Js.lit "send-keys"; Js.lit "-t"; Js.lit "app-1";
                       Js.lit "codex --approval-mode full-auto";
                       Js.lit "Enter" ] ].
Proof.
  destruct (create_checks_then_launches idle_env 0 unsafe_config start_world)
    as [Hbad _].
  split; [apply Hbad; reflexivity|].
  destruct (create_checks_then_launches idle_env 0 sample_config start_world)
    as [_ Hgood].
  destruct (Hgood eq_refl) as (evs & r & Hruns & _ & Hok).
  destruct Hok as (Hevs & _ & Hr); [discriminate|].
  destruct Hr as (handle & -> & _); [discriminate|].
  exists evs, handle. split; [exact Hruns | exact Hevs].
Defined.


Lemma runs_catch_ok {A} (m h : M A) (w : world) (evs : list event) (a : A) :
  runs m w evs (Ok a) -> runs (catch m h) w evs (Ok a).
Proof. intros H. unfold runs, catch. now rewrite H. Qed.

Lemma runs_catch_throw {A} (m h : M A) (w : world) (evs1 evs2 : list event)
    (e : error) (r : result A) :
  runs m w evs1 (Throw e) -> runs h (after w evs1) evs2 r ->
  runs (catch m h) w (evs1 ++ evs2) r.
Proof.
  intros H1 H2. unfold runs in *. unfold catch. rewrite H1.
  change {| calls := calls w + tmux_count evs1; trace := trace w ++ evs1 |}
    with (after w evs1).
  rewrite H2. f_equal. apply after_app.
Qed.

(** A probe: one tmux command whose failure is caught. *)
Lemma runs_probe {A} (E : env) (args : list Js.str) (f : Js.str -> A) (d : A)
    (w : world) :
  runs (catch (bind (Tmux.tmux E args) (fun out => ret (f out))) (ret d)) w
    [ETmux args]
    (Ok match reply E (calls w) args with
        | Some stdout => f (Js.rtrim stdout)
        | None => d
        end).
Proof.
  pose proof (runs_tmux E args w) as H.
  destruct (reply E (calls w) args) as [stdout|].
  - apply runs_catch_ok. rewrite <- (app_nil_r [ETmux args]).
    eapply runs_bind_ok; [exact H | apply runs_ret].
  - rewrite <- (app_nil_r [ETmux args]).
    eapply runs_catch_throw; [apply runs_bind_throw; exact H | apply runs_ret].
Qed.

(** X9: isAlive, getOutput, destroy: each runs one tmux command and returns
    normally whether or not tmux fails; isAlive answers true exactly when
    has-session succeeded, getOutput gives the captured text without its
    trailing white space, or the empty string when capture-pane failed. *)
Theorem probes_swallow_tmux_failures
    (E : env) (handle : TmuxRuntime.RuntimeHandle) (lines : N) (w : world) :
  let target := TmuxRuntime.id handle in
  let has := [Js.lit "has-session"; Js.lit "-t"; target] in
  let cap := Tmux.capture_args target (Js.lit "-" ++ TmuxRuntime.digits lines) in
  runs (TmuxRuntime.isAlive E handle) w [ETmux has]
    (Ok match reply E (calls w) has with Some _ => true | None => false end) /\
  runs (TmuxRuntime.getOutput E handle lines) w [ETmux cap]
    (Ok match reply E (calls w) cap with
        | Some stdout => Js.rtrim stdout
        | None => []
        end) /\
  runs (TmuxRuntime.destroy E handle) w
    [ETmux [Js.lit "kill-session"; Js.lit "-t"; target]] (Ok tt).
Proof.
  intros target has cap. split; [|split].
  - pose proof (runs_probe E has (fun _ => true) false w) as H.
    now destruct (reply E (calls w) has).
  - unfold TmuxRuntime.getOutput. fold target. fold cap.
    pose proof (runs_tmux E cap w) as H. unfold runs in *. unfold catch.
    rewrite H. now destruct (reply E (calls w) cap).
  - pose proof (runs_probe E [Js.lit "kill-session"; Js.lit "-t"; target]
                  (fun _ => tt) tt w) as H.
    now destruct (reply E (calls w) _).
Qed.


Lemma files_left_app (a b : list event) (files : list Js.str) :
  fold_left file_step (a ++ b) files
  = fold_left file_step b (fold_left file_step a files).
Proof. apply fold_left_app. Qed.

Lemma files_untouched (a : list event) (files : list Js.str) :
  existsb touches_files a = false -> fold_left file_step a files = files.
Proof.
  revert files. induction a as [|e a IH]; intros files H; [reflexivity|].
  simpl in H. apply orb_false_iff in H. destruct H as [He Ha].
  simpl. rewrite IH by assumption. now destruct e.
Qed.

Lemma wait_trace_untouched (id : Js.str) (m : nat) :
  existsb touches_files (wait_trace id m) = false.
Proof. induction m as [|m IH]; [reflexivity | exact IH]. Qed.

(** What follows the loop of sendMessage removes the file it writes,
    however the tmux calls end, and writes none for a short message. *)
Lemma deliver_files (E : env) (id message : Js.str) (busy : bool) (c : nat) :
  let evs := events_of (Tmux.deliver E id message busy) c in
  fold_left file_step evs [] = [] /\
  (Tmux.is_long message = false -> existsb touches_files evs = false) /\
  (forall p x, In (EWriteFile p x) evs -> p = Tmux.tmpPath E /\ x = message).
Proof.
  unfold events_of.
  unfold Tmux.deliver, Tmux.inject, Tmux.tmux, bind, finally, ret, throw,
    sleep, emit, execTmux.
  generalize (Tmux.tmpPath E). intros p.
  assert (Hp : filter (fun q => negb (Js.eqb q p)) [p] = []).
  { simpl. now rewrite eqb_refl. }
  cbn [calls trace fst snd app].
  destruct (reply E c (Tmux.send_keys id (Js.lit "C-u"))) as [s0|];
    cbn [calls trace fst snd app].
  2:{ split; [reflexivity|]. split; [reflexivity|].
      intros q x [H|[]]; discriminate. }
  destruct (Tmux.is_long message); cbn [calls trace fst snd app].
  - destruct (reply E (S c) [Js.lit "load-buffer"; p]) as [s1|];
      cbn [calls trace fst snd app].
    2:{ split; [cbn [fold_left file_step]; exact Hp|].
        split; [discriminate|].
        intros q x H. simpl in H.
        repeat (destruct H as [H|H]; try discriminate; try contradiction).
        injection H as <- <-. now split. }
    destruct (reply E (S (S c)) [Js.lit "paste-buffer"; Js.lit "-t"; id])
      as [s2|]; cbn [calls trace fst snd app].
    2:{ split; [cbn [fold_left file_step]; exact Hp|].
        split; [discriminate|].
        intros q x H. simpl in H.
        repeat (destruct H as [H|H]; try discriminate; try contradiction).
        injection H as <- <-. now split. }
    destruct (reply E (S (S (S c))) (Tmux.send_keys id (Js.lit "Enter")))
      as [s3|]; cbn [calls trace fst snd app].
    2:{ split; [cbn [fold_left file_step]; exact Hp|].
        split; [discriminate|].
        intros q x H. simpl in H.
        repeat (destruct H as [H|H]; try discriminate; try contradiction).
        injection H as <- <-. now split. }
    destruct busy; cbn [calls trace fst snd app];
      (split; [cbn [fold_left file_step]; exact Hp|];
       split; [discriminate|];
       intros q x H; simpl in H;
       repeat (destruct H as [H|H]; try discriminate; try contradiction);
       injection H as <- <-; now split).
  - destruct (reply E (S c) (Tmux.send_keys id message)) as [s1|];
      cbn [calls trace fst snd app].
    2:{ split; [reflexivity|]. split; [reflexivity|].
        intros q x H. simpl in H.
        repeat (destruct H as [H|H]; try discriminate; try contradiction). }
    destruct (reply E (S (S c)) (Tmux.send_keys id (Js.lit "Enter")))
      as [s3|]; cbn [calls trace fst snd app].
    2:{ split; [reflexivity|]. split; [reflexivity|].
        intros q x H. simpl in H.
        repeat (destruct H as [H|H]; try discriminate; try contradiction). }
    destruct busy; cbn [calls trace fst snd app];
      (split; [reflexivity|]; split; [reflexivity|];
       intros q x H; simpl in H;
       repeat (destruct H as [H|H]; try discriminate; try contradiction)).
Qed.

Lemma in_wait_trace (id : Js.str) (m : nat) (e : event) :
  In e (wait_trace id m) -> touches_files e = false.
Proof.
  induction m as [|m IH]; simpl; [tauto|].
  intros [<-|[<-|H]]; [reflexivity | reflexivity | now apply IH].
Qed.

(** X10: sendMessage and its temporary file: in every run, however the tmux
    calls end, each file written has been removed again when the call
    returns or throws; the only file ever written is the one named after
    the random UUID, and it holds the message; a message of at most 200
    units without a newline never touches the file system. *)
Theorem sendMessage_leaves_no_temp_file
    (E : env) (id message : Js.str) (w : world) (evs : list event)
    (r : result (option unit)) :
  runs (Tmux.sendMessage E Tmux.maxWait id message) w evs r ->
  files_left evs = [] /\
  (forall p x, In (EWriteFile p x) evs -> p = Tmux.tmpPath E /\ x = message) /\
  (Tmux.is_long message = false -> existsb touches_files evs = false).
Proof.
  intros Hruns.
  destruct (sendMessage_runs E id message w)
    as (m & rest & r' & Hruns' & _ & Hcase).
  destruct (runs_fun _ _ _ _ _ _ Hruns Hruns') as [-> <-].
  unfold files_left. rewrite files_left_app.
  rewrite (files_untouched (wait_trace id m)) by apply wait_trace_untouched.
  rewrite existsb_app, wait_trace_untouched. cbn [orb].
  destruct Hcase as [(-> & -> & _)|(Hlt & _ & -> & _)].
  - destruct (deliver_files E id message true (calls w + 30)) as (H1 & H2 & H3).
    split; [exact H1|]. split; [|exact H2].
    intros p x Hin. apply in_app_iff in Hin. destruct Hin as [Hin|Hin].
    + apply in_wait_trace in Hin. discriminate.
    + now apply H3.
  - destruct (deliver_files E id message false (calls w + m + 1))
      as (H1 & H2 & H3).
    split; [exact H1|]. split; [|exact H2].
    intros p x Hin. apply in_app_iff in Hin. destruct Hin as [Hin|[Hin|Hin]].
    + apply in_wait_trace in Hin. discriminate.
    + discriminate.
    + now apply H3.
Qed.

Lemma sendMessage_leaves_no_temp_file_witness :
  exists evs,
    runs (Tmux.sendMessage no_paste_env Tmux.maxWait (Js.lit "app-1") two_lines)
      start_world evs (Throw (SystemError "tmux")) /\
    In (EWriteFile (Js.lit "/tmp/ao-send-0000.txt") two_lines) evs /\
    files_left evs = [].
Proof.
  exists [ ETmux (Tmux.capture_args (Js.lit "app-1") (Js.lit "-5"));
           ETmux (Tmux.send_keys (Js.lit "app-1") (Js.lit "C-u"));
           ESleep 200;
           EWriteFile (Js.lit "/tmp/ao-send-0000.txt") two_lines;
           ETmux [Js.lit "load-buffer"; Js.lit "/tmp/ao-send-0000.txt"];
           ETmux [Js.lit "paste-buffer"; Js.lit "-t"; Js.lit "app-1"];
           EUnlink (Js.lit "/tmp/ao-send-0000.txt") ].
  assert (H : runs (Tmux.sendMessage no_paste_env Tmux.maxWait (Js.lit "app-1")
                      two_lines) start_world
                [ ETmux (Tmux.capture_args (Js.lit "app-1") (Js.lit "-5"));
                  ETmux (Tmux.send_keys (Js.lit "app-1") (Js.lit "C-u"));
                  ESleep 200;
                  EWriteFile (Js.lit "/tmp/ao-send-0000.txt") two_lines;
                  ETmux [Js.lit "load-buffer"; Js.lit "/tmp/ao-send-0000.txt"];
                  ETmux [Js.lit "paste-buffer"; Js.lit "-t"; Js.lit "app-1"];
                  EUnlink (Js.lit "/tmp/ao-send-0000.txt") ]
                (Throw (SystemError "tmux"))) by reflexivity.
  split; [exact H|]. split; [simpl; tauto|].
  exact (proj1 (sendMessage_leaves_no_temp_file _ _ _ _ _ _ H)).
Defined.

(** X11: sendMessage without a tmux server: when every tmux call fails, the
    pane is looked at once, the failed look counts as idle, and the call
    throws the error of the first send-keys; it has not slept, written a
    file or typed anything. *)
Theorem sendMessage_fails_fast_without_tmux
    (E : env) (id message : Js.str) (w : world) :
  (forall k args, reply E k args = None) ->
  runs (Tmux.sendMessage E Tmux.maxWait id message) w
    [ ETmux (Tmux.capture_args id (Js.lit "-5"));
      ETmux (Tmux.send_keys id (Js.lit "C-u")) ]
    (Throw (SystemError "tmux")).
Proof.
  intros Hdead. unfold Tmux.sendMessage.
  change [ETmux (Tmux.capture_args id (Js.lit "-5"));
          ETmux (Tmux.send_keys id (Js.lit "C-u"))]
    with ([ETmux (Tmux.capture_args id (Js.lit "-5"))]
          ++ [ETmux (Tmux.send_keys id (Js.lit "C-u"))]).
  eapply runs_bind_ok.
  - unfold Tmux.maxWait. rewrite wait_unfold. cbn [Nat.ltb Nat.leb negb].
    rewrite <- (app_nil_r [ETmux _]).
    eapply runs_bind_ok; [apply runs_isBusy|].
    rewrite Hdead. cbn [negb]. apply runs_ret.
  - cbn beta iota. unfold Tmux.deliver. apply runs_bind_throw.
    pose proof (runs_tmux E (Tmux.send_keys id (Js.lit "C-u"))
                  (after w [ETmux (Tmux.capture_args id (Js.lit "-5"))])) as H.
    now rewrite Hdead in H.
Qed.

Lemma sendMessage_fails_fast_without_tmux_witness :
  runs (Tmux.sendMessage dead_env Tmux.maxWait (Js.lit "app-1")
          (Js.lit "please rebase")) start_world
    [ ETmux (Tmux.capture_args (Js.lit "app-1") (Js.lit "-5"));
      ETmux (Tmux.send_keys (Js.lit "app-1") (Js.lit "C-u")) ]
    (Throw (SystemError "tmux")).
Proof.
  apply (sendMessage_fails_fast_without_tmux dead_env (Js.lit "app-1")
           (Js.lit "please rebase") start_world).
  reflexivity.
Defined.

End RuntimeFacts.

(* ===================================================================== *)
(** ** Looking for free ports *)

Section PortScan.
Variable isPortAvailable : N -> bool.

Lemma find_seq_some (f : N -> bool) (a n : nat) (i : N) :
  find f (map N.of_nat (seq a n)) = Some i
  <-> (N.of_nat a <= i < N.of_nat (a + n))%N /\ f i = true /\
      forall j, (N.of_nat a <= j < i)%N -> f j = false.
Proof.
  revert a. induction n as [|n IH]; intros a; simpl.
  - split; [discriminate|]. intros [H _]. lia.
  - destruct (f (N.of_nat a)) eqn:Ea.
    + split.
      * intros [= <-]. split; [lia|]. split; [assumption|]. intros j Hj. lia.
      * intros (Hi & Hf & Hmin). f_equal.
        destruct (N.eq_dec (N.of_nat a) i) as [E|E]; [assumption|].
        rewrite (Hmin (N.of_nat a)) in Ea by lia. discriminate.
    + rewrite IH. split.
      * intros (Hi & Hf & Hmin). split; [lia|]. split; [assumption|].
        intros j Hj. destruct (N.eq_dec j (N.of_nat a)) as [->|E];
          [assumption|]. apply Hmin. lia.
      * intros (Hi & Hf & Hmin).
        assert (i <> N.of_nat a) by congruence.
        split; [lia|]. split; [assumption|]. intros j Hj. apply Hmin. lia.
Qed.

Lemma find_seq_none (f : N -> bool) (a n : nat) :
  find f (map N.of_nat (seq a n)) = None
  <-> forall j, (N.of_nat a <= j < N.of_nat (a + n))%N -> f j = false.
Proof.
  revert a. induction n as [|n IH]; intros a; simpl.
  - split; [|reflexivity]. intros _ j Hj. lia.
  - destruct (f (N.of_nat a)) eqn:Ea.
    + split; [discriminate|]. intros H. rewrite H in Ea by lia. discriminate.
    + rewrite IH. split.
      * intros H j Hj. destruct (N.eq_dec j (N.of_nat a)) as [->|E];
          [assumption|]. apply H. lia.
      * intros H j Hj. apply H. lia.
Qed.

(** The loop stops at the first port that is free or out of range. *)
Lemma scan_find (preferred : N) (offsets : list N) :
  WebDir.scan isPortAvailable preferred offsets =
    match find (fun offset =>
                  negb (preferred + offset <=? 65535)%N
                  || isPortAvailable (preferred + offset)%N) offsets with
    | Some offset =>
        if (preferred + offset <=? 65535)%N
        then Ok (Some (preferred + offset)%N)
        else Throw (SystemError "ERR_SOCKET_BAD_PORT")
    | None => Ok None
    end.
Proof.
  induction offsets as [|offset rest IH]; [reflexivity|].
  cbn [WebDir.scan find]. unfold WebDir.probe, WebDir.MAX_PORT.
  destruct (preferred + offset <=? 65535)%N eqn:Hle; cbn [rbind negb orb].
  - destruct (isPortAvailable (preferred + offset)%N);
      [now rewrite Hle | exact IH].
  - now rewrite Hle.
Qed.

(** X12: findAvailableDashboardPort: the port returned is the lowest free port
    among preferred, ..., preferred + 10, and is at most 65535; the call
    throws "No available port in range ..." exactly when the eleven ports
    are all at most 65535 and none of them is free; and it throws the
    RangeError of listen (ERR_SOCKET_BAD_PORT) exactly when preferred + 10
    is above 65535 and no port from preferred up to 65535 is free. *)
Theorem dashboard_port_is_lowest_free (preferred : N) :
  (forall p,
     WebDir.findAvailableDashboardPort isPortAvailable preferred = Ok p
     <-> (preferred <= p <= preferred + 10)%N /\ (p <= 65535)%N /\
         isPortAvailable p = true /\
         forall q, (preferred <= q < p)%N -> isPortAvailable q = false) /\
  (WebDir.findAvailableDashboardPort isPortAvailable preferred
   = Throw (Error (WebDir.no_port_message preferred))
   <-> (preferred + 10 <= 65535)%N /\
       forall q, (preferred <= q <= preferred + 10)%N ->
                 isPortAvailable q = false) /\
  (WebDir.findAvailableDashboardPort isPortAvailable preferred
   = Throw (SystemError "ERR_SOCKET_BAD_PORT")
   <-> (65535 < preferred + 10)%N /\
       forall q, (preferred <= q <= 65535)%N -> isPortAvailable q = false).
Proof.
  unfold WebDir.findAvailableDashboardPort, WebDir.counter.
  rewrite scan_find.
  set (f := fun offset => negb (preferred + offset <=? 65535)%N
                          || isPortAvailable (preferred + offset)%N).
  assert (Hlow : forall i,
            (forall j, (N.of_nat 0 <= j < i)%N -> f j = false) ->
            forall q, (preferred <= q < preferred + i)%N ->
                      (q <= 65535)%N /\ isPortAvailable q = false).
  { intros i Hmin q Hq. specialize (Hmin (q - preferred)%N).
    unfold f in Hmin. replace (preferred + (q - preferred))%N with q in Hmin
      by lia.
    apply orb_false_iff in Hmin; [|lia]. destruct Hmin as [H1 H2].
    apply negb_false_iff, N.leb_le in H1. now split. }
  destruct (find f (map N.of_nat (seq 0 11))) as [i|] eqn:E.
  - apply find_seq_some in E. destruct E as (Hi & Hf & Hmin).
    pose proof (Hlow i Hmin) as Hbelow. unfold f in Hf.
    destruct (N.leb_spec (preferred + i) 65535) as [Hle|Hgt];
      cbn [rbind negb orb] in *.
    + split; [|split].
      * intros p. split.
        -- intros [= <-]. split; [lia|]. split; [lia|]. split; [exact Hf|].
           intros q Hq. now apply Hbelow.
        -- intros (Hp & Hp' & Hfree & Hnone). f_equal.
           destruct (N.lt_trichotomy (preferred + i) p) as [Hlt|[Heq|Hlt]];
             [|exact Heq|].
           ++ rewrite Hnone in Hf by lia. discriminate.
           ++ destruct (Hbelow p) as [_ Hb]; [lia|]. congruence.
      * split; [discriminate|]. intros [_ Hnone].
        rewrite Hnone in Hf by lia. discriminate.
      * split; [discriminate|]. intros [_ Hnone].
        rewrite Hnone in Hf by lia. discriminate.
    + split; [|split].
      * intros p. split; [discriminate|].
        intros (Hp & Hp' & Hfree & Hnone). exfalso.
        destruct (Hbelow p) as [_ Hb]; [lia|]. congruence.
      * split; [discriminate|]. intros [Hle _]. lia.
      * split; [|reflexivity]. intros _. split; [lia|].
        intros q Hq. apply Hbelow. lia.
  - rewrite find_seq_none in E. cbn [rbind].
    assert (Hall : forall q, (preferred <= q <= preferred + 10)%N ->
                     (q <= 65535)%N /\ isPortAvailable q = false).
    { intros q Hq. apply (Hlow 11%N); [|lia].
      intros j Hj. apply E. lia. }
    split; [|split].
    + intros p. split; [discriminate|].
      intros (Hp & _ & Hfree & _). destruct (Hall p Hp). congruence.
    + split; [|reflexivity]. intros _. split.
      * apply (Hall (preferred + 10)%N). lia.
      * intros q Hq. now apply Hall.
    + split; [discriminate|]. intros [Hgt _].
      destruct (Hall (preferred + 10)%N); lia.
Qed.

(** X13: findAvailablePortPair: the two ports returned are always consecutive
    and the first lies an even distance, below 100, above the base; it is
    the first such pair of which both ports are free, and when none of the
    fifty pairs is free the base pair is returned although it is not
    free. *)
Theorem port_pair_is_first_free_pair (base : N) :
  let pair := WebDir.findAvailablePortPair isPortAvailable base in
  let both i := isPortAvailable (base + i * 2)%N
                && isPortAvailable (base + i * 2 + 1)%N in
  snd pair = (fst pair + 1)%N /\
  exists i,
    (i < 50)%N /\ fst pair = (base + i * 2)%N /\
    (both i = true /\ (forall j, (j < i)%N -> both j = false)
     \/ i = 0%N /\ (forall j, (j < 50)%N -> both j = false)).
Proof.
  intros pair both. unfold pair, WebDir.findAvailablePortPair, WebDir.counter,
    WebDir.MAX_ATTEMPTS.
  fold both.
  destruct (find both (map N.of_nat (seq 0 50))) as [i|] eqn:E.
  - apply find_seq_some in E. destruct E as (Hi & Hf & Hmin).
    split; [reflexivity|]. exists i. split; [lia|]. split; [reflexivity|].
    left. split; [exact Hf|]. intros j Hj. apply Hmin. lia.
  - rewrite find_seq_none in E.
    split; [reflexivity|]. exists 0%N. split; [lia|].
    split; [cbn [fst]; lia|]. right. split; [reflexivity|].
    intros j Hj. apply E. lia.
Qed.

End PortScan.

Lemma dashboard_port_is_lowest_free_witness :
  WebDir.findAvailableDashboardPort (fun p => N.leb 3002 p) 3000 = Ok 3002%N /\
  WebDir.findAvailableDashboardPort (fun p => N.leb 3011 p) 3000
  = Throw (Error (WebDir.no_port_message 3000)) /\
  WebDir.findAvailableDashboardPort (fun p => N.leb 65536 p) 65530
  = Throw (SystemError "ERR_SOCKET_BAD_PORT").
Proof.
  destruct (dashboard_port_is_lowest_free (fun p => N.leb 3002 p) 3000%N)
    as (Hok & _ & _).
  destruct (dashboard_port_is_lowest_free (fun p => N.leb 3011 p) 3000%N)
    as (_ & Hnone & _).
  destruct (dashboard_port_is_lowest_free (fun p => N.leb 65536 p) 65530%N)
    as (_ & _ & Hbad).
  split; [|split].
  - apply Hok. split; [lia|]. split; [lia|]. split; [reflexivity|].
    intros q Hq. apply N.leb_gt. lia.
  - apply Hnone. split; [lia|]. intros q Hq. apply N.leb_gt. lia.
  - apply Hbad. split; [lia|]. intros q Hq. apply N.leb_gt. lia.
Defined.

Lemma port_pair_is_first_free_pair_witness :
  WebDir.findAvailablePortPair (fun p => N.leb 14803 p) 14800
  = (14804%N, 14805%N) /\
  WebDir.findAvailablePortPair (fun _ => false) 14800 = (14800%N, 14801%N) /\
  snd (WebDir.findAvailablePortPair (fun p => N.leb 14803 p) 14800)
  = (fst (WebDir.findAvailablePortPair (fun p => N.leb 14803 p) 14800) + 1)%N.
Proof.
  split; [reflexivity|]. split; [reflexivity|].
  exact (proj1 (port_pair_is_first_free_pair (fun p => N.leb 14803 p) 14800%N)).
Defined.

(* ===================================================================== *)
(** ** Choosing the project of `ao start` and `ao stop` *)

Section ResolveProject.
Import Projects.

Lemma keys_entries_perm {V} (o : Obj.t V) :
  Permutation (Assoc.keys (Obj.entries o)) (Assoc.keys o).
Proof. apply Permutation_map, entries_perm. Qed.

Lemma keys_entries_single {V} (o : Obj.t V) (id : Js.str) :
  Assoc.keys (Obj.entries o) = [id] <-> Assoc.keys o = [id].
Proof.
  pose proof (keys_entries_perm o) as H. split; intros E.
  - rewrite E in H. now apply Permutation_length_1_inv in H.
  - rewrite E in H. apply Permutation_sym in H.
    now apply Permutation_length_1_inv in H.
Qed.

Lemma lookup_configured (projects : Obj.t Start.Project) (name : Js.str)
    (p : Start.Project) :
  lookup projects name = Configured p <-> Assoc.get name projects = Some p.
Proof.
  unfold lookup. destruct (Assoc.get name projects) as [q|].
  - split; congruence.
  - destruct (existsb _ _); split; discriminate.
Qed.

Lemma lookup_own (projects : Obj.t Start.Project) (name : Js.str) :
  In name (Assoc.keys projects) -> exists p, lookup projects name = Configured p.
Proof.
  intros Hin. unfold lookup.
  destruct (Assoc.get name projects) as [q|] eqn:E; [now exists q|].
  apply get_none_keys in E. contradiction.
Qed.

(** X14: resolveProject: a project comes back only as an entry of
    config.projects under the ID returned, which is the argument when one
    is given and the only configured ID otherwise; an empty argument
    counts as none; the value is never undefined; and a value that is not
    a configured project can only come back for an argument that names a
    member of Object.prototype. With no project configured the call
    throws whatever the argument. *)
Theorem resolveProject_gives_configured_projects
    (projects : Obj.t Start.Project) (projectArg : option Js.str) :
  (forall id p,
     resolveProject projects projectArg = Ok (id, Configured p)
     <-> Assoc.get id projects = Some p /\
         (projectArg = Some id /\ id <> []
          \/ Start.truthy projectArg = false /\ Assoc.keys projects = [id])) /\
  (forall id, resolveProject projects projectArg <> Ok (id, Missing)) /\
  (forall id,
     resolveProject projects projectArg = Ok (id, Builtin) ->
     projectArg = Some id /\ In id OBJECT_PROTOTYPE
     /\ Assoc.get id projects = None) /\
  (projects = [] -> resolveProject projects projectArg = Throw (Error NO_PROJECTS)).
Proof.
  unfold resolveProject.
  destruct (Assoc.keys (Obj.entries projects)) as [|first others] eqn:Ek.
  { assert (Hempty : projects = []).
    { pose proof (keys_entries_perm projects) as H. rewrite Ek in H.
      apply Permutation_nil in H. destruct projects; [reflexivity | discriminate]. }
    subst projects. split; [|split; [|split]]; try discriminate; [|reflexivity].
    intros id p. split; [discriminate|]. intros [H _]. discriminate. }
  assert (Hne : projects <> []).
  { intros ->. discriminate. }
  destruct (Start.truthy projectArg) eqn:Ht.
  - destruct projectArg as [[|c s]|]; try discriminate. cbn [Start.or_empty].
    split; [|split; [|split]].
    + intros id p. split.
      * destruct (lookup projects (c :: s)) as [q| |] eqn:El; try discriminate.
        intros [= <- <-]. apply lookup_configured in El.
        split; [assumption|]. left. split; [reflexivity | discriminate].
      * intros (Hg & [[[= <-] _]|[H _]]); [|discriminate].
        apply lookup_configured in Hg. now rewrite Hg.
    + intros id. destruct (lookup projects (c :: s)); discriminate.
    + intros id. unfold lookup.
      destruct (Assoc.get (c :: s) projects) as [q|] eqn:Eg; [discriminate|].
      destruct (existsb (Js.eqb (c :: s)) OBJECT_PROTOTYPE) eqn:Ex;
        [|discriminate].
      intros [= <-]. split; [reflexivity|]. split; [|exact Eg].
      apply existsb_exists in Ex. destruct Ex as (x & Hin & Hx).
      apply eqb_eq in Hx. now subst.
    + intros ->. contradiction.
  - assert (Hfirst : In first (Assoc.keys projects)).
    { apply (Permutation_in _ (keys_entries_perm projects)).
      rewrite Ek. now left. }
    destruct (lookup_own projects first Hfirst) as [q Hq].
    destruct others as [|second others].
    + rewrite Hq. apply (proj1 (keys_entries_single _ _)) in Ek.
      split; [|split; [|split]]; try discriminate.
      * intros id p. split.
        -- intros [= <- <-]. apply lookup_configured in Hq.
           split; [assumption|]. right. now split.
        -- intros (Hg & [[-> Hid]|[_ Hk]]);
             [destruct id; [contradiction | discriminate]|].
           rewrite Ek in Hk. injection Hk as <-.
           apply lookup_configured in Hq. congruence.
      * intros ->. contradiction.
    + split; [|split; [|split]]; try discriminate.
      * intros id p. split; [discriminate|].
        intros (_ & [[-> Hid]|[_ Hk]]);
          [destruct id; [contradiction | discriminate]|].
        apply (proj2 (keys_entries_single _ _)) in Hk. rewrite Hk in Ek. discriminate.
      * intros ->. contradiction.
Qed.

Lemma resolveProject_gives_configured_projects_witness :
  resolveProject [ (Js.lit "app", OneSlot.app) ] None
  = Ok (Js.lit "app", Configured OneSlot.app) /\
  resolveProject [ (Js.lit "app", OneSlot.app) ] (Some (Js.lit "web"))
  = Throw (Error (not_found_message (Js.lit "web") [Js.lit "app"])) /\
  resolveProject [ (Js.lit "app", OneSlot.app) ] (Some (Js.lit "toString"))
  = Ok (Js.lit "toString", Builtin).
Proof.
  split; [|split; reflexivity].
  apply (proj1 (resolveProject_gives_configured_projects
                  [ (Js.lit "app", OneSlot.app) ] None)).
  split; [reflexivity|]. right. split; reflexivity.
Defined.

End ResolveProject.

(* ===================================================================== *)
(** ** The default branch of a repository *)

Section DefaultBranch.
Import GitUtils.
Variable git : list Js.str -> option Js.str.

Lemma starts_with_app (p s : Js.str) : Js.starts_with p (p ++ s) = true.
Proof.
  induction p as [|x p IH]; simpl; [reflexivity|].
  now rewrite N.eqb_refl, IH.
Qed.

Lemma trim_origin_line (name : Js.str) :
  name <> [] -> Js.trim name = name ->
  Js.trim (ORIGIN ++ name ++ [Js.NL]) = ORIGIN ++ name.
Proof.
  intros Hne Ht. destruct name as [|c r]; [contradiction|].
  pose proof (trim_head _ _ _ Ht) as Hc.
  assert (Hr : Js.rtrim (c :: r) = c :: r).
  { rewrite <- Ht at 2. unfold Js.trim. now rewrite (trim_fix_ltrim _ Ht). }
  unfold Js.trim.
  assert (Hl : Js.ltrim (ORIGIN ++ (c :: r) ++ [Js.NL])
               = ORIGIN ++ (c :: r) ++ [Js.NL]) by reflexivity.
  rewrite Hl, app_assoc, rtrim_snoc. change (Js.is_ws Js.NL) with true.
  cbv iota. rewrite rtrim_app_stop by assumption.
  rewrite rtrim_cons_stop in Hr by assumption. injection Hr as Hr.
  now rewrite Hr.
Qed.

Lemma strip_origin_app (name : Js.str) : strip_origin (ORIGIN ++ name) = name.
Proof.
  unfold strip_origin. rewrite starts_with_app.
  rewrite skipn_app, skipn_all, Nat.sub_diag. reflexivity.
Qed.

Lemma from_remote_head_nonempty (projectPath branch : Js.str) :
  from_remote_head git projectPath = Some branch -> branch <> [].
Proof.
  unfold from_remote_head.
  destruct (git (symbolic_ref_args projectPath)) as [stdout|]; [|discriminate].
  destruct (strip_origin (Js.trim stdout)) as [|c r]; [discriminate|].
  destruct (_ && _); [|discriminate]. intros [= <-]. discriminate.
Qed.

Lemma from_current_branch_spec (projectPath branch : Js.str) :
  from_current_branch git projectPath = Some branch ->
  branch <> [] /\ branch <> Js.lit "HEAD".
Proof.
  unfold from_current_branch.
  destruct (git (rev_parse_args projectPath)) as [stdout|]; [|discriminate].
  destruct (Js.trim stdout) as [|c r] eqn:Et; [discriminate|].
  cbn [Metadata.nonempty andb].
  destruct (eqb_spec (c :: r) (Js.lit "HEAD")) as [E|E]; [discriminate|].
  intros [= <-]. split; [discriminate | assumption].
Qed.

(** X15: detectDefaultBranch: the branch name returned is never empty; when
    git symbolic-ref prints refs/remotes/origin/NAME the result is NAME;
    when that command fails the result is what git rev-parse prints,
    trimmed, unless that is empty or the word HEAD of a detached checkout,
    and then, or when both commands fail, it is "main". *)
Theorem detectDefaultBranch_cascade (projectPath : Js.str) :
  detectDefaultBranch git projectPath <> [] /\
  (forall name,
     name <> [] -> Js.trim name = name ->
     git (symbolic_ref_args projectPath) = Some (ORIGIN ++ name ++ [Js.NL]) ->
     detectDefaultBranch git projectPath = name) /\
  (git (symbolic_ref_args projectPath) = None ->
   detectDefaultBranch git projectPath <> Js.lit "HEAD" /\
   (forall stdout,
      git (rev_parse_args projectPath) = Some stdout ->
      detectDefaultBranch git projectPath
      = if Metadata.nonempty (Js.trim stdout)
           && negb (Js.eqb (Js.trim stdout) (Js.lit "HEAD"))
        then Js.trim stdout else Js.lit "main") /\
   (git (rev_parse_args projectPath) = None ->
    detectDefaultBranch git projectPath = Js.lit "main")).
Proof.
  split; [|split].
  - unfold detectDefaultBranch.
    destruct (from_remote_head git projectPath) as [b|] eqn:E1.
    + now apply (from_remote_head_nonempty projectPath).
    + destruct (from_current_branch git projectPath) as [b|] eqn:E2.
      * now apply (from_current_branch_spec projectPath).
      * discriminate.
  - intros name Hne Ht Hgit.
    unfold detectDefaultBranch, from_remote_head. rewrite Hgit.
    cbv zeta. rewrite trim_origin_line by assumption.
    rewrite strip_origin_app.
    assert (Hdiff : Js.eqb name (ORIGIN ++ name) = false).
    { apply eqb_neq. intros E. apply (f_equal (@List.length N)) in E.
      rewrite length_app in E. simpl in E. lia. }
    rewrite Hdiff. destruct name; [contradiction | reflexivity].
  - intros Hfail.
    assert (E1 : from_remote_head git projectPath = None).
    { unfold from_remote_head. now rewrite Hfail. }
    unfold detectDefaultBranch. rewrite E1. split; [|split].
    + destruct (from_current_branch git projectPath) as [b|] eqn:E2.
      * now apply (from_current_branch_spec projectPath).
      * discriminate.
    + intros stdout Hgit. unfold from_current_branch. rewrite Hgit.
      cbv zeta. now destruct (_ && _).
    + intros Hfail2. unfold from_current_branch. now rewrite Hfail2.
Qed.

End DefaultBranch.

Lemma detectDefaultBranch_cascade_witness :
  GitUtils.detectDefaultBranch
    (fun args => if Js.eqb (nth 2 args []) (Js.lit "symbolic-ref")
                 then Some (Js.lit "refs/remotes/origin/develop" ++ [Js.NL])
                 else None) (Js.lit "/repo")
  = Js.lit "develop".
Proof.
  apply (proj1 (proj2 (detectDefaultBranch_cascade _ (Js.lit "/repo"))));
    [discriminate | reflexivity | reflexivity].
Defined.

(* ===================================================================== *)
(** ** The action of `ao send` *)

Section SendAction.
Import Proc TraceStmt SendStmt.
Variable E : env.
Variable detectActivity : Js.str -> Send.activity.
Variable now : nat -> N.
Variable readFile : Js.str -> option Js.str.

(** What captureOutput returns at the [k]-th child process. *)
Lemma capture_output_runs (target lines : Js.str) (w : world) :
  runs (Send.captureOutput E target lines) w
    [ETmux (Tmux.capture_args target lines)]
    (Ok match reply E (calls w) (Tmux.capture_args target lines) with
        | Some stdout => Js.rtrim stdout
        | None => []
        end).
Proof.
  unfold Send.captureOutput, Send.tmux, Send.exec_tmux, runs, catch, bind, ret,
    execTmux.
  cbn [calls trace fst snd]. unfold tmux_count. cbn [filter List.length].
  rewrite Nat.add_1_r.
  destruct (reply E (calls w) _) as [stdout|]; [|reflexivity].
  now destruct (Js.rtrim stdout).
Qed.

Lemma exec_tmux_runs (args : list Js.str) (w : world) :
  runs (Send.exec_tmux E args) w [ETmux args]
    match reply E (calls w) args with
    | Some stdout => Ok (Js.rtrim stdout)
    | None => Throw (SystemError "tmux")
    end.
Proof. apply runs_tmux. Qed.

Lemma shell_tmux_runs (args : list Js.str) (w : world) :
  runs (Send.tmux E args) w [ETmux args]
    (Ok match reply E (calls w) args with
        | Some stdout => Some (Js.rtrim stdout)
        | None => None
        end).
Proof.
  unfold Send.tmux, Send.exec_tmux, runs, catch, bind, ret, execTmux.
  cbn [calls trace fst snd]. unfold tmux_count. cbn [filter List.length].
  rewrite Nat.add_1_r.
  now destruct (reply E (calls w) _).
Qed.

Lemma date_now_runs (w : world) :
  runs (SendCmd.date_now now) w [] (Ok (now (List.length (trace w)))).
Proof.
  destruct w as [c t]. unfold runs, SendCmd.date_now, tmux_count. simpl.
  now rewrite Nat.add_0_r, app_nil_r.
Qed.

Lemma wait_unfold_cli (fuel : nat) (target : Js.str) (start timeout : N) :
  SendCmd.wait_while_active E detectActivity now (S fuel) target start timeout
  = bind (Send.captureOutput E target (Js.lit "-5")) (fun output =>
      if Send.isActive detectActivity output then
        bind (SendCmd.date_now now) (fun t =>
          if N.ltb timeout (t - start) then ret (Some tt)
          else bind (sleep 5000) (fun _ =>
                 SendCmd.wait_while_active E detectActivity now fuel target
                   start timeout))
      else ret (Some tt)).
Proof. reflexivity. Qed.

Lemma trace_after (w : world) (evs : list event) :
  trace (after w evs) = trace w ++ evs.
Proof. reflexivity. Qed.

(** The loop ends within [n] further rounds once five seconds pass in
    each round. *)
Lemma wait_while_active_ends (target : Js.str) (start timeout : N) (n : nat) :
  forall fuel w,
    n < fuel ->
    five_seconds_pass now (List.length (trace w) + 1) ->
    (start <= now (List.length (trace w) + 1))%N ->
    (timeout < now (List.length (trace w) + 1) - start + 5000 * N.of_nat n)%N ->
    exists evs,
      runs (SendCmd.wait_while_active E detectActivity now fuel target start
              timeout) w evs (Ok (Some tt))
      /\ polls evs <= n + 1
      /\ (slept evs <= 5000 * N.of_nat n)%N
      /\ enters target evs = 0.
Proof.
  set (look := ETmux (Tmux.capture_args target (Js.lit "-5"))).
  assert (Hp1 : polls [look] = 1) by reflexivity.
  assert (Hs1 : slept [look] = 0%N) by reflexivity.
  assert (He1 : enters target [look] = 0) by reflexivity.
  induction n as [|n IH]; intros fuel w Hfuel Hclock Hstart Hn;
    (destruct fuel as [|fuel]; [lia|]); rewrite wait_unfold_cli;
    pose proof (capture_output_runs target (Js.lit "-5") w) as Hcap;
    fold look in Hcap;
    set (output := match reply E (calls w) _ with
                   | Some stdout => Js.rtrim stdout
                   | None => []
                   end) in Hcap;
    pose proof (date_now_runs (after w [look])) as Hnow;
    rewrite trace_after, length_app in Hnow; cbn [List.length] in Hnow.
  - exists [look]. split; [|rewrite Hp1, Hs1, He1; repeat split; lia].
    rewrite <- (app_nil_r [look]).
    eapply runs_bind_ok; [exact Hcap|].
    destruct (Send.isActive detectActivity output); [|apply runs_ret].
    rewrite <- (app_nil_r []).
    eapply runs_bind_ok; [exact Hnow|].
    assert (Hlt : N.ltb timeout (now (List.length (trace w) + 1) - start) = true).
    { apply N.ltb_lt. change (N.of_nat 0) with 0%N in Hn.
      now rewrite N.mul_0_r, N.add_0_r in Hn. }
    rewrite Hlt. apply runs_ret.
  - destruct (Send.isActive detectActivity output) eqn:Hact.
    2:{ exists [look]. split; [|rewrite Hp1, Hs1, He1; repeat split; lia].
        rewrite <- (app_nil_r [look]).
        eapply runs_bind_ok; [exact Hcap|]. rewrite Hact. apply runs_ret. }
    destruct (N.ltb timeout (now (List.length (trace w) + 1) - start)) eqn:Hlt.
    { exists [look]. split; [|rewrite Hp1, Hs1, He1; repeat split; lia].
      rewrite <- (app_nil_r [look]).
      eapply runs_bind_ok; [exact Hcap|]. rewrite Hact.
      rewrite <- (app_nil_r []).
      eapply runs_bind_ok; [exact Hnow|]. rewrite Hlt. apply runs_ret. }
    apply N.ltb_ge in Hlt.
    set (w1 := after (after (after w [look]) []) [ESleep 5000]).
    assert (Hlen : List.length (trace w1) + 1
                   = List.length (trace w) + 1 + 2 * 1).
    { unfold w1. rewrite !trace_after, !length_app. cbn [List.length]. lia. }
    pose proof (Hclock 0) as Hstep.
    rewrite Nat.mul_0_r, Nat.add_0_r in Hstep. cbn [Nat.add] in Hstep.
    destruct (IH fuel w1) as (evs & Hruns & Hp & Hs & He).
    + lia.
    + intros k. rewrite Hlen.
      replace (List.length (trace w) + 1 + 2 * 1 + 2 * k)
        with (List.length (trace w) + 1 + 2 * (k + 1)) by lia.
      replace (List.length (trace w) + 1 + 2 * 1 + 2 * (k + 1))
        with (List.length (trace w) + 1 + 2 * (k + 1 + 1)) by lia.
      apply Hclock.
    + rewrite Hlen. lia.
    + rewrite Hlen. lia.
    + exists ([look] ++ [] ++ [ESleep 5000] ++ evs). split; [|split; [|split]].
      * eapply runs_bind_ok; [exact Hcap|]. rewrite Hact.
        eapply runs_bind_ok; [exact Hnow|].
        assert (Hge : N.ltb timeout (now (List.length (trace w) + 1) - start)
                      = false) by (apply N.ltb_ge; exact Hlt).
        rewrite Hge.
        eapply runs_bind_ok; [apply runs_sleep | exact Hruns].
      * change (polls ([look] ++ [] ++ [ESleep 5000] ++ evs))
          with (1 + polls evs). lia.
      * change (slept ([look] ++ [] ++ [ESleep 5000] ++ evs))
          with (5000 + slept evs)%N. lia.
      * exact He.
Qed.


(** *** Steps that neither look at the pane nor press Enter *)

Lemma enters_app (target : Js.str) (a b : list event) :
  enters target (a ++ b) = enters target a + enters target b.
Proof. unfold enters. now rewrite filter_app, length_app. Qed.

Lemma quiet_ret {A} (target : Js.str) (a : A) : quiet target (ret a).
Proof.
  intros w. exists [], (Ok a). split; [apply runs_ret | now split].
Qed.

Lemma quiet_bind {A B} (target : Js.str) (m : M A) (k : A -> M B) :
  quiet target m -> (forall a, quiet target (k a)) -> quiet target (bind m k).
Proof.
  intros Hm Hk w. destruct (Hm w) as (evs1 & [a|e] & H1 & P1 & Q1).
  - destruct (Hk a (after w evs1)) as (evs2 & r & H2 & P2 & Q2).
    exists (evs1 ++ evs2), r. split; [now apply (runs_bind_ok m k w evs1 evs2 a)|].
    rewrite polls_app, enters_app. lia.
  - exists evs1, (Throw e). split; [now apply runs_bind_throw | now split].
Qed.

Lemma quiet_sleep (target : Js.str) (ms : N) : quiet target (sleep ms).
Proof.
  intros w. exists [ESleep ms], (Ok tt).
  split; [apply runs_sleep | now split].
Qed.

Lemma quiet_write (target p x : Js.str) : quiet target (emit (EWriteFile p x)).
Proof.
  intros w. exists [EWriteFile p x], (Ok tt). split; [|now split].
  unfold runs, emit, tmux_count. simpl. now rewrite Nat.add_0_r.
Qed.

Lemma quiet_unlink (target p : Js.str) : quiet target (emit (EUnlink p)).
Proof.
  intros w. exists [EUnlink p], (Ok tt). split; [|now split].
  unfold runs, emit, tmux_count. simpl. now rewrite Nat.add_0_r.
Qed.

Lemma quiet_date_now (target : Js.str) : quiet target (SendCmd.date_now now).
Proof.
  intros w. eexists [], _. split; [apply date_now_runs | now split].
Qed.

Lemma quiet_exec (target : Js.str) (args : list Js.str) :
  is_poll (ETmux args) = false -> is_enter target (ETmux args) = false ->
  quiet target (Send.exec_tmux E args).
Proof.
  intros Hp He w. eexists [ETmux args], _. split; [apply exec_tmux_runs|].
  unfold polls, enters. cbn [filter]. now rewrite Hp, He.
Qed.

Lemma quiet_finally {A} (target : Js.str) (m : M A) (f : M unit) :
  quiet target m -> quiet target f -> quiet target (finally m f).
Proof.
  intros Hm Hf w. destruct (Hm w) as (evs1 & r1 & H1 & P1 & Q1).
  destruct (Hf (after w evs1)) as (evs2 & r2 & H2 & P2 & Q2).
  exists (evs1 ++ evs2),
    (match r2 with Ok _ => r1 | Throw e => Throw e end).
  split; [|rewrite polls_app, enters_app; lia].
  unfold runs in *. unfold finally. rewrite H1.
  change {| calls := calls w + tmux_count evs1; trace := trace w ++ evs1 |}
    with (after w evs1).
  rewrite H2. destruct r2; f_equal; apply after_app.
Qed.

Lemma quiet_paste (target content : Js.str) :
  quiet target (SendCmd.paste E now target content).
Proof.
  unfold SendCmd.paste.
  apply quiet_bind; [apply quiet_date_now|]. intros t.
  apply quiet_bind; [apply quiet_write|]. intros _.
  apply quiet_finally; [|apply quiet_unlink].
  apply quiet_bind; [now apply quiet_exec|]. intros _.
  apply quiet_bind; [now apply quiet_exec|]. intros _.
  apply quiet_ret.
Qed.

Lemma quiet_inject (target : Js.str) (opts : SendCmd.Opts)
    (msg : option Js.str) :
  quiet target (SendCmd.inject E now readFile target opts msg).
Proof.
  assert (Htext : forall c m,
            quiet target
              (bind (if Tmux.is_long (c :: m)
                     then SendCmd.paste E now target (c :: m)
                     else bind (Send.exec_tmux E
                                  (SendCmd.literal_args target (c :: m)))
                            (fun _ => ret tt))
                 (fun _ => ret true))).
  { intros c m. apply quiet_bind; [|intros _; apply quiet_ret].
    destruct (Tmux.is_long (c :: m)); [apply quiet_paste|].
    apply quiet_bind; [now apply quiet_exec | intros _; apply quiet_ret]. }
  unfold SendCmd.inject.
  destruct (SendCmd.file opts) as [[|c path]|].
  - destruct msg as [[|c m]|]; try apply quiet_ret. apply Htext.
  - destruct (readFile (c :: path)); [|apply quiet_ret].
    apply quiet_bind; [apply quiet_paste | intros _; apply quiet_ret].
  - destruct msg as [[|c m]|]; try apply quiet_ret. apply Htext.
Qed.

(** The delivery check of the action: whatever tmux answers and whatever
    the agent detects, it ends with a verdict or with the error of the
    first Enter, after looking at the pane at most three times and pressing
    Enter at most three times in all. *)
Lemma check_runs (fuel : nat) (target : Js.str) (w : world) :
  3 <= fuel ->
  exists evs r,
    runs (Send.send_and_verify E detectActivity fuel target) w evs r /\
    r <> Ok None /\ polls evs <= 3 /\ enters target evs <= 3.
Proof.
  intros Hfuel.
  set (enter := ETmux (Tmux.send_keys target (Js.lit "Enter"))).
  assert (Hen : is_enter target enter = true).
  { unfold enter, is_enter, Tmux.send_keys. now rewrite !eqb_refl. }
  unfold Send.send_and_verify.
  pose proof (exec_tmux_runs (Tmux.send_keys target (Js.lit "Enter"))
                (after w [ESleep 300])) as Hex.
  fold enter in Hex.
  destruct (reply E (calls (after w [ESleep 300])) _) as [stdout|].
  - destruct (cli_send_confirms_with_retries E detectActivity target fuel 1
                (after (after w [ESleep 300]) [enter]))
      as (evs & r & Hruns & Hp & He & Hr).
    exists ([ESleep 300] ++ [enter] ++ evs), r. split; [|split; [|split]].
    + eapply runs_bind_ok; [apply runs_sleep|].
      eapply runs_bind_ok; [exact Hex | exact Hruns].
    + apply Hr. lia.
    + change (polls ([ESleep 300] ++ [enter] ++ evs)) with (polls evs). lia.
    + assert (Hc : enters target ([ESleep 300] ++ [enter] ++ evs)
                   = 1 + enters target evs).
      { unfold enters. cbn [app filter is_enter]. fold (is_enter target enter).
        now rewrite Hen. }
      rewrite Hc. lia.
  - exists ([ESleep 300] ++ [enter]), (Throw (SystemError "tmux")).
    split; [|split; [discriminate|split]].
    + eapply runs_bind_ok; [apply runs_sleep|].
      apply runs_bind_throw. exact Hex.
    + change (polls ([ESleep 300] ++ [enter])) with 0. lia.
    + assert (Hc : enters target ([ESleep 300] ++ [enter]) = 1).
      { unfold enters. cbn [app filter is_enter]. fold (is_enter target enter).
        now rewrite Hen. }
      rewrite Hc. lia.
Qed.

(** A quiet step followed by a bounded one. *)
Lemma quiet_then {A B} (target : Js.str) (m : M A) (k : A -> M (option B))
    (p e : nat) :
  quiet target m ->
  (forall a w, exists evs r,
      runs (k a) w evs r /\ r <> Ok None /\ polls evs <= p
      /\ enters target evs <= e) ->
  forall w, exists evs r,
    runs (bind m k) w evs r /\ r <> Ok None /\ polls evs <= p
    /\ enters target evs <= e.
Proof.
  intros Hm Hk w. destruct (Hm w) as (evs1 & [a|err] & H1 & P1 & Q1).
  - destruct (Hk a (after w evs1)) as (evs2 & r & H2 & Hr & P2 & Q2).
    exists (evs1 ++ evs2), r. split; [now apply (runs_bind_ok m k w evs1 evs2 a)|].
    rewrite polls_app, enters_app. split; [assumption | lia].
  - exists evs1, (Throw err). split; [now apply runs_bind_throw|].
    split; [discriminate | lia].
Qed.

(** From clearing the input line to the verdict. *)
Lemma finish_runs (fuel : nat) (target : Js.str) (opts : SendCmd.Opts)
    (msg : option Js.str) (w : world) :
  3 <= fuel ->
  exists evs r,
    runs (bind (Send.exec_tmux E (Tmux.send_keys target (Js.lit "C-u")))
            (fun _ =>
             bind (sleep 200) (fun _ =>
             bind (SendCmd.inject E now readFile target opts msg) (fun sent =>
               if sent then
                 bind (Send.send_and_verify E detectActivity fuel target)
                   (fun v => ret (option_map SendCmd.Checked v))
               else ret (Some SendCmd.CannotReadFile))))) w evs r
    /\ r <> Ok None /\ polls evs <= 3 /\ enters target evs <= 3.
Proof.
  intros Hfuel. revert w.
  assert (Hclear : is_enter target
                     (ETmux (Tmux.send_keys target (Js.lit "C-u"))) = false).
  { unfold is_enter, Tmux.send_keys. now rewrite !eqb_refl. }
  apply quiet_then; [now apply quiet_exec|]. intros _.
  apply quiet_then; [apply quiet_sleep|]. intros _.
  apply quiet_then; [apply quiet_inject|]. intros [|] w.
  - destruct (check_runs fuel target w Hfuel) as (evs & r & Hruns & Hr & Hp & He).
    destruct r as [[v|]|err]; [| contradiction |].
    + exists (evs ++ []), (Ok (Some (SendCmd.Checked v))).
      split; [|rewrite app_nil_r; split; [discriminate | now split]].
      eapply runs_bind_ok; [exact Hruns | apply runs_ret].
    + exists evs, (Throw err).
      split; [now apply runs_bind_throw | split; [discriminate | now split]].
  - exists [], (Ok (Some SendCmd.CannotReadFile)).
    split; [apply runs_ret | split; [discriminate | split; cbn; lia]].
Qed.


(** X16: `ao send`, the checks before anything is typed: when tmux has-session
    fails for the target the action ends with "Session ... does not
    exist", and when neither a file nor a non-empty message is given it
    ends with "No message provided"; in both cases has-session is the only
    command that was run. *)
Theorem ao_send_checks_before_typing
    (fuel : nat) (target : Js.str) (messageParts : list Js.str)
    (opts : SendCmd.Opts) (w : world) :
  let has := SendCmd.has_session_args target in
  let run := SendCmd.action E detectActivity now readFile fuel target
               messageParts opts in
  (reply E (calls w) has = None ->
   runs run w [ETmux has] (Ok (Some SendCmd.NoSuchSession))) /\
  (reply E (calls w) has <> None ->
   Start.truthy (SendCmd.file opts) = false ->
   Projects.join (Js.lit " ") messageParts = [] ->
   runs run w [ETmux has] (Ok (Some SendCmd.NoMessage))).
Proof.
  intros has run.
  pose proof (shell_tmux_runs has w) as Hhas.
  unfold run, SendCmd.action. fold has. split.
  - intros Hnone. rewrite Hnone in Hhas.
    rewrite <- (app_nil_r [ETmux has]).
    eapply runs_bind_ok; [exact Hhas | apply runs_ret].
  - intros Hsome Hfile Hmsg.
    destruct (reply E (calls w) has) as [stdout|]; [|contradiction].
    rewrite <- (app_nil_r [ETmux has]).
    eapply runs_bind_ok; [exact Hhas|]. cbv zeta.
    rewrite Hfile, Hmsg. apply runs_ret.
Qed.

(** X17: `ao send`, from start to end: when the wait for idle is on, five
    seconds pass in each round of it and the clock does not run backwards
    at its start, the action ends, with one of its endings or an error of
    tmux, whatever tmux answers and whatever the agent detects; it has
    looked at the pane at most timeout/5000 + 2 times before sending and
    at most three times after, and has pressed Enter at most three
    times. With --no-wait the same holds with no look before sending. *)
Theorem ao_send_ends_within_bounds
    (fuel : nat) (target : Js.str) (messageParts : list Js.str)
    (opts : SendCmd.Opts) (w : world) :
  let rounds := N.to_nat (SendCmd.timeoutMs opts / 5000) + 1 in
  rounds < fuel -> 3 <= fuel ->
  (SendCmd.wait opts = true ->
   five_seconds_pass now (List.length (trace w) + 2) /\
   (now (List.length (trace w) + 1) <= now (List.length (trace w) + 2))%N) ->
  exists evs r,
    runs (SendCmd.action E detectActivity now readFile fuel target
            messageParts opts) w evs r /\
    r <> Ok None /\
    polls evs <= (if SendCmd.wait opts then rounds + 1 else 0) + 3 /\
    enters target evs <= 3.
Proof.
  intros rounds Hfuel Hfuel3 Hclock.
  set (has := SendCmd.has_session_args target).
  assert (Hp0 : polls [ETmux has] = 0) by reflexivity.
  assert (He0 : enters target [ETmux has] = 0) by reflexivity.
  pose proof (shell_tmux_runs has w) as Hhas.
  unfold SendCmd.action. fold has.
  destruct (reply E (calls w) has) as [stdout|].
  2:{ exists ([ETmux has] ++ []), (Ok (Some SendCmd.NoSuchSession)).
      split; [eapply runs_bind_ok; [exact Hhas | apply runs_ret]|].
      rewrite app_nil_r, Hp0, He0. split; [discriminate | split; lia]. }
  cbv zeta.
  set (msg := if Start.truthy (SendCmd.file opts) then None
              else Some (Projects.join (Js.lit " ") messageParts)).
  destruct (negb (Start.truthy (SendCmd.file opts)) && negb (Start.truthy msg)).
  { exists ([ETmux has] ++ []), (Ok (Some SendCmd.NoMessage)).
    split; [eapply runs_bind_ok; [exact Hhas | apply runs_ret]|].
    rewrite app_nil_r, Hp0, He0. split; [discriminate | split; lia]. }
  set (w1 := after w [ETmux has]).
  assert (Hlen : List.length (trace w1) = List.length (trace w) + 1).
  { unfold w1. rewrite trace_after, length_app. reflexivity. }
  destruct (SendCmd.wait opts) eqn:Hwait.
  - destruct (Hclock eq_refl) as [Hfive Hmono].
    pose proof (date_now_runs w1) as Hstart. rewrite Hlen in Hstart.
    set (start := now (List.length (trace w) + 1)) in *.
    destruct (wait_while_active_ends target start (SendCmd.timeoutMs opts)
                rounds fuel (after w1 [])) as (evs1 & Hwaitruns & Hp1 & _ & He1).
    + exact Hfuel.
    + rewrite trace_after, app_nil_r, Hlen.
      now replace (List.length (trace w) + 1 + 1)
        with (List.length (trace w) + 2) by lia.
    + rewrite trace_after, app_nil_r, Hlen.
      now replace (List.length (trace w) + 1 + 1)
        with (List.length (trace w) + 2) by lia.
    + unfold rounds.
      pose proof (N.mul_succ_div_gt (SendCmd.timeoutMs opts) 5000) as Hdiv.
      rewrite Nat2N.inj_add, N2Nat.id. change (N.of_nat 1) with 1%N. lia.
    + destruct (finish_runs fuel target opts msg
                  (after (after w1 []) evs1) Hfuel3)
        as (evs2 & r & Hfin & Hr & Hp2 & He2).
      exists ([ETmux has] ++ ([] ++ evs1) ++ evs2), r. split.
      * eapply runs_bind_ok; [exact Hhas|]. fold w1.
        eapply runs_bind_ok;
          [eapply runs_bind_ok; [exact Hstart | exact Hwaitruns]|].
        cbn beta iota. rewrite <- after_app. exact Hfin.
      * rewrite !polls_app, !enters_app, Hp0, He0, He1.
        change (polls []) with 0. change (enters target []) with 0.
        split; [exact Hr | split; lia].
  - destruct (finish_runs fuel target opts msg (after w1 []) Hfuel3)
      as (evs2 & r & Hfin & Hr & Hp2 & He2).
    exists ([ETmux has] ++ [] ++ evs2), r. split.
    + eapply runs_bind_ok; [exact Hhas|]. fold w1.
      eapply runs_bind_ok; [apply runs_ret | exact Hfin].
    + rewrite !polls_app, !enters_app, Hp0, He0.
      change (polls []) with 0. change (enters target []) with 0.
      split; [exact Hr | split; lia].
Qed.

End SendAction.

Lemma ao_send_checks_before_typing_witness :
  TraceStmt.runs
    (SendCmd.action RuntimeStmt.dead_env Send.codex_detectActivity
       SendStmt.steady_clock SendStmt.no_files 200 (Js.lit "app-1")
       [Js.lit "please"; Js.lit "rebase"] SendStmt.plain_opts)
    TraceStmt.start_world
    [Proc.ETmux (SendCmd.has_session_args (Js.lit "app-1"))]
    (Ok (Some SendCmd.NoSuchSession)).
Proof.
  apply (ao_send_checks_before_typing RuntimeStmt.dead_env
           Send.codex_detectActivity SendStmt.steady_clock SendStmt.no_files
           200 (Js.lit "app-1") [Js.lit "please"; Js.lit "rebase"]
           SendStmt.plain_opts TraceStmt.start_world).
  reflexivity.
Defined.

Lemma steady_clock_passes (base : nat) :
  SendStmt.five_seconds_pass SendStmt.steady_clock base.
Proof. intros k. unfold SendStmt.steady_clock. lia. Qed.

Lemma ao_send_ends_within_bounds_witness :
  exists evs r,
    TraceStmt.runs
      (SendCmd.action SendStmt.prompt_env Send.codex_detectActivity
         SendStmt.steady_clock SendStmt.no_files 200 (Js.lit "app-1")
         [Js.lit "please"; Js.lit "rebase"] SendStmt.plain_opts)
      TraceStmt.start_world evs r /\
    r <> Ok None /\
    TraceStmt.polls evs <= 125 /\
    TraceStmt.enters (Js.lit "app-1") evs <= 3.
Proof.
  apply (ao_send_ends_within_bounds SendStmt.prompt_env
           Send.codex_detectActivity SendStmt.steady_clock SendStmt.no_files
           200 (Js.lit "app-1") [Js.lit "please"; Js.lit "rebase"]
           SendStmt.plain_opts TraceStmt.start_world).
  - vm_compute. lia.
  - lia.
  - intros _. split; [apply steady_clock_passes|].
    unfold SendStmt.steady_clock. lia.
Defined.

(* ===================================================================== *)
(** ** `ao send` and the Codex agent *)

Section CodexSend.
Import Proc TraceStmt SendStmt.
Variable E : env.
Variable now : nat -> N.
Variable target : Js.str.
Hypothesis Htext : shows_text E target.

Lemma codex_sees_activity (k : nat) (lines : Js.str) :
  Send.isActive Send.codex_detectActivity
    match reply E k (Tmux.capture_args target lines) with
    | Some stdout => Js.rtrim stdout
    | None => []
    end = true.
Proof.
  destruct (Htext k lines) as (stdout & -> & Hne).
  unfold Send.isActive, Send.codex_detectActivity.
  rewrite trim_rtrim. now destruct (Js.trim stdout).
Qed.

Lemma codex_wait (start timeout : N) (fuel : nat) :
  forall w, exists evs r,
    runs (SendCmd.wait_while_active E Send.codex_detectActivity now fuel
            target start timeout) w evs r /\
    (r = Ok (Some tt) ->
     (timeout < now (List.length (trace w ++ evs)) - start)%N).
Proof.
  set (look := ETmux (Tmux.capture_args target (Js.lit "-5"))).
  induction fuel as [|fuel IH]; intros w.
  - exists [], (Ok None). split; [apply runs_ret | discriminate].
  - rewrite wait_unfold_cli.
    pose proof (capture_output_runs E target (Js.lit "-5") w) as Hcap.
    fold look in Hcap.
    pose proof (codex_sees_activity (calls w) (Js.lit "-5")) as Hact.
    pose proof (date_now_runs now (after w [look])) as Hnow.
    rewrite trace_after in Hnow.
    destruct (N.ltb timeout (now (List.length (trace w ++ [look])) - start))
      eqn:Hlt.
    + exists ([look] ++ [] ++ []), (Ok (Some tt)). split.
      * eapply runs_bind_ok; [exact Hcap|]. rewrite Hact.
        eapply runs_bind_ok; [exact Hnow|]. rewrite Hlt. apply runs_ret.
      * intros _. apply N.ltb_lt. exact Hlt.
    + destruct (IH (after (after (after w [look]) []) [ESleep 5000]))
        as (evs & r & Hruns & Hr).
      exists ([look] ++ [] ++ [ESleep 5000] ++ evs), r. split.
      * eapply runs_bind_ok; [exact Hcap|]. rewrite Hact.
        eapply runs_bind_ok; [exact Hnow|]. rewrite Hlt.
        eapply runs_bind_ok; [apply runs_sleep | exact Hruns].
      * intros Hok. specialize (Hr Hok).
        rewrite !trace_after in Hr. rewrite app_nil_r, <- !app_assoc in Hr.
        exact Hr.
Qed.

(** X18: `ao send` with the Codex agent, whose detectActivity takes any pane
    that is not blank for an active one: while the pane shows text, the
    wait for idle never finds the session idle, so that when it ends more
    than the timeout has passed since it began; and the delivery check
    reports "processing" at its first look without pressing Enter
    again. *)
Theorem codex_pane_never_reads_idle :
  (forall fuel start timeout w evs,
     runs (SendCmd.wait_while_active E Send.codex_detectActivity now fuel
             target start timeout) w evs (Ok (Some tt)) ->
     (timeout < now (List.length (trace w ++ evs)) - start)%N) /\
  (forall fuel w,
     reply E (calls w) (Tmux.send_keys target (Js.lit "Enter")) <> None ->
     runs (Send.send_and_verify E Send.codex_detectActivity (S fuel) target) w
       [ ESleep 300; ETmux (Tmux.send_keys target (Js.lit "Enter"));
         ESleep 2000; ETmux (Tmux.capture_args target (Js.lit "-10")) ]
       (Ok (Some Send.Processing))).
Proof.
  split.
  - intros fuel start timeout w evs Hruns.
    destruct (codex_wait start timeout fuel w) as (evs' & r & Hruns' & Hr).
    destruct (runs_fun _ _ _ _ _ _ Hruns Hruns') as [-> <-].
    now apply Hr.
  - intros fuel w Henter.
    set (enter := ETmux (Tmux.send_keys target (Js.lit "Enter"))).
    set (look := ETmux (Tmux.capture_args target (Js.lit "-10"))).
    unfold Send.send_and_verify.
    pose proof (exec_tmux_runs E (Tmux.send_keys target (Js.lit "Enter"))
                  (after w [ESleep 300])) as Hex.
    assert (Hc : calls (after w [ESleep 300]) = calls w).
    { unfold after, tmux_count. simpl. lia. }
    rewrite Hc in Hex. fold enter in Hex.
    destruct (reply E (calls w) (Tmux.send_keys target (Js.lit "Enter")))
      as [stdout|]; [|contradiction].
    change [ESleep 300; enter; ESleep 2000; look]
      with ([ESleep 300] ++ [enter] ++ [ESleep 2000] ++ [look] ++ []).
    eapply runs_bind_ok; [apply runs_sleep|].
    eapply runs_bind_ok; [exact Hex|].
    rewrite verify_unfold. cbn [Nat.leb negb].
    eapply runs_bind_ok; [apply runs_sleep|].
    eapply runs_bind_ok; [apply capture_output_runs|].
    rewrite codex_sees_activity. apply runs_ret.
Qed.

End CodexSend.

Lemma prompt_shows_text :
  SendStmt.shows_text SendStmt.prompt_env (Js.lit "app-1").
Proof. intros k lines. eexists. split; [reflexivity | discriminate]. Qed.

Lemma codex_pane_never_reads_idle_witness :
  let look := Proc.ETmux (Tmux.capture_args (Js.lit "app-1") (Js.lit "-5")) in
  TraceStmt.runs
    (SendCmd.wait_while_active SendStmt.prompt_env Send.codex_detectActivity
       SendStmt.steady_clock 5 (Js.lit "app-1") (SendStmt.steady_clock 0) 5000)
    TraceStmt.start_world [look; Proc.ESleep 5000; look] (Ok (Some tt)) /\
  (5000 < SendStmt.steady_clock 3 - SendStmt.steady_clock 0)%N /\
  TraceStmt.runs
    (Send.send_and_verify SendStmt.prompt_env Send.codex_detectActivity 3
       (Js.lit "app-1")) TraceStmt.start_world
    [ Proc.ESleep 300;
      Proc.ETmux (Tmux.send_keys (Js.lit "app-1") (Js.lit "Enter"));
      Proc.ESleep 2000;
      Proc.ETmux (Tmux.capture_args (Js.lit "app-1") (Js.lit "-10")) ]
    (Ok (Some Send.Processing)).
Proof.
  intros look.
  assert (Hrun : TraceStmt.runs
            (SendCmd.wait_while_active SendStmt.prompt_env
               Send.codex_detectActivity SendStmt.steady_clock 5
               (Js.lit "app-1") (SendStmt.steady_clock 0) 5000)
            TraceStmt.start_world [look; Proc.ESleep 5000; look]
            (Ok (Some tt))) by (vm_compute; repeat split).
  split; [exact Hrun|]. split.
  - exact (proj1 (codex_pane_never_reads_idle SendStmt.prompt_env
                    SendStmt.steady_clock (Js.lit "app-1") prompt_shows_text)
             5 (SendStmt.steady_clock 0) 5000%N TraceStmt.start_world _ Hrun).
  - apply (proj2 (codex_pane_never_reads_idle SendStmt.prompt_env
                    SendStmt.steady_clock (Js.lit "app-1") prompt_shows_text)).
    discriminate.
Defined.

(* ===================================================================== *)
(** ** Records that did not exist before *)

Section NewRecords.
Import Metadata Stmt StoreStmt.

Lemma listed_after_flat_write (st : store) (id content : Js.str) :
  Js.VALID_SESSION_ID id = true ->
  let st' := Some (Assoc.put id (EFile content) (dir_of st)) in
  (In id (listMetadata st') <-> id <> ARCHIVE) /\
  (flat_writable st id = true ->
   forall x, x <> id -> (In x (listMetadata st') <-> In x (listMetadata st))).
Proof.
  intros Hv st'. split.
  - rewrite listed_iff. unfold stored_flat. split; [tauto|].
    intros Ha. split; [assumption|]. split; [assumption|]. left.
    unfold st'. simpl. now rewrite get_put_eq.
  - intros Hw x Hx.
    assert (Hsame : forall q, layout_path x q -> isFile st' q = isFile st q).
    { intros q [->|(dir & He & ->)]; unfold st'.
      - destruct st as [d|]; simpl.
        + rewrite get_put_ne by congruence. reflexivity.
        + destruct (eqb_spec id x); [congruence | reflexivity].
      - destruct st as [d|]; simpl.
        + destruct (eqb_spec id dir) as [<-|Hne].
          * rewrite get_put_eq. unfold flat_writable in Hw.
            now destruct (Assoc.get id d) as [[c|ch]|].
          * now rewrite get_put_ne by assumption.
        + now destruct (Js.eqb id dir). }
    split; apply listed_mono; intros q Hq Hf;
      [rewrite <- Hsame | rewrite Hsame]; assumption.
Qed.

(** X19: writeMetadata and reserveSessionId followed by listMetadata: a session
    that has just been written or reserved is listed, unless its ID is
    "archive", which is a valid ID that the listing always skips; and the
    other sessions are listed exactly as before. *)
Theorem new_sessions_are_listed (st st' : store) (id : Js.str) :
  (exists R, writeMetadata st id R = Ok st')
  \/ reserveSessionId st id = Ok (true, st') ->
  (In id (listMetadata st') <-> id <> ARCHIVE) /\
  (forall x, x <> id -> (In x (listMetadata st') <-> In x (listMetadata st))).
Proof.
  intros H.
  assert (Hshape : exists content,
            Js.VALID_SESSION_ID id = true /\ flat_writable st id = true /\
            st' = Some (Assoc.put id (EFile content) (dir_of st))).
  { destruct H as [[R Hw]|Hr].
    - exists (encode (serializeMetadata (data_of_record R))).
      unfold writeMetadata, metadataPath, validateSessionId in Hw.
      destruct (Js.VALID_SESSION_ID id); [|discriminate].
      split; [reflexivity|]. cbn [rbind] in Hw.
      destruct st as [d|]; cbn [mkdirParent rbind writeFileSync] in Hw.
      + unfold flat_writable.
        destruct (Assoc.get id d) as [[c|ch]|]; try discriminate;
          [|destruct (too_long id); [discriminate|]];
          injection Hw as <-; now split.
      + cbn [Assoc.get] in Hw. destruct (too_long id); [discriminate|].
        injection Hw as <-. now split.
    - exists [].
      destruct (reserve_true _ _ _ Hr) as (Hv & Hex & _ & ->).
      split; [assumption|]. split; [|reflexivity].
      destruct st as [d|]; [|reflexivity].
      cbn [existsSync flat_writable] in *. unfold Assoc.has in Hex.
      now destruct (Assoc.get id d) as [[c|ch]|]. }
  destruct Hshape as (content & Hv & Hw & ->).
  destruct (listed_after_flat_write st id content Hv) as [H1 H2].
  split; [exact H1 | exact (H2 Hw)].
Qed.

Lemma new_sessions_are_listed_witness :
  exists st',
    reserveSessionId mixed_store (Js.lit "app-9") = Ok (true, st') /\
    listMetadata st' = [Js.lit "app-1"; Js.lit "app-3"; Js.lit "app-9"] /\
    In (Js.lit "app-9") (listMetadata st').
Proof.
  eexists. split; [reflexivity|]. split; [reflexivity|].
  apply (proj1 (new_sessions_are_listed mixed_store _ (Js.lit "app-9")
                  (or_intror eq_refl))).
  discriminate.
Defined.

(** X20: updateMetadata for a session without a record: when nothing stands at
    the flat path and the ID has at most 255 characters, the update
    creates the flat file, and the new record holds exactly the keys that
    the update (distinct keys; keys and values clean and well formed,
    that is, without a surrogate that lacks its partner) gives a
    non-empty value. *)
Theorem update_creates_a_missing_record
    (st : store) (id : Js.str) (updates : Obj.t (option Js.str)) :
  readMetadataRaw st id = Ok None ->
  existsSync st (Flat id) = false ->
  List.length id <= 255 ->
  NoDup (Assoc.keys updates) ->
  clean_updates updates = true ->
  well_formed_updates updates = true ->
  exists st' raw',
    updateMetadata st id updates = Ok st' /\
    isFile st' (Flat id) = true /\
    readMetadataRaw st' id = Ok (Some raw') /\
    forall k, Assoc.get k raw' = merged_field updates [] k.
Proof.
  intros Hread Hex Hlen Hnd Hclean Hwf.
  assert (Hres : resolveMetadataPath st id = Ok None).
  { unfold readMetadataRaw in Hread.
    destruct (resolveMetadataPath st id) as [[p|]|e] eqn:Hr; simpl in Hread;
      try discriminate; [|reflexivity].
    destruct (resolve_some _ _ _ Hr) as (_ & Hf & _).
    destruct (isFile_read _ _ Hf) as [c Hc]. rewrite Hc in Hread. discriminate. }
  assert (Hv : Js.VALID_SESSION_ID id = true).
  { unfold resolveMetadataPath, validateSessionId in Hres.
    destruct (Js.VALID_SESSION_ID id); [reflexivity | discriminate]. }
  assert (Hw : flat_writable st id = true).
  { destruct st as [d|]; [|reflexivity].
    cbn [existsSync flat_writable] in *. unfold Assoc.has in Hex.
    now destruct (Assoc.get id d) as [[c|ch]|]. }
  set (merged := fold_left merge_entry (Obj.entries updates) []).
  assert (Hucl : forallb clean_update (Obj.entries updates) = true).
  { apply forallb_forall. intros kv Hin.
    apply (proj1 (in_entries _ _ _)) in Hin.
    unfold clean_updates in Hclean.
    rewrite forallb_forall in Hclean. now apply Hclean. }
  assert (Huwf : forallb well_formed_update (Obj.entries updates) = true).
  { apply forallb_forall. intros kv Hin.
    apply (proj1 (in_entries _ _ _)) in Hin.
    unfold well_formed_updates in Hwf.
    rewrite forallb_forall in Hwf. now apply Hwf. }
  assert (Hund : NoDup (Assoc.keys (Obj.entries updates)))
    by now apply nodup_keys_entries.
  destruct (fold_merge_inv (Obj.entries updates) [] Hucl
              (NoDup_nil _) (Forall_nil _)) as [Hmnd Hmcl].
  fold merged in Hmnd, Hmcl.
  assert (Hmwf : Js.isWellFormed (serializeMetadata merged) = true).
  { apply serialize_well_formed, fold_merge_well_formed;
      [assumption | constructor]. }
  exists (Some (Assoc.put id (EFile (serializeMetadata merged)) (dir_of st))),
    (parseMetadataFile (serializeMetadata merged)).
  split; [|split; [|split]].
  - unfold updateMetadata. rewrite Hres. cbn [rbind].
    unfold metadataPath. rewrite validate_ok by assumption. cbn [rbind].
    rewrite Hex. cbn [rbind].
    rewrite write_flat; [|assumption|now apply fits].
    fold merged. now rewrite (encode_well_formed _ Hmwf).
  - cbn [isFile]. now rewrite get_put_eq.
  - unfold readMetadataRaw.
    erewrite resolve_flat_file; [|assumption|apply get_put_eq].
    cbn [rbind readFileSync]. rewrite get_put_eq.
    now rewrite (decode_well_formed _ Hmwf).
  - intros k. rewrite parse_serialize by assumption.
    rewrite get_filter_nonempty by now apply nodup_keys_entries.
    rewrite get_entries by assumption.
    unfold merged.
    rewrite get_fold_merge; [|assumption|assumption|constructor|constructor].
    rewrite get_entries by assumption.
    unfold merged_field. cbn [Assoc.get omit_empty].
    now destruct (Assoc.get k updates) as [[[|c s]|]|].
Qed.

Lemma update_creates_a_missing_record_witness :
  readMetadataRaw working_store (Js.lit "app-2") = Ok None /\
  exists st' raw',
    updateMetadata working_store (Js.lit "app-2") plain_update = Ok st' /\
    isFile st' (Flat (Js.lit "app-2")) = true /\
    readMetadataRaw st' (Js.lit "app-2") = Ok (Some raw') /\
    forall k, Assoc.get k raw' = merged_field plain_update [] k.
Proof.
  split; [reflexivity|].
  apply (update_creates_a_missing_record working_store (Js.lit "app-2")
           plain_update); try reflexivity.
  - vm_compute. lia.
  - repeat constructor; simpl; intros H;
      repeat (destruct H as [H|H]; [discriminate|]); exact H.
Defined.

End NewRecords.
